(** * EVE Frontier tools: index parser, symlink manager, statistics and
      derived-dataset builders

    A shallow embedding of [src/lib/utils.js] and of the processors under
    [src/lib/processors/] (file indexing, type names, blueprints, stellar
    cartography), followed by the properties established about them.

    Conventions of the embedding.
    - JavaScript strings are [string]; the regular expressions of the
      source are terms of a small pattern language run by a backtracking
      matcher with the priorities of ECMAScript (greedy and lazy
      quantifiers over character classes, capture groups).
    - JSON documents are [jvalue]; numbers are integers or [NaN]
      (fractional numbers play no role in the code modelled here).
    - Code that can throw returns [result]; code that mutates the file
      system, the statistics object or the log threads a [world]. *)

From Stdlib Require Import ZArith Ascii String List Bool Lia.
From Stdlib Require Import Strings.Byte.
From stdpp Require Import base option list gmap strings pretty fin_maps.

Local Open Scope string_scope.
Local Open Scope Z_scope.

(* ===================================================================== *)
(** ** Characters and strings *)
(* ===================================================================== *)

Definition chars (s : string) : list ascii := list_ascii_of_string s.
Definition implode (l : list ascii) : string := string_of_list_ascii l.

Definition ascii_eqb (a b : ascii) : bool := Ascii.eqb a b.

(** Line terminators of ECMAScript that exist in the 8-bit alphabet. *)
Definition is_line_terminator (c : ascii) : bool :=
  ascii_eqb c "010"%char || ascii_eqb c "013"%char.

Definition is_digit (c : ascii) : bool :=
  let n := nat_of_ascii c in (48 <=? n)%nat && (n <=? 57)%nat.

(* ===================================================================== *)
(** ** Regular expressions *)
(* ===================================================================== *)

Module Regex.

(** Character classes used by the patterns of the source. *)
Inductive cclass : Type :=
| CAny                 (* .     : anything but a line terminator *)
| CNot (c : ascii)     (* [^c]                                    *)
| CDigit.              (* \d                                      *)

Definition in_class (k : cclass) (c : ascii) : bool :=
  match k with
  | CAny => negb (is_line_terminator c)
  | CNot d => negb (ascii_eqb c d)
  | CDigit => is_digit c
  end.

(** A pattern is a sequence of items. Quantifiers apply to character
    classes only, and groups do not nest, which is all the source uses. *)
Inductive item : Type :=
| IChr (c : ascii)                 (* a literal character *)
| IStar (greedy : bool) (k : cclass)   (* k*  or  k*?       *)
| IPlus (k : cclass)               (* k+  (greedy)          *)
| IOpen                            (* (                     *)
| IClose                           (* )                     *)
| IEnd.                            (* $                     *)

(** Matcher state: the captures closed so far and the text of the group
    currently open (most recent character first). *)
Record mstate : Type := MState {
  caps : list (list ascii);
  cur : option (list ascii)
}.

Definition init : mstate := MState [] None.

Definition push (c : ascii) (st : mstate) : mstate :=
  MState (caps st) (option_map (cons c) (cur st)).

(** The state after the characters [a] have been consumed, in order. *)
Definition pushes (a : list ascii) (st : mstate) : mstate :=
  fold_left (fun st c => push c st) a st.

Definition open_group (st : mstate) : mstate := MState (caps st) (Some []).

Definition close_group (st : mstate) : mstate :=
  MState (caps st ++ [rev (default [] (cur st))]) None.

Section Quantifiers.
Context {R : Type} (k : cclass) (cont : mstate -> list ascii -> option R).

(** [k*] greedy: take as many characters as possible, give them back
    one at a time while the continuation fails. *)
Fixpoint greedy (st : mstate) (s : list ascii) : option R :=
  match s with
  | c :: s' =>
      if in_class k c then
        match greedy (push c st) s' with
        | Some r => Some r
        | None => cont st s
        end
      else cont st s
  | [] => cont st s
  end.

(** [k*?] lazy: try the continuation first, take one more character
    only when it fails. *)
Fixpoint lazy (st : mstate) (s : list ascii) : option R :=
  match cont st s with
  | Some r => Some r
  | None =>
      match s with
      | c :: s' => if in_class k c then lazy (push c st) s' else None
      | [] => None
      end
  end.
End Quantifiers.

Fixpoint exec (p : list item) (st : mstate) (s : list ascii)
  : option (list (list ascii)) :=
  match p with
  | [] => Some (caps st)
  | IEnd :: p' => match s with [] => exec p' st s | _ :: _ => None end
  | IChr c :: p' =>
      match s with
      | c' :: s' => if ascii_eqb c' c then exec p' (push c' st) s' else None
      | [] => None
      end
  | IOpen :: p' => exec p' (open_group st) s
  | IClose :: p' => exec p' (close_group st) s
  | IStar true k :: p' => greedy k (exec p') st s
  | IStar false k :: p' => lazy k (exec p') st s
  | IPlus k :: p' =>
      match s with
      | c :: s' =>
          if in_class k c then greedy k (exec p') (push c st) s' else None
      | [] => None
      end
  end.

(** A pattern that starts with [^]: only position 0 is tried. *)
Definition match_anchored (p : list item) (s : string)
  : option (list string) :=
  option_map (map implode) (exec p init (chars s)).

(** A pattern without [^]: the leftmost position that matches wins. *)
Fixpoint search (p : list item) (s : list ascii)
  : option (list (list ascii)) :=
  match exec p init s with
  | Some r => Some r
  | None => match s with [] => None | _ :: s' => search p s' end
  end.

Definition match_unanchored (p : list item) (s : string)
  : option (list string) :=
  option_map (map implode) (search p (chars s)).

Definition lit (s : string) : list item := map IChr (chars s).

End Regex.

(* ===================================================================== *)
(** ** JavaScript values *)
(* ===================================================================== *)

(** Outcome of code that may throw. *)
Inductive result (A : Type) : Type :=
| Ok (a : A)
| Throw (message : string).
Arguments Ok {A} a.
Arguments Throw {A} message.

Definition rbind {A B} (r : result A) (f : A -> result B) : result B :=
  match r with
  | Ok a => f a
  | Throw m => Throw m
  end.

Declare Scope result_scope.
Delimit Scope result_scope with result.
Notation "'let?' x ':=' r 'in' k" := (rbind r (fun x => k))
  (at level 10, x pattern, r at level 100, k at level 200) : result_scope.
Local Open Scope result_scope.

(** Monadic left fold: the body of a [for ... of] loop that may throw. *)
Fixpoint rfold {A S} (f : S -> A -> result S) (l : list A) (s : S)
  : result S :=
  match l with
  | [] => Ok s
  | a :: l' => let? s' := f s a in rfold f l' s'
  end.

Fixpoint rmap {A B} (f : A -> result B) (l : list A) : result (list B) :=
  match l with
  | [] => Ok []
  | a :: l' => let? b := f a in let? bs := rmap f l' in Ok (b :: bs)
  end.

Module Js.

(** Numbers: integers and [NaN]. *)
Inductive jsnum : Type :=
| NaN
| Num (z : Z).

#[warnings="-register-all"]
Inductive jvalue : Type :=
| JUndef
| JNull
| JBool (b : bool)
| JNum (n : jsnum)
| JStr (s : string)
| JArr (items : list jvalue)
| JObj (props : list (string * jvalue)).   (* in enumeration order *)

Definition jsnum_eqb (a b : jsnum) : bool :=
  match a, b with
  | NaN, NaN => true
  | Num x, Num y => Z.eqb x y
  | _, _ => false
  end.

(** ToBoolean. *)
Definition truthy (v : jvalue) : bool :=
  match v with
  | JUndef | JNull => false
  | JBool b => b
  | JNum NaN => false
  | JNum (Num z) => negb (Z.eqb z 0)
  | JStr s => negb (String.eqb s "")
  | JArr _ | JObj _ => true
  end.

(** [undefined] and [null], the two values without properties. *)
Definition nullish (v : jvalue) : bool :=
  match v with
  | JUndef | JNull => true
  | _ => false
  end.

(** [a || b] *)
Definition or_else (a b : jvalue) : jvalue := if truthy a then a else b.

(** Decimal rendering of an integer, as Number.prototype.toString gives
    it for integers below 10^21 in magnitude. *)
Definition Z_to_string (z : Z) : string := pretty z.

Definition num_to_string (n : jsnum) : string :=
  match n with
  | NaN => "NaN"
  | Num z => Z_to_string z
  end.

Fixpoint join (sep : string) (l : list string) : string :=
  match l with
  | [] => ""
  | [x] => x
  | x :: rest => x ++ sep ++ join sep rest
  end.

(** ToString, as used by template literals and property keys. *)
Fixpoint to_string (v : jvalue) : string :=
  match v with
  | JUndef => "undefined"
  | JNull => "null"
  | JBool true => "true"
  | JBool false => "false"
  | JNum n => num_to_string n
  | JStr s => s
  | JArr items =>
      join ","
        (map (fun e => match e with
                       | JUndef | JNull => ""
                       | _ => to_string e
                       end) items)
  | JObj _ => "[object Object]"
  end.

(** White space skipped by parseInt (8-bit part of the ECMAScript set). *)
Definition is_space (c : ascii) : bool :=
  let n := nat_of_ascii c in
  ((9 <=? n)%nat && (n <=? 13)%nat) || (n =? 32)%nat || (n =? 160)%nat.

Definition hex_value (c : ascii) : option Z :=
  let n := nat_of_ascii c in
  if ((48 <=? n)%nat && (n <=? 57)%nat) then Some (Z.of_nat n - 48)
  else if ((97 <=? n)%nat && (n <=? 102)%nat) then Some (Z.of_nat n - 87)
  else if ((65 <=? n)%nat && (n <=? 70)%nat) then Some (Z.of_nat n - 55)
  else None.

Definition dec_value (c : ascii) : option Z :=
  if is_digit c then Some (Z.of_nat (nat_of_ascii c) - 48) else None.

(** Value of the longest prefix of digits; [None] when there is none. *)
Fixpoint digits_value (radix : Z) (dv : ascii -> option Z)
         (acc : option Z) (s : list ascii) : option Z :=
  match s with
  | c :: s' =>
      match dv c with
      | Some d => digits_value radix dv (Some (default 0 acc * radix + d)) s'
      | None => acc
      end
  | [] => acc
  end.

Fixpoint skip_spaces (s : list ascii) : list ascii :=
  match s with
  | c :: s' => if is_space c then skip_spaces s' else s
  | [] => []
  end.

(** parseInt(s) with the radix left out. *)
Definition parseInt (s : string) : jsnum :=
  let s1 := skip_spaces (chars s) in
  let '(neg, s2) :=
    match s1 with
    | c :: r => if ascii_eqb c "-"%char then (true, r)
                else if ascii_eqb c "+"%char then (false, r)
                else (false, s1)
    | [] => (false, s1)
    end in
  let v :=
    match s2 with
    | z :: x :: r =>
        if ascii_eqb z "0"%char
           && (ascii_eqb x "x"%char || ascii_eqb x "X"%char)
        then digits_value 16 hex_value None r
        else digits_value 10 dec_value None s2
    | _ => digits_value 10 dec_value None s2
    end in
  match v with
  | Some n => Num (if neg then - n else n)
  | None => NaN
  end.

(** Own-property lookup in an object literal: the first binding of the
    key in enumeration order. *)
Fixpoint assoc (key : string) (props : list (string * jvalue))
  : option jvalue :=
  match props with
  | [] => None
  | (k, v) :: rest => if String.eqb k key then Some v else assoc key rest
  end.

(** The array index a property key denotes, if it is a canonical one. *)
Definition array_index (key : string) : option nat :=
  match digits_value 10 dec_value None (chars key) with
  | Some n => if String.eqb (Z_to_string n) key then Some (Z.to_nat n)
              else None
  | None => None
  end.

(** [v[key]] / [v.key]: own properties of objects, elements and length
    of arrays and strings. Reading a property of [undefined] or [null]
    throws a TypeError. Inherited members (methods) are not values of
    this model. *)
Definition get (v : jvalue) (key : string) : result jvalue :=
  match v with
  | JUndef => Throw ("Cannot read properties of undefined (reading '"
                       ++ key ++ "')")
  | JNull => Throw ("Cannot read properties of null (reading '"
                      ++ key ++ "')")
  | JObj props => Ok (default JUndef (assoc key props))
  | JArr items =>
      if String.eqb key "length"
      then Ok (JNum (Num (Z.of_nat (length items))))
      else match array_index key with
           | Some i => Ok (nth i items JUndef)
           | None => Ok JUndef
           end
  | JStr s =>
      if String.eqb key "length"
      then Ok (JNum (Num (Z.of_nat (String.length s))))
      else match array_index key with
           | Some i => match String.get i s with
                       | Some c => Ok (JStr (String c ""))
                       | None => Ok JUndef
                       end
           | None => Ok JUndef
           end
  | JBool _ | JNum _ => Ok JUndef
  end.

Fixpoint index_entries {A} (i : nat) (l : list A) (f : A -> jvalue)
  : list (string * jvalue) :=
  match l with
  | [] => []
  | x :: l' => (Z_to_string (Z.of_nat i), f x) :: index_entries (S i) l' f
  end.

(** Object.entries(v). *)
Definition entries (v : jvalue) : result (list (string * jvalue)) :=
  match v with
  | JUndef | JNull =>
      Throw "Cannot convert undefined or null to object"
  | JObj props => Ok props
  | JArr items => Ok (index_entries 0 items (fun x => x))
  | JStr s => Ok (index_entries 0 (chars s) (fun c => JStr (String c "")))
  | JBool _ | JNum _ => Ok []
  end.

Definition keys (v : jvalue) : result (list string) :=
  let? es := entries v in Ok (map fst es).

Definition values (v : jvalue) : result (list jvalue) :=
  let? es := entries v in Ok (map snd es).

(** The elements of [v] when [v] is an array; the array methods
    [map], [forEach], [push] and [for ... of] are not available on any
    other JSON value. *)
Definition as_array (what : string) (v : jvalue) : result (list jvalue) :=
  match v with
  | JArr items => Ok items
  | _ => Throw (what ++ " is not a function")
  end.

(** [v === n] for a number literal, [v === s] for a string literal. *)
Definition is_num (v : jvalue) (z : Z) : bool :=
  match v with JNum (Num x) => Z.eqb x z | _ => false end.

Definition is_str (v : jvalue) (s : string) : bool :=
  match v with JStr x => String.eqb x s | _ => false end.

(** SameValueZero, the equality of Set and Map; two arrays or two
    objects of a parsed document are never the same object. *)
Definition same_value_zero (a b : jvalue) : bool :=
  match a, b with
  | JUndef, JUndef | JNull, JNull => true
  | JBool x, JBool y => Bool.eqb x y
  | JNum x, JNum y => jsnum_eqb x y
  | JStr x, JStr y => String.eqb x y
  | _, _ => false
  end.

(** A Set, in insertion order: [add] and [has]. *)
Definition set_has (v : jvalue) (s : list jvalue) : bool :=
  existsb (same_value_zero v) s.

Definition set_add (v : jvalue) (s : list jvalue) : list jvalue :=
  if set_has v s then s else (s ++ [v])%list.

Definition set_add_all (vs : list jvalue) (s : list jvalue) : list jvalue :=
  fold_left (fun acc v => set_add v acc) vs s.

End Js.

(* ===================================================================== *)
(** ** Paths (Node's posix [path] module) *)
(* ===================================================================== *)

Module Path.

Definition slash : ascii := "/"%char.
Definition is_slash (c : ascii) : bool := ascii_eqb c slash.

Fixpoint drop_while {A} (f : A -> bool) (l : list A) : list A :=
  match l with
  | x :: l' => if f x then drop_while f l' else l
  | [] => []
  end.

(** Segments between separators. *)
Fixpoint split (l : list ascii) (seg : list ascii) : list (list ascii) :=
  match l with
  | [] => [rev seg]
  | c :: l' => if is_slash c then rev seg :: split l' [] else split l' (c :: seg)
  end.

Definition dots : list ascii := chars "..".

Definition is_dotdot (seg : list ascii) : bool := String.eqb (implode seg) "..".
Definition is_dot (seg : list ascii) : bool := String.eqb (implode seg) ".".

(** normalizeString: drop empty and [.] segments, resolve [..]. The
    stack holds the segments kept so far, last one first. *)
Fixpoint normalize_segments (allow_above_root : bool)
         (segs : list (list ascii)) (stack : list (list ascii))
  : list (list ascii) :=
  match segs with
  | [] => rev stack
  | seg :: rest =>
      if is_dotdot seg then
        match stack with
        | top :: below =>
            if is_dotdot top
            then normalize_segments allow_above_root rest
                   (if allow_above_root then seg :: stack else stack)
            else normalize_segments allow_above_root rest below
        | [] =>
            normalize_segments allow_above_root rest
              (if allow_above_root then [seg] else [])
        end
      else if is_dot seg || (match seg with [] => true | _ => false end)
      then normalize_segments allow_above_root rest stack
      else normalize_segments allow_above_root rest (seg :: stack)
  end.

Fixpoint join_segments (segs : list (list ascii)) : list ascii :=
  match segs with
  | [] => []
  | [s] => s
  | s :: rest => (s ++ slash :: join_segments rest)%list
  end.

Definition normalize (p : string) : string :=
  match chars p with
  | [] => "."
  | (c0 :: _) as l =>
      let absolute := is_slash c0 in
      let trailing := match rev l with c :: _ => is_slash c | [] => false end in
      let body := join_segments
                    (normalize_segments (negb absolute) (split l []) []) in
      match body with
      | [] => if absolute then "/" else if trailing then "./" else "."
      | _ =>
          let body' := if trailing then (body ++ [slash])%list else body in
          implode (if absolute then slash :: body' else body')
      end
  end.

(** path.join(a, b, ...) *)
Definition join (parts : list string) : string :=
  match filter (fun s => negb (String.eqb s "")) parts with
  | [] => "."
  | nonempty => normalize (Js.join "/" nonempty)
  end.

(** path.dirname(p) *)
Definition dirname (p : string) : string :=
  match chars p with
  | [] => "."
  | c0 :: rest =>
      let has_root := is_slash c0 in
      let r1 := drop_while is_slash (rev rest) in
      let r2 := drop_while (fun c => negb (is_slash c)) r1 in
      match r2 with
      | [] => if has_root then "/" else "."
      | _ :: r3 =>
          match r3 with
          | [] => if has_root then "//" else implode [c0]
          | _ => implode (c0 :: rev r3)
          end
      end
  end.

Fixpoint take_while {A} (f : A -> bool) (l : list A) : list A :=
  match l with
  | x :: l' => if f x then x :: take_while f l' else []
  | [] => []
  end.

(** path.basename(p) *)
Definition basename (p : string) : string :=
  let r1 := drop_while is_slash (rev (chars p)) in
  implode (rev (take_while (fun c => negb (is_slash c)) r1)).

End Path.

(* ===================================================================== *)
(** ** The file system (Node's [fs] module) *)
(* ===================================================================== *)

(** The file system is a finite map from path names to what [lstat] finds
    there. Path names are taken as spelled, up to separators at their end:
    two different names denote two different entries, and the text of a
    symbolic link is the path name of its destination (the pipeline links
    absolute paths only). *)
Module Fs.

Inductive node : Type :=
| File (content : list byte)
| Dir
| Link (target : string).

(** The name under which an entry is stored: separators at the end of a
    path do not count. *)
Definition key (p : string) : string :=
  match Path.drop_while Path.is_slash (rev (chars p)) with
  | [] => if String.eqb p "" then "" else "/"
  | r => implode (rev r)
  end.

Definition lstat (m : gmap string node) (p : string) : option node :=
  m !! key p.

(** Number of symbolic links followed before ELOOP. *)
Definition symlink_limit : nat := 40.

(** The entry reached from [p] by following symbolic links. *)
Fixpoint follow (fuel : nat) (m : gmap string node) (p : string)
  : option string :=
  match lstat m p with
  | None => None
  | Some (Link q) =>
      match fuel with
      | O => None
      | S fuel' => follow fuel' m q
      end
  | Some _ => Some (key p)
  end.

Definition realpath (m : gmap string node) (p : string) : option string :=
  follow symlink_limit m p.

(** stat: what is at [p] after following links. *)
Definition stat (m : gmap string node) (p : string) : option node :=
  match realpath m p with
  | Some q => m !! q
  | None => None
  end.

(** fs.existsSync: true when [stat] succeeds, false on any error. *)
Definition existsSync (m : gmap string node) (p : string) : bool :=
  match realpath m p with
  | Some _ => true
  | None => false
  end.



(** fs.promises.unlink: removes the entry itself, never its destination. *)
Definition unlink (m : gmap string node) (p : string)
  : result (gmap string node) :=
  match lstat m p with
  | None => Throw ("ENOENT: no such file or directory, unlink '" ++ p ++ "'")
  | Some Dir =>
      Throw ("EISDIR: illegal operation on a directory, unlink '" ++ p ++ "'")
  | Some _ => Ok (delete (key p) m)
  end.

(** fs.promises.symlink(target, path): the parent directory must exist
    and nothing, not even a dangling link, may be at [path]. *)
Definition symlink (m : gmap string node) (target path : string)
  : result (gmap string node) :=
  let call := "symlink '" ++ target ++ "' -> '" ++ path ++ "'" in
  match stat m (Path.dirname path) with
  | None => Throw ("ENOENT: no such file or directory, " ++ call)
  | Some (File _) => Throw ("ENOTDIR: not a directory, " ++ call)
  | Some (Link _) => Throw ("ELOOP: too many symbolic links encountered, " ++ call)
  | Some Dir =>
      match lstat m path with
      | Some _ => Throw ("EEXIST: file already exists, " ++ call)
      | None => Ok (<[key path := Link target]> m)
      end
  end.

(** fs.mkdirSync(p, { recursive: true }): directories are made from the
    nearest existing ancestor down. It throws EEXIST when [p] is a file,
    ENOTDIR when an ancestor is one, ENOENT at a dangling link. [top]
    tells [p] itself from its ancestors; [orig] is the path in the message. *)
Fixpoint mkdir_rec (fuel : nat) (top : bool) (orig : string)
         (m : gmap string node) (p : string) : result (gmap string node) :=
  match stat m p with
  | Some Dir => Ok m
  | Some _ =>
      if top then Throw ("EEXIST: file already exists, mkdir '" ++ orig ++ "'")
      else Throw ("ENOTDIR: not a directory, mkdir '" ++ orig ++ "'")
  | None =>
      match lstat m p with
      | Some _ =>
          Throw ("ENOENT: no such file or directory, mkdir '" ++ orig ++ "'")
      | None =>
          match fuel with
          | O => Throw ("ENOENT: no such file or directory, mkdir '" ++ orig ++ "'")
          | S fuel' =>
              let? m' := mkdir_rec fuel' false orig m (Path.dirname p) in
              Ok (<[key p := Dir]> m')
          end
      end
  end.

Definition mkdirSync (m : gmap string node) (p : string)
  : result (gmap string node) :=
  mkdir_rec (String.length p) true p m p.

(** Reading [n] bytes at offset 0 into a zero-filled buffer of size [n]. *)
Definition zero_fill (n : nat) (l : list byte) : list byte :=
  (take n l ++ replicate (n - length l) x00)%list.

Definition read_head (m : gmap string node) (p : string) (n : nat)
  : result (list byte) :=
  match stat m p with
  | Some (File content) => Ok (zero_fill n content)
  | Some Dir => Throw "EISDIR: illegal operation on a directory, read"
  | _ => Throw ("ENOENT: no such file or directory, open '" ++ p ++ "'")
  end.

Definition readFile (m : gmap string node) (p : string)
  : result (list byte) :=
  match stat m p with
  | Some (File content) => Ok content
  | Some Dir => Throw "EISDIR: illegal operation on a directory, read"
  | _ => Throw ("ENOENT: no such file or directory, open '" ++ p ++ "'")
  end.

(** The entry a write through [p] lands on: the end of the chain of
    links, whether or not something is there yet. *)
Fixpoint write_target (fuel : nat) (m : gmap string node) (p : string)
  : option string :=
  match lstat m p with
  | Some (Link q) =>
      match fuel with
      | O => None
      | S fuel' => write_target fuel' m q
      end
  | _ => Some (key p)
  end.

Definition writeFile (m : gmap string node) (p : string)
           (content : list byte) : result (gmap string node) :=
  match write_target symlink_limit m p with
  | None => Throw ("ELOOP: too many symbolic links encountered, open '" ++ p ++ "'")
  | Some q =>
      match m !! q with
      | Some Dir => Throw ("EISDIR: illegal operation on a directory, open '" ++ p ++ "'")
      | Some _ => Ok (<[q := File content]> m)
      | None =>
          match stat m (Path.dirname q) with
          | Some Dir => Ok (<[q := File content]> m)
          | _ => Throw ("ENOENT: no such file or directory, open '" ++ p ++ "'")
          end
      end
  end.

End Fs.

(* ===================================================================== *)
(** ** utils.js: StatsCollector *)
(* ===================================================================== *)

Module StatsCollector.

Record t : Type := Build {
  stats : gmap string Z;
  startTime : Z
}.

(** constructor(): no counters; [now] is Date.now(). *)
Definition new (now : Z) : t := Build ∅ now.

(** get(key): [this.stats[key] || 0] *)
Definition get (key : string) (c : t) : Z := default 0 (stats c !! key).

(** increment(key, amount = 1) *)
Definition increment (key : string) (amount : Z) (c : t) : t :=
  Build (<[key := default 0 (stats c !! key) + amount]> (stats c))
        (startTime c).

(** set(key, value) *)
Definition set (key : string) (value : Z) (c : t) : t :=
  Build (<[key := value]> (stats c)) (startTime c).

(** A field of the object returned by summary(): a counter, the elapsed
    time (kept in milliseconds, its rendering as text left out) or the
    time of generation. *)
Inductive field : Type :=
| Counter (value : Z)
| ProcessingTime (elapsed_ms : Z)
| GeneratedAt (now : Z).


(** The operations of the class, for traces of calls. *)
Inductive op : Type :=
| OpIncrement (key : string) (amount : Z)
| OpSet (key : string) (value : Z)
| OpGet (key : string)
| OpSummary (now : Z).

Definition apply (c : t) (o : op) : t :=
  match o with
  | OpIncrement key amount => increment key amount c
  | OpSet key value => set key value c
  | OpGet _ => c
  | OpSummary _ => c
  end.




End StatsCollector.

(* ===================================================================== *)
(** ** The world threaded through the pipeline *)
(* ===================================================================== *)

(** Levels of [logger]; the colour and the prefix of a line follow from
    its level. *)
Inductive level : Type :=
| Info | Success | Warning | Error | Debug | Progress.

Record world : Type := World {
  fs : gmap string Fs.node;           (* the disk *)
  out : list (level * string);        (* the console, oldest line first *)
  collector : StatsCollector.t        (* the [stats] object passed around *)
}.

(** Computations that read and write the world and may throw. What was
    done before a throw stays done. *)
Definition M (A : Type) : Type := world -> result A * world.

Definition ret {A} (a : A) : M A := fun w => (Ok a, w).

Definition bind {A B} (c : M A) (k : A -> M B) : M B :=
  fun w =>
    match c w with
    | (Ok a, w') => k a w'
    | (Throw e, w') => (Throw e, w')
    end.

(** try { c } catch (error) { h error.message } *)
Definition try_catch {A} (c : M A) (h : string -> M A) : M A :=
  fun w =>
    match c w with
    | (Ok a, w') => (Ok a, w')
    | (Throw e, w') => h e w'
    end.

Declare Scope world_scope.
Delimit Scope world_scope with world.
Notation "x <~ c ;; k" := (bind c (fun x => k))
  (at level 100, c at next level, right associativity) : world_scope.
Notation "c ;;; k" := (bind c (fun _ => k))
  (at level 100, right associativity) : world_scope.
Local Open Scope world_scope.

(** A file-system call: its effect on the disk, or its error. *)
Definition fs_call (f : gmap string Fs.node -> result (gmap string Fs.node))
  : M unit :=
  fun w =>
    match f (fs w) with
    | Ok m => (Ok tt, World m (out w) (collector w))
    | Throw e => (Throw e, w)
    end.

Definition fs_read {A} (f : gmap string Fs.node -> result A) : M A :=
  fun w => (f (fs w), w).

(** The world after one more line on the console. *)
Definition say (l : level) (message : string) (w : world) : world :=
  World (fs w) (out w ++ [(l, message)]) (collector w).

(** The world after [stats.increment(key)]. *)
Definition bump (key : string) (w : world) : world :=
  World (fs w) (out w) (StatsCollector.increment key 1 (collector w)).

Definition log (l : level) (message : string) : M unit :=
  fun w => (Ok tt, say l message w).

Definition stats_increment (key : string) : M unit :=
  fun w => (Ok tt, bump key w).

Definition stats_get (key : string) : M Z :=
  fun w => (Ok (StatsCollector.get key (collector w)), w).

(** What the pipeline takes from its surroundings: where the project
    lives, and the pickle parser and JSON printer it calls. *)
Record Env : Type := {
  projectRoot : string;
  parse_pickle : list byte -> result Js.jvalue;
  json_stringify : Js.jvalue -> list byte
}.

(* ===================================================================== *)
(** ** utils.js: files and pickle *)
(* ===================================================================== *)

(** buffer.toString('ascii'): the high bit of every byte is cleared. *)
Definition ascii_decode (l : list byte) : string :=
  implode (map (fun b => ascii_of_N (N.land (Byte.to_N b) 127)) l).

Module files.

Definition exists_ (filePath : string) : M bool :=
  fs_read (fun m => Ok (Fs.existsSync m filePath)).

Definition sqliteHeader : string := "SQLite format 3" ++ String zero "".

(** The 16 bytes of the signature. *)
Definition signature : list byte := map byte_of_ascii (chars sqliteHeader).

(** What the probe answers on disk [m]: the comparison when the read
    succeeds, false when it throws. *)
Definition probe (m : gmap string Fs.node) (filePath : string) : bool :=
  match Fs.read_head m filePath 16 with
  | Ok buffer => String.eqb (ascii_decode buffer) sqliteHeader
  | Throw _ => false
  end.

Definition isValidSQLite (filePath : string) : M bool :=
  try_catch
    (buffer <~ fs_read (fun m => Fs.read_head m filePath 16) ;;
     ret (String.eqb (ascii_decode buffer) sqliteHeader))
    (fun _ => ret false).

(** The line logged when createSymlink fails. *)
Definition failure (targetPath message : string) : string :=
  "Symlink failed: " ++ Path.basename targetPath ++ " - " ++ message.

Definition createSymlink (sourcePath targetPath : string) : M bool :=
  try_catch
    (present <~ exists_ targetPath ;;
     (if present then fs_call (fun m => Fs.unlink m targetPath)
      else ret tt) ;;;
     fs_call (fun m => Fs.symlink m sourcePath targetPath) ;;;
     ret true)
    (fun message => log Error (failure targetPath message) ;;; ret false).

End files.

Module pickle.
Section WithEnv.
Context (env : Env).

(** The localization format [version, strings] is unwrapped. *)
Definition unwrap (data : Js.jvalue) : Js.jvalue :=
  match data with
  | Js.JArr (_ :: second :: _) =>
      match second with
      | Js.JArr _ | Js.JObj _ => second
      | _ => data
      end
  | _ => data
  end.

Definition convertToJson (pickleFilePath jsonFilePath : string) : M bool :=
  try_catch
    (pickleData <~ fs_read (fun m => Fs.readFile m pickleFilePath) ;;
     data <~ (fun w => (parse_pickle env pickleData, w)) ;;
     fs_call (fun m => Fs.writeFile m jsonFilePath
                         (json_stringify env (unwrap data))) ;;;
     log Debug ("✓ Converted " ++ pickleFilePath ++ " to JSON") ;;;
     ret true)
    (fun message =>
       log Error ("Error converting " ++ pickleFilePath ++ " to JSON: "
                    ++ message) ;;;
       ret false).
End WithEnv.
End pickle.

(* ===================================================================== *)
(** ** processors/file-indexing.js *)
(* ===================================================================== *)

Module FileIndexing.
Import Regex.

(** The pattern of processIndexFile, group by group:
    ^  ( .*? )  ( [^/]+ )  \.  ( [^,]+ )  ,  ( [^,]+ )  ( .* )  $ *)
Definition regex : list item :=
  [ IOpen; IStar false CAny; IClose;
    IOpen; IPlus (CNot "/"); IClose;
    IChr ".";
    IOpen; IPlus (CNot ","); IClose;
    IChr ",";
    IOpen; IPlus (CNot ","); IClose;
    IOpen; IStar true CAny; IClose;
    IEnd ].




(** One decoded line of the manifest. *)
Record IndexEntry : Type := {
  respath : string;
  filename : string;
  filetype : string;
  sourceRelativePath : string
}.

(** [line.match(regex)] and the destructuring of its groups. *)
Definition parseLine (line : string) : option IndexEntry :=
  match match_anchored regex line with
  | Some [g1; g2; g3; g4; _] => Some (Build_IndexEntry g1 g2 g3 g4)
  | _ => None
  end.

(** The manifest line made of a logical path, the stem and the type of the
    file name, a physical path and what trails it. *)
Definition line_of (logicalPath stem fileType physicalPath trailing : string)
  : string :=
  logicalPath ++ stem ++ "." ++ fileType ++ "," ++ physicalPath ++ trailing.

Definition without (c : ascii) (s : string) : Prop := c ∉ chars s.

(** Text that readline can give as one line. *)
Definition one_line (s : string) : Prop :=
  Forall (fun c => is_line_terminator c = false) (chars s).

(** The parts of a well-formed line: the logical path is empty or ends
    with the separator, the stem is a run of non-separator characters, the
    type has no dot, comma or separator, the physical path has no comma,
    and what trails it is empty or starts a new comma-separated field. *)
Definition well_formed (logicalPath stem fileType physicalPath trailing : string)
  : Prop :=
  (logicalPath = "" \/ exists d, logicalPath = d ++ "/")
  /\ one_line logicalPath
  /\ stem <> "" /\ without "/" stem
  /\ fileType <> "" /\ without "," fileType /\ without "." fileType
  /\ without "/" fileType
  /\ physicalPath <> "" /\ without "," physicalPath
  /\ (trailing = "" \/ exists t, trailing = "," ++ t)
  /\ one_line trailing.


Fixpoint strip_prefix (pat s : list ascii) : option (list ascii) :=
  match pat, s with
  | [], _ => Some s
  | p :: pat', c :: s' => if ascii_eqb p c then strip_prefix pat' s' else None
  | _ :: _, [] => None
  end.

(** [s.replace(pat, by)] for a string pattern: the first occurrence. *)
Fixpoint replace_first (pat by_ s : list ascii) : list ascii :=
  match strip_prefix pat s with
  | Some rest => (by_ ++ rest)%list
  | None =>
      match s with
      | [] => []
      | c :: s' => c :: replace_first pat by_ s'
      end
  end.

Definition strip_res (respath : string) : string :=
  implode (replace_first (chars "res:") [] (chars respath)).

(** [respath.replace(/[:\\]/g, '_').replace(/^_+/, '')] *)
Definition cleanPath (respath : string) : string :=
  let underscored :=
    map (fun c => if ascii_eqb c ":"%char || ascii_eqb c "\"%char
                  then "_"%char else c) (chars respath) in
  implode (Path.drop_while (fun c => ascii_eqb c "_"%char) underscored).

Section WithEnv.
Context (env : Env).

Definition processPickleFile (filename sourcePath : string) : M unit :=
  let symlinkPath :=
    Path.join [projectRoot env; "data/pickle"; filename ++ ".pickle"] in
  let jsonPath :=
    Path.join [projectRoot env; "data/json"; filename ++ ".json"] in
  symlinkSuccess <~ files.createSymlink sourcePath symlinkPath ;;
  if negb symlinkSuccess then ret tt else
  try_catch
    (conversionSuccess <~ pickle.convertToJson env symlinkPath jsonPath ;;
     if conversionSuccess then
       stats_increment "pickleConverted" ;;;
       log Debug ("✓ Converted " ++ filename ++ ".pickle to JSON")
     else stats_increment "pickleErrors")
    (fun message =>
       log Error ("Pickle conversion failed: " ++ filename ++ " - "
                    ++ message) ;;;
       stats_increment "pickleErrors").

Definition sqlitePathOf (filename : string) : string :=
  Path.join [projectRoot env; "data/sqlite"; filename ++ ".sqlite"].

Definition staticPathOf (filename : string) : string :=
  Path.join [projectRoot env; "data/static"; filename ++ ".static"].

Definition processStaticFile (filename sourcePath : string) : M unit :=
  let symlinkPath := staticPathOf filename in
  symlinkSuccess <~ files.createSymlink sourcePath symlinkPath ;;
  if negb symlinkSuccess then ret tt else
  isValid <~ files.isValidSQLite sourcePath ;;
  (if isValid then
     let sqlitePath := sqlitePathOf filename in
     sqliteSuccess <~ files.createSymlink sourcePath sqlitePath ;;
     if sqliteSuccess then
       log Debug ("📊 SQLite: " ++ filename ++ ".sqlite") ;;;
       stats_increment "sqliteLinked"
     else ret tt
   else ret tt) ;;;
  stats_increment "staticLinked".

Definition processFSDBinaryFile (filename sourcePath : string) : M unit :=
  let symlinkPath :=
    Path.join [projectRoot env; "data/fsdbinary"; filename ++ ".fsdbinary"] in
  symlinkSuccess <~ files.createSymlink sourcePath symlinkPath ;;
  if symlinkSuccess then
    stats_increment "fsdbinaryLinked" ;;;
    log Debug ("📦 FSDBinary: " ++ filename ++ ".fsdbinary")
  else ret tt.

Definition processSchemaFile (filename sourcePath : string) : M unit :=
  let symlinkPath :=
    Path.join [projectRoot env; "data/raw"; "schema"; filename ++ ".schema"] in
  let schemaDir := Path.dirname symlinkPath in
  present <~ files.exists_ schemaDir ;;
  (if negb present then fs_call (fun m => Fs.mkdirSync m schemaDir)
   else ret tt) ;;;
  symlinkSuccess <~ files.createSymlink sourcePath symlinkPath ;;
  if symlinkSuccess then stats_increment "schemaLinked" else ret tt.

Definition processOtherFile (filename filetype sourcePath respath : string)
  : M unit :=
  let rawDir := Path.join [projectRoot env; "data/raw"; cleanPath respath] in
  present <~ files.exists_ rawDir ;;
  (if negb present then fs_call (fun m => Fs.mkdirSync m rawDir)
   else ret tt) ;;;
  let symlinkPath := Path.join [rawDir; filename ++ "." ++ filetype] in
  symlinkSuccess <~ files.createSymlink sourcePath symlinkPath ;;
  if symlinkSuccess then stats_increment "otherLinked" else ret tt.

(** The [switch (filetype)] of processIndexFile. *)
Definition dispatch (e : IndexEntry) (sourceFilePath : string) : M unit :=
  if String.eqb (filetype e) "pickle" then
    processPickleFile (filename e) sourceFilePath
  else if String.eqb (filetype e) "static" then
    processStaticFile (filename e) sourceFilePath
  else if String.eqb (filetype e) "fsdbinary" then
    processFSDBinaryFile (filename e) sourceFilePath
  else if String.eqb (filetype e) "schema" then
    processSchemaFile (filename e) sourceFilePath
  else
    processOtherFile (filename e) (filetype e) sourceFilePath
      (strip_res (respath e)).

(** The world after a parsed line has been counted: totalProcessed is
    incremented and every thousandth line is announced. *)
Definition counted (w : world) : world :=
  let w1 := bump "totalProcessed" w in
  let total := StatsCollector.get "totalProcessed" (collector w1) in
  if Z.rem total 1000 =? 0
  then say Progress ("Processed " ++ Js.Z_to_string total ++ " files...") w1
  else w1.

(** The line logged when a handler throws. *)
Definition handlerWarning (e : IndexEntry) (message : string) : string :=
  "Error processing " ++ filename e ++ "." ++ filetype e ++ ": " ++ message.

(** The body of the [for await (const line of rl)] loop; the value
    carried along is [processedInThisFile]. *)
Definition processLine (resFilesPath : string)
           (processedInThisFile : Z) (line : string) : M Z :=
  match parseLine line with
  | None => ret processedInThisFile
  | Some e =>
      let sourceFilePath := Path.join [resFilesPath; sourceRelativePath e] in
      stats_increment "totalProcessed" ;;;
      total <~ stats_get "totalProcessed" ;;
      (if Z.rem total 1000 =? 0
       then log Progress ("Processed " ++ Js.Z_to_string total ++ " files...")
       else ret tt) ;;;
      present <~ files.exists_ sourceFilePath ;;
      if negb present then ret (processedInThisFile + 1) else
      try_catch
        (dispatch e sourceFilePath)
        (fun message => log Warning (handlerWarning e message)) ;;;
      ret (processedInThisFile + 1)
  end.

Fixpoint scan (resFilesPath : string) (lines : list string)
         (processedInThisFile : Z) : M Z :=
  match lines with
  | [] => ret processedInThisFile
  | line :: rest =>
      n <~ processLine resFilesPath processedInThisFile line ;;
      scan resFilesPath rest n
  end.

(** The lines readline yields: ends of line are LF, CR LF and CR; a
    last line without an end of line is a line too. *)
Fixpoint split_lines (l : list ascii) (current : list ascii)
  : list string :=
  match l with
  | [] => match current with [] => [] | _ => [implode (rev current)] end
  | c :: l' =>
      if ascii_eqb c "010"%char then implode (rev current) :: split_lines l' []
      else if ascii_eqb c "013"%char then
        match l' with
        | d :: l'' =>
            if ascii_eqb d "010"%char
            then implode (rev current) :: split_lines l'' []
            else implode (rev current) :: split_lines l' []
        | [] => [implode (rev current)]
        end
      else split_lines l' (c :: current)
  end.

Definition read_lines (indexPath : string) : M (list string) :=
  content <~ fs_read (fun m => Fs.readFile m indexPath) ;;
  ret (split_lines (map ascii_of_byte content) []).

Definition processIndexFile (indexPath resFilesPath indexName : string)
  : M Z :=
  log Info ("📖 Processing " ++ indexName ++ "...") ;;;
  lines <~ read_lines indexPath ;;
  processedInThisFile <~ scan resFilesPath lines 0 ;;
  log Success (indexName ++ ": processed "
                 ++ Js.Z_to_string processedInThisFile ++ " entries") ;;;
  ret processedInThisFile.

End WithEnv.
End FileIndexing.

(* ===================================================================== *)
(** ** processors/type-names.js *)
(* ===================================================================== *)

(** An object built by the code and used as a dictionary is a finite map
    from property keys to values; [obj[k]] with a number or a JSON value
    as [k] goes through ToString. Only own properties are looked at. *)

Module TypeNames.
Import Js.

(** An element of a [typesByGroup] list. *)
Record GroupEntry : Type := {
  typeID : jsnum;
  name : jvalue;
  basePrice : jvalue;
  volume : jvalue;
  published : jvalue
}.

Record state : Type := State {
  typeNames : gmap string jvalue;
  typesByGroup : gmap string (list GroupEntry);
  publishedTypes : gmap string jvalue;
  stats : StatsCollector.t
}.

Definition initial (now : Z) : state :=
  State ∅ ∅ ∅ (StatsCollector.new now).

(** [name && name !== ''] *)
Definition has_name (name : jvalue) : bool :=
  truthy name && negb (is_str name "").

(** The body of [for (const [typeId, typeData] of Object.entries(types))]. *)
Definition step (st : state) (entry : string * jvalue) : result state :=
  let '(typeId, typeData) := entry in
  let id := parseInt typeId in
  let? name := get typeData "typeNameID" in
  let? groupId := get typeData "groupID" in
  let? published := get typeData "published" in
  let stats1 := StatsCollector.increment "totalTypes" 1 (stats st) in
  let '(typeNames1, stats2) :=
    if has_name name
    then (<[num_to_string id := name]> (typeNames st),
          StatsCollector.increment "namedTypes" 1 stats1)
    else (typeNames st, stats1) in
  let group := default [] (typesByGroup st !! to_string groupId) in
  let? basePrice := get typeData "basePrice" in
  let? volume := get typeData "volume" in
  let item :=
    {| typeID := id;
       name := or_else name (JStr ("Type " ++ num_to_string id));
       basePrice := or_else basePrice (JNum (Num 0));
       volume := or_else volume (JNum (Num 0));
       published := published |} in
  let typesByGroup1 :=
    <[to_string groupId := (group ++ [item])%list]> (typesByGroup st) in
  let '(publishedTypes1, stats3) :=
    if is_num published 1 && has_name name
    then (<[num_to_string id := name]> (publishedTypes st),
          StatsCollector.increment "publishedTypes" 1 stats2)
    else (publishedTypes st, stats2) in
  Ok (State typeNames1 typesByGroup1 publishedTypes1 stats3).

(** A record that qualifies for the published-only table under [key]:
    [published === 1] and a name that is present and not empty. *)
Definition publishes (e : string * jvalue) (key : string) : Prop :=
  exists name published,
    get (snd e) "typeNameID" = Ok name
    /\ get (snd e) "published" = Ok published
    /\ is_num published 1 = true
    /\ has_name name = true
    /\ num_to_string (parseInt (fst e)) = key.

(** The record [e] sits in the group its [groupID] names. *)
Definition grouped (groups : gmap string (list GroupEntry))
           (e : string * jvalue) : Prop :=
  exists groupId nm group item,
    get (snd e) "groupID" = Ok groupId
    /\ get (snd e) "typeNameID" = Ok nm
    /\ groups !! to_string groupId = Some group
    /\ item ∈ group
    /\ typeID item = parseInt (fst e)
    /\ name item
       = or_else nm (JStr ("Type " ++ num_to_string (parseInt (fst e)))).

(** What holds of the tables once the records [done] have been seen. *)
Definition loop_invariant (done : list (string * jvalue)) (st : state) : Prop :=
  (forall key, is_Some (publishedTypes st !! key)
               <-> exists e, e ∈ done /\ publishes e key)
  /\ (forall e, e ∈ done -> grouped (typesByGroup st) e).

(** runTypeNameExtraction from the loaded [types] document to the three
    dictionaries it saves; [now] is the time the collector is made. *)
Definition runTypeNameExtraction (types : jvalue) (now : Z) : result state :=
  let? es := entries types in
  let? st := rfold step es (initial now) in
  Ok (State (typeNames st) (typesByGroup st) (publishedTypes st)
        (StatsCollector.set "totalGroups"
           (Z.of_nat (size (typesByGroup st))) (stats st))).

End TypeNames.

(* ===================================================================== *)
(** ** processors/blueprints.js *)
(* ===================================================================== *)

Module Blueprints.
Import Js.

Record Item : Type := {
  typeID : jvalue;
  name : jvalue;
  quantity : jvalue
}.

Record Bom : Type := {
  blueprintName : jvalue;
  materials : list Item;
  products : list Item
}.

Record Usage : Type := {
  blueprintID : jsnum;
  usageBlueprintName : jvalue;       (* blueprintName *)
  quantityRequired : jvalue
}.

Record MaterialUses : Type := {
  materialName : jvalue;
  usedInBlueprints : list Usage
}.

Record state : Type := State {
  materialToBlueprints : gmap string MaterialUses;
  blueprintToMaterials : gmap string Bom;
  allMaterialIds : list jvalue;
  allBlueprintIds : list jsnum;
  stats : StatsCollector.t
}.

Definition initial (now : Z) : state :=
  State ∅ ∅ [] [] (StatsCollector.new now).

Definition num_set_add (n : jsnum) (s : list jsnum) : list jsnum :=
  if existsb (jsnum_eqb n) s then s else (s ++ [n])%list.

(** [typeNames[key] || fallback] *)
Definition name_or (typeNames : jvalue) (key fallback : string)
  : result jvalue :=
  let? n := get typeNames key in
  Ok (or_else n (JStr fallback)).

(** The arrow function given to [materials.map] and [products.map]. *)
Definition resolve (typeNames : jvalue) (mat : jvalue) : result Item :=
  let? typeID := get mat "typeID" in
  let? name := name_or typeNames (to_string typeID)
                 ("Type " ++ to_string typeID) in
  let? quantity := get mat "quantity" in
  Ok {| typeID := typeID; name := name; quantity := quantity |}.

(** The body of [for (const material of materials)]. *)
Definition addUsage (typeNames : jvalue) (blueprintId : string)
           (m2b : gmap string MaterialUses * list jvalue) (material : jvalue)
  : result (gmap string MaterialUses * list jvalue) :=
  let '(uses, ids) := m2b in
  let? materialId := get material "typeID" in
  let ids1 := set_add materialId ids in
  let key := to_string materialId in
  let? entry :=
    match uses !! key with
    | Some e => Ok e
    | None =>
        let? n := name_or typeNames key ("Type " ++ key) in
        Ok {| materialName := n; usedInBlueprints := [] |}
    end in
  let? bpName := name_or typeNames blueprintId ("Blueprint " ++ blueprintId) in
  let? quantity := get material "quantity" in
  let usage := {| blueprintID := parseInt blueprintId;
                  usageBlueprintName := bpName;
                  quantityRequired := quantity |} in
  Ok (<[key := {| materialName := materialName entry;
                  usedInBlueprints :=
                    (usedInBlueprints entry ++ [usage])%list |}]> uses,
      ids1).

(** [blueprint.activities && blueprint.activities.manufacturing] *)
Definition manufacturingOf (blueprint : jvalue) : result jvalue :=
  let? activities := get blueprint "activities" in
  if truthy activities then get activities "manufacturing"
  else Ok activities.

(** The body of
    [for (const [blueprintId, blueprint] of Object.entries(blueprints))]. *)
Definition step (typeNames : jvalue) (st : state) (entry : string * jvalue)
  : result state :=
  let '(blueprintId, blueprint) := entry in
  let ids := num_set_add (parseInt blueprintId) (allBlueprintIds st) in
  let stats1 := StatsCollector.increment "totalBlueprints" 1 (stats st) in
  let? manufacturing := manufacturingOf blueprint in
  if truthy manufacturing then
    let stats2 := StatsCollector.increment "manufacturingBlueprints" 1 stats1 in
    let? mats := get manufacturing "materials" in
    let? prods := get manufacturing "products" in
    let materials := or_else mats (JArr []) in
    let products := or_else prods (JArr []) in
    let? bpName := name_or typeNames blueprintId ("Blueprint " ++ blueprintId) in
    let? matItems := as_array "materials.map" materials in
    let? resolvedMats := rmap (resolve typeNames) matItems in
    let? prodItems := as_array "products.map" products in
    let? resolvedProds := rmap (resolve typeNames) prodItems in
    let b2m := <[blueprintId := {| blueprintName := bpName;
                                   materials := resolvedMats;
                                   products := resolvedProds |}]>
                 (blueprintToMaterials st) in
    let? reverse :=
      rfold (addUsage typeNames blueprintId) matItems
            (materialToBlueprints st, allMaterialIds st) in
    Ok (State (fst reverse) b2m (snd reverse) ids stats2)
  else
    Ok (State (materialToBlueprints st) (blueprintToMaterials st)
          (allMaterialIds st) ids stats1).

(** [name] is what [typeNames[key] || `${kind} ${key}`] gives: the entry
    of the type-name table when it is truthy, the fallback otherwise. *)
Definition named (typeNames : jvalue) (kind key : string) (name : jvalue)
  : Prop :=
  exists n, get typeNames key = Ok n
            /\ name = (if truthy n then n else JStr (kind ++ " " ++ key)).

(** [item] is the material or product [mat] with its name resolved. *)
Definition resolved (typeNames mat : jvalue) (item : Item) : Prop :=
  get mat "typeID" = Ok (typeID item)
  /\ get mat "quantity" = Ok (quantity item)
  /\ named typeNames "Type" (to_string (typeID item)) (name item).

(** [v || []] is the array of [items]. *)
Definition listOf (v : jvalue) (items : list jvalue) : Prop :=
  or_else v (JArr []) = JArr items.

(** [bom] is the forward-map entry of a blueprint whose manufacturing
    activity is [manufacturing]. *)
Definition bom_of (typeNames : jvalue) (blueprintId : string)
           (manufacturing : jvalue) (bom : Bom) : Prop :=
  named typeNames "Blueprint" blueprintId (blueprintName bom)
  /\ exists mats prods matItems prodItems,
      get manufacturing "materials" = Ok mats
      /\ get manufacturing "products" = Ok prods
      /\ listOf mats matItems
      /\ listOf prods prodItems
      /\ Forall2 (resolved typeNames) matItems (materials bom)
      /\ Forall2 (resolved typeNames) prodItems (products bom).

(** The blueprint of entry [e] has the manufacturing activity [m]. *)
Definition manufactures (e : string * jvalue) (m : jvalue) : Prop :=
  manufacturingOf (snd e) = Ok m /\ truthy m = true.


(** A blueprint record the loop can handle without throwing: an object
    whose manufacturing activity, if any, lists materials and products as
    arrays (or not at all) of objects. *)
Definition objects (v : jvalue) : Prop :=
  exists items, listOf v items /\ Forall (fun x => nullish x = false) items.

Definition well_formed (blueprint : jvalue) : Prop :=
  nullish blueprint = false
  /\ forall m, manufacturingOf blueprint = Ok m -> truthy m = true ->
               forall mats prods,
                 get m "materials" = Ok mats -> get m "products" = Ok prods ->
                 objects mats /\ objects prods.

(** What holds of the maps once the blueprints [done] have been seen. *)
Definition loop_invariant (typeNames : jvalue)
           (done : list (string * jvalue)) (st : state) : Prop :=
  StatsCollector.get "totalBlueprints" (stats st) = Z.of_nat (length done)
  /\ (forall k, is_Some (blueprintToMaterials st !! k) ->
                exists e m, e ∈ done /\ fst e = k /\ manufactures e m)
  /\ (forall e m, e ∈ done -> manufactures e m ->
                  exists bom, blueprintToMaterials st !! fst e = Some bom
                              /\ bom_of typeNames (fst e) m bom)
  /\ (forall key uses u,
        materialToBlueprints st !! key = Some uses ->
        u ∈ usedInBlueprints uses ->
        exists e m, e ∈ done /\ manufactures e m
                    /\ blueprintID u = parseInt (fst e)).

(** runBlueprintAnalysis from the two loaded documents to the maps and
    the statistics it saves. *)
Definition runBlueprintAnalysis (blueprints typeNames : jvalue) (now : Z)
  : result state :=
  let? es := entries blueprints in
  let? st := rfold (step typeNames) es (initial now) in
  Ok (State (materialToBlueprints st) (blueprintToMaterials st)
        (allMaterialIds st) (allBlueprintIds st)
        (StatsCollector.set "uniqueBlueprints"
           (Z.of_nat (length (allBlueprintIds st)))
           (StatsCollector.set "uniqueMaterials"
              (Z.of_nat (length (allMaterialIds st))) (stats st)))).

End Blueprints.

(* ===================================================================== *)
(** ** Stellar cartography (extractStellarLabels, buildStellarData) *)
(* ===================================================================== *)

Module Stellar.
Import Js Regex.

#[global] Instance jsnum_eq_dec : EqDecision jsnum.
Proof. solve_decision. Defined.

Definition jsnum_to_option (n : jsnum) : option Z :=
  match n with NaN => None | Num z => Some z end.

Definition jsnum_of_option (o : option Z) : jsnum :=
  match o with None => NaN | Some z => Num z end.

#[global] Instance jsnum_countable : Countable jsnum.
Proof.
  apply (inj_countable' jsnum_to_option jsnum_of_option).
  intros []; reflexivity.
Defined.

Record IdSets : Type := {
  allSystemIds : list jvalue;
  allConstellationIds : list jvalue;
  allRegionIds : list jvalue
}.

Definition parsed_keys (ks : list string) : list jvalue :=
  map (fun id => JNum (parseInt id)) ks.

(** [if (owner.field) owner.field.forEach(id => set.add(id))] *)
Definition addField (owner : jvalue) (field : string) (s : list jvalue)
  : result (list jvalue) :=
  let? ids := get owner field in
  if truthy ids then
    let? items := as_array (field ++ ".forEach") ids in
    Ok (set_add_all items s)
  else Ok s.

Definition collectRegion (acc : list jvalue * list jvalue) (region : jvalue)
  : result (list jvalue * list jvalue) :=
  let? systems := addField region "solarSystemIDs" (fst acc) in
  let? constellations := addField region "constellationIDs" (snd acc) in
  Ok (systems, constellations).

Definition collectConstellation (acc : list jvalue) (constellation : jvalue)
  : result (list jvalue) :=
  addField constellation "solarSystemIDs" acc.

(** [if (starMapCache.regions) { ... }]: the IDs of the regions and the
    systems and constellations they list. *)
Definition fromRegions (regions : jvalue)
  : result (list jvalue * list jvalue * list jvalue) :=
  if truthy regions then
    let? ks := keys regions in
    let? vs := values regions in
    let? sc := rfold collectRegion vs ([], []) in
    Ok (fst sc, snd sc, set_add_all (parsed_keys ks) [])
  else Ok ([], [], []).

(** [if (starMapCache.constellations) { ... }] *)
Definition fromConstellations (constellations : jvalue)
           (systems constellationIds : list jvalue)
  : result (list jvalue * list jvalue) :=
  if truthy constellations then
    let? ks := keys constellations in
    let? vs := values constellations in
    let? systems' := rfold collectConstellation vs systems in
    Ok (systems', set_add_all (parsed_keys ks) constellationIds)
  else Ok (systems, constellationIds).

(** [if (starMapCache.solarSystems) { ... }] *)
Definition fromSolarSystems (solarSystems : jvalue) (systems : list jvalue)
  : result (list jvalue) :=
  if truthy solarSystems then
    let? ks := keys solarSystems in
    Ok (set_add_all (parsed_keys ks) systems)
  else Ok systems.

(** First stage: every ID the starmapcache refers to. *)
Definition collectIds (starMapCache : jvalue) : result IdSets :=
  let? regions := get starMapCache "regions" in
  let? r := fromRegions regions in
  let? constellations := get starMapCache "constellations" in
  let? c := fromConstellations constellations (fst (fst r)) (snd (fst r)) in
  let? solarSystems := get starMapCache "solarSystems" in
  let? systems := fromSolarSystems solarSystems (fst c) in
  Ok {| allSystemIds := systems;
        allConstellationIds := snd c;
        allRegionIds := snd r |}.

Record MessageIds : Type := {
  systemIdToMessageId : gmap jsnum jsnum;
  constellationIdToMessageId : gmap jsnum jsnum;
  regionIdToMessageId : gmap jsnum jsnum
}.

(** [/prefix(\d+)/] *)
Definition labelPattern (prefix : string) : list item :=
  (lit prefix ++ [IOpen; IPlus CDigit; IClose])%list.

(** [parseInt(label.match(pattern)[1])] when the pattern matches. *)
Definition labelledId (prefix : string) (label : jvalue)
  : result (option jsnum) :=
  match label with
  | JStr s =>
      match match_unanchored (labelPattern prefix) s with
      | Some (digits :: _) => Ok (Some (parseInt digits))
      | _ => Ok None
      end
  | _ => Throw "entry.label.match is not a function"
  end.

(** [entry.FullPath === path && entry.label]: the label when both hold. *)
Definition labelUnder (entry : jvalue) (path : string)
  : result (option jvalue) :=
  let? fullPath := get entry "FullPath" in
  if is_str fullPath path then
    let? label := get entry "label" in
    Ok (if truthy label then Some label else None)
  else Ok None.

(** One branch of the callback: record the message ID under the ID the
    label names, provided the starmapcache knows that ID. *)
Definition recordLabel (prefix : string) (label : jvalue)
           (known : list jvalue) (messageId : string)
           (m : gmap jsnum jsnum) : result (gmap jsnum jsnum) :=
  let? found := labelledId prefix label in
  match found with
  | Some id =>
      if set_has (JNum id) known
      then Ok (<[id := parseInt messageId]> m)
      else Ok m
  | None => Ok m
  end.

(** The callback of [Object.entries(mainLocalization.labels).forEach]. *)
Definition addLabel (ids : IdSets) (acc : MessageIds)
           (e : string * jvalue) : result MessageIds :=
  let '(messageId, entry) := e in
  let? sys := labelUnder entry "Map/SolarSystems" in
  match sys with
  | Some label =>
      let? m := recordLabel "solar_system_" label (allSystemIds ids)
                  messageId (systemIdToMessageId acc) in
      Ok {| systemIdToMessageId := m;
            constellationIdToMessageId := constellationIdToMessageId acc;
            regionIdToMessageId := regionIdToMessageId acc |}
  | None =>
      let? con := labelUnder entry "Map/Constellations" in
      match con with
      | Some label =>
          let? m := recordLabel "constellation_" label
                      (allConstellationIds ids) messageId
                      (constellationIdToMessageId acc) in
          Ok {| systemIdToMessageId := systemIdToMessageId acc;
                constellationIdToMessageId := m;
                regionIdToMessageId := regionIdToMessageId acc |}
      | None =>
          let? reg := labelUnder entry "Map/Regions" in
          match reg with
          | Some label =>
              let? m := recordLabel "region_" label (allRegionIds ids)
                          messageId (regionIdToMessageId acc) in
              Ok {| systemIdToMessageId := systemIdToMessageId acc;
                    constellationIdToMessageId := constellationIdToMessageId acc;
                    regionIdToMessageId := m |}
          | None => Ok acc
          end
      end
  end.

(** The entries of [mainLocalization.labels]; none when the document or
    its [labels] member is missing. *)
Definition labelTable (mainLocalization : jvalue)
  : result (list (string * jvalue)) :=
  if truthy mainLocalization then
    let? labels := get mainLocalization "labels" in
    if truthy labels then entries labels else Ok []
  else Ok [].

Definition noMessageIds : MessageIds :=
  {| systemIdToMessageId := ∅;
     constellationIdToMessageId := ∅;
     regionIdToMessageId := ∅ |}.

(** Second stage: from IDs to message IDs. *)
Definition buildMessageIds (ids : IdSets) (mainLocalization : jvalue)
  : result MessageIds :=
  let? es := labelTable mainLocalization in
  rfold (addLabel ids) es noMessageIds.

(** Entry [e] of the label table names [id]: it is filed under [path] and
    its label holds [prefix] followed by the digits of [id]. *)
Definition names (path prefix : string) (id : jsnum) (e : string * jvalue)
  : Prop :=
  exists label, labelUnder (snd e) path = Ok (Some label)
                /\ labelledId prefix label = Ok (Some id).

(** No entry of the table names [id]. *)
Definition unnamed (path prefix : string) (table : list (string * jvalue))
           (id : jsnum) : Prop :=
  forall e, e ∈ table -> ~ names path prefix id e.

(** [key] is the key of the last entry of the table that names [id]. *)
Definition messageKey (path prefix : string) (table : list (string * jvalue))
           (id : jsnum) (key : string) : Prop :=
  exists before entry after,
    table = (before ++ (key, entry) :: after)%list
    /\ names path prefix id (key, entry)
    /\ unnamed path prefix after id.

(** [v && typeof v === 'object'] *)
Definition object_like (v : jvalue) : bool :=
  match v with
  | JArr _ | JObj _ => true
  | _ => false
  end.

(** Every key of [m] is a number of the set [known]. *)
Definition keys_within {V} (m : gmap jsnum V) (known : list jvalue) : Prop :=
  forall id, is_Some (m !! id) -> set_has (JNum id) known = true.

(** The three maps only have keys collected from the starmapcache. *)
Definition within (ids : IdSets) (m : MessageIds) : Prop :=
  keys_within (systemIdToMessageId m) (allSystemIds ids)
  /\ keys_within (constellationIdToMessageId m) (allConstellationIds ids)
  /\ keys_within (regionIdToMessageId m) (allRegionIds ids).

(** The name found for a message ID: the first element of a non-empty
    array, when that element is truthy. *)
Definition localizedName (localizationData : jvalue) (messageId : jsnum)
  : option jvalue :=
  match get localizationData (num_to_string messageId) with
  | Ok (JArr (first :: _)) => if truthy first then Some first else None
  | _ => None
  end.

(** Third stage: from message IDs to names. *)
Definition extractNames (enUsLocalization : jvalue) (m : gmap jsnum jsnum)
  : gmap jsnum jvalue :=
  if object_like enUsLocalization
  then omap (localizedName enUsLocalization) m
  else ∅.

Record Labels : Type := {
  systemLabels : gmap jsnum jvalue;
  constellationLabels : gmap jsnum jvalue;
  regionLabels : gmap jsnum jvalue
}.

Definition extractStellarLabels
           (starMapCache mainLocalization enUsLocalization : jvalue)
  : result Labels :=
  let? ids := collectIds starMapCache in
  let? m := buildMessageIds ids mainLocalization in
  Ok {| systemLabels := extractNames enUsLocalization (systemIdToMessageId m);
        constellationLabels :=
          extractNames enUsLocalization (constellationIdToMessageId m);
        regionLabels := extractNames enUsLocalization (regionIdToMessageId m) |}.

(** [labels.get(id) || `Kind_${id}`] *)
Definition nameOf (labels : gmap jsnum jvalue) (kind : string) (id : jsnum)
  : jvalue :=
  or_else (default JUndef (labels !! id))
          (JStr (kind ++ "_" ++ num_to_string id)).

(** [data.field || fallback] *)
Definition field_or (data : jvalue) (field : string) (fallback : jvalue)
  : result jvalue :=
  let? v := get data field in Ok (or_else v fallback).

Record Region : Type := {
  regionId : jsnum;
  regionName : jvalue;
  regionSolarSystemIds : jvalue;
  regionConstellationIds : jvalue;
  regionDescription : jvalue;
  regionFactionId : jvalue
}.

Record Constellation : Type := {
  constellationId : jsnum;
  constellationName : jvalue;
  constellationRegionId : jvalue;
  constellationSolarSystemIds : jvalue;
  constellationFactionId : jvalue;
  constellationSovereignty : jvalue
}.

Record System : Type := {
  systemId : jsnum;
  systemName : jvalue;
  center : jvalue;
  systemRegionId : jvalue;
  systemConstellationId : jvalue;
  securityClass : jvalue;
  securityStatus : jvalue;
  starId : jvalue;
  planetIds : jvalue;
  planetCountByType : jvalue;
  neighbours : jvalue;
  stargates : jvalue;
  systemFactionId : jvalue;
  systemSovereignty : jvalue;
  disallowedAnchorCategories : jvalue;
  disallowedAnchorGroups : jvalue
}.

Definition buildRegion (regionLabels : gmap jsnum jvalue)
           (regions : gmap string Region) (e : string * jvalue)
  : result (gmap string Region) :=
  let '(idStr, regionData) := e in
  let id := parseInt idStr in
  let name := nameOf regionLabels "Region" id in
  let? systems := field_or regionData "solarSystemIDs" (JArr []) in
  let? constellations := field_or regionData "constellationIDs" (JArr []) in
  let? description := field_or regionData "description" JNull in
  let? faction := field_or regionData "factionID" JNull in
  Ok (<[num_to_string id :=
          {| regionId := id; regionName := name;
             regionSolarSystemIds := systems;
             regionConstellationIds := constellations;
             regionDescription := description;
             regionFactionId := faction |}]> regions).

Definition buildConstellation (constellationLabels : gmap jsnum jvalue)
           (constellations : gmap string Constellation) (e : string * jvalue)
  : result (gmap string Constellation) :=
  let '(idStr, constellationData) := e in
  let id := parseInt idStr in
  let name := nameOf constellationLabels "Constellation" id in
  let? region := field_or constellationData "regionID" JNull in
  let? systems := field_or constellationData "solarSystemIDs" (JArr []) in
  let? faction := field_or constellationData "factionID" JNull in
  let? sovereignty := field_or constellationData "sovereignty" JNull in
  Ok (<[num_to_string id :=
          {| constellationId := id; constellationName := name;
             constellationRegionId := region;
             constellationSolarSystemIds := systems;
             constellationFactionId := faction;
             constellationSovereignty := sovereignty |}]> constellations).

Definition origin : jvalue :=
  JArr [JNum (Num 0); JNum (Num 0); JNum (Num 0)].

Definition buildSystem (systemLabels : gmap jsnum jvalue)
           (systems : gmap string System) (e : string * jvalue)
  : result (gmap string System) :=
  let '(idStr, systemData) := e in
  let id := parseInt idStr in
  let name := nameOf systemLabels "System" id in
  let? center := field_or systemData "center" origin in
  let? region := field_or systemData "regionID" JNull in
  let? constellation := field_or systemData "constellationID" JNull in
  let? class := field_or systemData "securityClass" JNull in
  let? status := field_or systemData "security" JNull in
  let? star := get systemData "star" in
  let? starId := if truthy star then get star "id" else Ok JNull in
  let? planets := field_or systemData "planetItemIDs" (JArr []) in
  let? planetCount := field_or systemData "planetCountByType" (JObj []) in
  let? neighbours := field_or systemData "neighbours" (JArr []) in
  let? stargates := field_or systemData "stargates" (JArr []) in
  let? faction := field_or systemData "factionID" JNull in
  let? sovereignty := field_or systemData "sovereignty" JNull in
  let? categories := field_or systemData "disallowedAnchorCategories" (JArr []) in
  let? groups := field_or systemData "disallowedAnchorGroups" (JArr []) in
  Ok (<[num_to_string id :=
          {| systemId := id; systemName := name; center := center;
             systemRegionId := region;
             systemConstellationId := constellation;
             securityClass := class; securityStatus := status;
             starId := starId; planetIds := planets;
             planetCountByType := planetCount;
             neighbours := neighbours; stargates := stargates;
             systemFactionId := faction;
             systemSovereignty := sovereignty;
             disallowedAnchorCategories := categories;
             disallowedAnchorGroups := groups |}]> systems).

Record StellarData : Type := {
  regions : gmap string Region;
  constellations : gmap string Constellation;
  systems : gmap string System
}.

(** [if (starMapCache.field) Object.entries(...).forEach(build)] *)
Definition buildAll {A} (starMapCache : jvalue) (field : string)
           (build : gmap string A -> string * jvalue -> result (gmap string A))
  : result (gmap string A) :=
  let? table := get starMapCache field in
  if truthy table then
    let? es := entries table in rfold build es ∅
  else Ok ∅.

Definition buildStellarData (starMapCache : jvalue) (labels : Labels)
  : result StellarData :=
  let? rs := buildAll starMapCache "regions"
               (buildRegion (regionLabels labels)) in
  let? cs := buildAll starMapCache "constellations"
               (buildConstellation (constellationLabels labels)) in
  let? ss := buildAll starMapCache "solarSystems"
               (buildSystem (systemLabels labels)) in
  Ok {| regions := rs; constellations := cs; systems := ss |}.

(** [v] is an element of the array [field] of some record of [table]. *)
Definition listed (table : jvalue) (field : string) (v : jvalue) : Prop :=
  truthy table = true
  /\ exists es owner items,
      entries table = Ok es /\ owner ∈ map snd es
      /\ get owner field = Ok (JArr items) /\ v ∈ items.

(** [v] is the number a key of [table] parses to. *)
Definition keyed (table : jvalue) (v : jvalue) : Prop :=
  truthy table = true
  /\ exists es k, entries table = Ok es /\ k ∈ map fst es
                  /\ v = JNum (parseInt k).

(** The places of the starmapcache that refer to a system, to a
    constellation, to a region. *)
Definition system_referenced (starMapCache v : jvalue) : Prop :=
  exists regions constellations solarSystems,
    get starMapCache "regions" = Ok regions
    /\ get starMapCache "constellations" = Ok constellations
    /\ get starMapCache "solarSystems" = Ok solarSystems
    /\ (listed regions "solarSystemIDs" v
        \/ listed constellations "solarSystemIDs" v
        \/ keyed solarSystems v).

Definition constellation_referenced (starMapCache v : jvalue) : Prop :=
  exists regions constellations,
    get starMapCache "regions" = Ok regions
    /\ get starMapCache "constellations" = Ok constellations
    /\ (listed regions "constellationIDs" v \/ keyed constellations v).

Definition region_referenced (starMapCache v : jvalue) : Prop :=
  exists regions,
    get starMapCache "regions" = Ok regions /\ keyed regions v.

(** [owner.field] is missing (or otherwise falsy) or an array. *)
Definition id_list (owner : jvalue) (field : string) : Prop :=
  exists v, get owner field = Ok v
            /\ (truthy v = false \/ exists items, v = JArr items).

(** The member [field] of the starmapcache can be read and, when it is a
    table, every record in it satisfies [P]. *)
Definition table_of (P : jvalue -> Prop) (starMapCache : jvalue)
           (field : string) : Prop :=
  exists table,
    get starMapCache field = Ok table
    /\ forall es, truthy table = true -> entries table = Ok es ->
                  Forall (fun e => P (snd e)) es.

Definition well_formed_region (r : jvalue) : Prop :=
  nullish r = false /\ id_list r "solarSystemIDs" /\ id_list r "constellationIDs".

Definition well_formed_constellation (c : jvalue) : Prop :=
  nullish c = false /\ id_list c "solarSystemIDs".

(** A starmapcache the three passes can walk without throwing. *)
Definition well_formed_cache (starMapCache : jvalue) : Prop :=
  table_of well_formed_region starMapCache "regions"
  /\ table_of well_formed_constellation starMapCache "constellations"
  /\ table_of (fun s => nullish s = false) starMapCache "solarSystems".

(** A label entry the second pass can handle: an object whose label, when
    it is filed under one of the three map paths, is a string. *)
Definition well_formed_label (entry : jvalue) : Prop :=
  nullish entry = false
  /\ forall path label, labelUnder entry path = Ok (Some label) ->
                        exists text, label = JStr text.

Definition well_formed_labels (mainLocalization : jvalue) : Prop :=
  forall table, labelTable mainLocalization = Ok table ->
                Forall (fun e => well_formed_label (snd e)) table.

(** What the message map of the systems holds for the IDs the starmapcache
    knows, once the entries [done] of the label table have been seen. *)
Definition systems_invariant (ids : IdSets) (done : list (string * jvalue))
           (acc : MessageIds) : Prop :=
  forall id,
    set_has (JNum id) (allSystemIds ids) = true ->
    (unnamed "Map/SolarSystems" "solar_system_" done id ->
     systemIdToMessageId acc !! id = None)
    /\ (forall key,
          messageKey "Map/SolarSystems" "solar_system_" done id key ->
          systemIdToMessageId acc !! id = Some (parseInt key)).

(** Every system of [done] has its record, under its ID and with the
    name the labels give it. *)
Definition built (systemLabels : gmap jsnum jvalue)
           (done : list (string * jvalue)) (systems : gmap string System)
  : Prop :=
  forall e, e ∈ done ->
    exists sys,
      systems !! num_to_string (parseInt (fst e)) = Some sys
      /\ systemId sys = parseInt (fst e)
      /\ systemName sys = nameOf systemLabels "System" (parseInt (fst e)).

(** The two calls of processStellarCartography that produce the data. *)
Definition stellarCartography
           (starMapCache mainLocalization enUsLocalization : jvalue)
  : result (Labels * StellarData) :=
  let? labels := extractStellarLabels starMapCache mainLocalization
                   enUsLocalization in
  let? data := buildStellarData starMapCache labels in
  Ok (labels, data).

End Stellar.

(* ===================================================================== *)
(** ** Sample inputs *)
(* ===================================================================== *)

Module Samples.
Import Js.

Definition num (z : Z) : jvalue := JNum (Num z).



Definition typeNameTable : jvalue := JObj [("34", JStr "Tritanium")].

(** A starmapcache with one region, one constellation and two systems (the
    region also lists a system 32 that has no record), a label table that
    names system 30 and a system 99 the starmapcache does not have, and
    their names. *)
Definition starMapCache : jvalue :=
  JObj [("regions",
         JObj [("10", JObj [("constellationIDs", JArr [num 20]);
                            ("solarSystemIDs", JArr [num 30; num 32])])]);
        ("constellations",
         JObj [("20", JObj [("solarSystemIDs", JArr [num 30; num 31])])]);
        ("solarSystems", JObj [("30", JObj []); ("31", JObj [])])].

Definition label30 : jvalue :=
  JObj [("FullPath", JStr "Map/SolarSystems"); ("label", JStr "solar_system_30")].

Definition label99 : jvalue :=
  JObj [("FullPath", JStr "Map/SolarSystems"); ("label", JStr "solar_system_99")].

Definition mainLocalization : jvalue :=
  JObj [("labels", JObj [("900", label30); ("901", label99)])].

Definition enUsLocalization : jvalue :=
  JObj [("900", JArr [JStr "Alpha"; JNull]);
        ("901", JArr [JStr "Nowhere"; JNull])].

(** A project at [/p], without a pickle parser. *)
Definition env : Env :=
  {| projectRoot := "/p";
     parse_pickle := fun _ => Throw "no parser";
     json_stringify := fun _ => [] |}.

(** The directories ensureDirectories makes, and a resource directory. *)
Definition directories : list (string * Fs.node) :=
  [("/", Fs.Dir); ("/p", Fs.Dir); ("/p/data", Fs.Dir);
   ("/p/data/raw", Fs.Dir); ("/p/data/json", Fs.Dir);
   ("/p/data/extracted", Fs.Dir); ("/p/data/sqlite", Fs.Dir);
   ("/p/data/static", Fs.Dir); ("/p/data/pickle", Fs.Dir);
   ("/p/data/fsdbinary", Fs.Dir); ("/p/data/fsdbinary/src", Fs.Dir);
   ("/res", Fs.Dir)].

Definition world_of (entries : list (string * Fs.node)) : world :=
  World (list_to_map (directories ++ entries)) [] (StatsCollector.new 0).

End Samples.

(* ===================================================================== *)
(** ** Declarative readings of the tables the processors build *)
(* ===================================================================== *)

Module Reading.
Import Js.

(** [v.key] where reading it does not throw, [undefined] where it does. *)
Definition field (v : jvalue) (key : string) : jvalue :=
  match get v key with
  | Ok x => x
  | Throw _ => JUndef
  end.

(** Number of elements of [l] that satisfy [keep]. *)
Definition count {A} (keep : A -> bool) (l : list A) : Z :=
  Z.of_nat (length (List.filter keep l)).

End Reading.

Module TypeTables.
Import Js TypeNames Reading.

Definition idOf (e : string * jvalue) : string :=
  num_to_string (parseInt (fst e)).

Definition nameOf (e : string * jvalue) : jvalue := field (snd e) "typeNameID".

(** The record has a name: it goes to the table of all names. *)
Definition named (e : string * jvalue) : bool := has_name (nameOf e).

(** The record goes to the published-only table. *)
Definition published (e : string * jvalue) : bool :=
  is_num (field (snd e) "published") 1 && named e.

Definition groupOf (e : string * jvalue) : string :=
  to_string (field (snd e) "groupID").

(** The element pushed on the list of the record's group. *)
Definition entryOf (e : string * jvalue) : GroupEntry :=
  {| typeID := parseInt (fst e);
     name := or_else (nameOf e) (JStr ("Type " ++ idOf e));
     basePrice := or_else (field (snd e) "basePrice") (JNum (Num 0));
     volume := or_else (field (snd e) "volume") (JNum (Num 0));
     TypeNames.published := field (snd e) "published" |}.

(** The name of the last record of [es] that satisfies [keep] and whose ID
    reads [key]. *)
Definition lastName (keep : string * jvalue -> bool)
           (es : list (string * jvalue)) (key : string) : option jvalue :=
  last (map nameOf
          (List.filter (fun e => keep e && String.eqb (idOf e) key) es)).

(** The records of group [g], in the order of the document. *)
Definition members (es : list (string * jvalue)) (g : string)
  : list GroupEntry :=
  map entryOf (List.filter (fun e => String.eqb (groupOf e) g) es).

Definition groupAt (es : list (string * jvalue)) (g : string)
  : option (list GroupEntry) :=
  match members es g with
  | [] => None
  | l => Some l
  end.

(** What holds of the tables once the records [done] have been seen. *)
Definition tables (done : list (string * jvalue)) (st : state) : Prop :=
  (forall key, typeNames st !! key = lastName named done key)
  /\ (forall key, publishedTypes st !! key = lastName published done key)
  /\ (forall g, typesByGroup st !! g = groupAt done g).

(** What holds of the counters and of the sizes of the name tables. *)
Definition counters (done : list (string * jvalue)) (st : state) : Prop :=
  StatsCollector.get "totalTypes" (stats st) = Z.of_nat (length done)
  /\ StatsCollector.get "namedTypes" (stats st) = count named done
  /\ StatsCollector.get "publishedTypes" (stats st) = count published done
  /\ Z.of_nat (size (typeNames st)) <= count named done
  /\ Z.of_nat (size (publishedTypes st)) <= count published done
  /\ (NoDup (map idOf done) ->
      Z.of_nat (size (typeNames st)) = count named done
      /\ Z.of_nat (size (publishedTypes st)) = count published done).

End TypeTables.


Module BomTables.
Import Js Blueprints Reading.

(** [blueprint.activities && blueprint.activities.manufacturing] *)
Definition manufacturing (blueprint : jvalue) : jvalue :=
  match manufacturingOf blueprint with
  | Ok m => m
  | Throw _ => JUndef
  end.

Definition manufactured (e : string * jvalue) : bool :=
  truthy (manufacturing (snd e)).

(** The materials the loop walks for a blueprint: those of its
    manufacturing activity, none without one. *)
Definition materialsOf (blueprint : jvalue) : list jvalue :=
  if truthy (manufacturing blueprint) then
    match or_else (field (manufacturing blueprint) "materials") (JArr []) with
    | JArr items => items
    | _ => []
    end
  else [].

(** [typeNames[key] || `${kind} ${key}`] *)
Definition nameFor (typeNames : jvalue) (kind key : string) : jvalue :=
  or_else (field typeNames key) (JStr (kind ++ " " ++ key)).





Definition reverseOf (typeNames : jvalue) (key : string) (us : list Usage)
  : option MaterialUses :=
  match us with
  | [] => None
  | _ => Some {| materialName := nameFor typeNames "Type" key;
                 usedInBlueprints := us |}
  end.



(** Keys of the reverse map against the Set of material IDs. *)
Definition materials_invariant (acc : gmap string MaterialUses * list jvalue)
  : Prop :=
  (forall v, v ∈ snd acc -> is_Some (fst acc !! to_string v))
  /\ (size (fst acc) <= length (snd acc))%nat.

(** What holds of the counters and ID sets of the blueprint analysis. *)
Definition bom_counters (done : list (string * jvalue)) (st : state) : Prop :=
  StatsCollector.get "manufacturingBlueprints" (stats st)
  = count manufactured done
  /\ NoDup (allBlueprintIds st)
  /\ (forall n, n ∈ allBlueprintIds st
                <-> exists e, e ∈ done /\ parseInt (fst e) = n)
  /\ materials_invariant (materialToBlueprints st, allMaterialIds st)
  /\ Z.of_nat (size (blueprintToMaterials st)) <= count manufactured done.

End BomTables.


Module Manifest.
Import FileIndexing.

(** The line matches the pattern of processIndexFile. *)
Definition parses (line : string) : bool :=
  match parseLine line with
  | Some _ => true
  | None => false
  end.

(** The counters the handlers of the manifest scan raise for an entry
    they have dealt with, one per category. *)
Definition categories : list string :=
  ["pickleConverted"; "pickleErrors"; "staticLinked"; "fsdbinaryLinked";
   "schemaLinked"; "otherLinked"].

Definition handled (c : StatsCollector.t) : Z :=
  fold_right (fun key total => StatsCollector.get key c + total) 0 categories.

(** What a handler can have done to the counters. *)
Definition handler_effect (c c' : StatsCollector.t) : Prop :=
  c' = c
  \/ (exists key, key ∈ categories /\ c' = StatsCollector.increment key 1 c)
  \/ c' = StatsCollector.increment "staticLinked" 1
            (StatsCollector.increment "sqliteLinked" 1 c).

End Manifest.

Module Handlers.

(** What a handler that links [src] at [link] and counts under [key] has
    done when it returns with outcome [r]: linked and counted, or neither;
    when it throws, nothing at all. *)
Definition counts_link (key link src : string) (w : world)
           (r : result unit * world) : Prop :=
  match fst r with
  | Ok _ =>
      (collector (snd r) = StatsCollector.increment key 1 (collector w)
       /\ Fs.lstat (fs (snd r)) link = Some (Fs.Link src))
      \/ collector (snd r) = collector w
  | Throw _ => snd r = w
  end.

End Handlers.


Module CleanPath.

(** What cleanPath makes of one character. *)
Definition underscore (c : ascii) : ascii :=
  if ascii_eqb c ":"%char || ascii_eqb c "\"%char then "_"%char else c.

(** A character cleanPath leaves as it is. *)
Definition plain (c : ascii) : Prop := c <> ":"%char /\ c <> "\"%char.

End CleanPath.


(* ===================================================================== *)
(** ** utils.js: ensureDirectories *)
(* ===================================================================== *)

Module Directories.

Definition defaultDirs : list string :=
  ["data/raw"; "data/json"; "data/extracted"; "data/sqlite"; "data/static";
   "data/pickle"; "data/fsdbinary/src"].

(** [for (const x of l) { f x }] *)
Fixpoint each {A} (f : A -> M unit) (l : list A) : M unit :=
  match l with
  | [] => ret tt
  | a :: l' => f a ;;; each f l'
  end.

Section WithEnv.
Context (env : Env).

Definition fullPathOf (dir : string) : string :=
  Path.join [projectRoot env; dir].

(** The body of the loop of ensureDirectories. *)
Definition ensureDirectory (dir : string) : M unit :=
  let fullPath := fullPathOf dir in
  present <~ fs_read (fun m => Ok (Fs.existsSync m fullPath)) ;;
  if negb present then fs_call (fun m => Fs.mkdirSync m fullPath)
  else ret tt.

Definition ensureDirectories (directories : list string) : M unit :=
  each ensureDirectory (defaultDirs ++ directories)%list.

End WithEnv.

(** Disk [m'] is disk [m] with, possibly, directories at names that were
    free: nothing was removed and nothing that existed was changed. *)
Definition extends (m m' : gmap string Fs.node) : Prop :=
  forall k, m' !! k = m !! k \/ (m !! k = None /\ m' !! k = Some Fs.Dir).

(** Console and counters of [w'] are those of [w]. *)
Definition same_but_disk (w w' : world) : Prop :=
  out w' = out w /\ collector w' = collector w.

End Directories.


(* ===================================================================== *)
(** ** Loading and saving JSON files, removing files *)
(* ===================================================================== *)

(** A computation that throws. *)
Definition throw {A} (message : string) : M A := fun w => (Throw message, w).

(** A result, as a computation that leaves the world alone. *)
Definition lift {A} (r : result A) : M A := fun w => (r, w).

Module StellarFiles.
Section WithParser.
(** [JSON.parse] of the text a file holds. *)
Context (json_parse : list byte -> result Js.jvalue).


End WithParser.
End StellarFiles.

Module Cleanup.

(** removeFile of the cleanup processor. *)
Definition removeFile (filePath fileName : string) : M bool :=
  try_catch
    (present <~ fs_read (fun m => Ok (Fs.existsSync m filePath)) ;;
     if present then
       fs_call (fun m => Fs.unlink m filePath) ;;;
       log Success ("Removed " ++ fileName) ;;;
       ret true
     else
       log Debug (fileName ++ " does not exist, skipping") ;;;
       ret true)
    (fun message =>
       log Error ("Failed to remove " ++ fileName ++ ": " ++ message) ;;;
       ret false).

End Cleanup.

Module JsonFiles.
Section WithEnv.
Context (env : Env).
(** The size the system reports for a directory. *)
Context (directorySize : Z).
(** The message of the TypeError writeFileSync raises for data that is
    neither a string nor a buffer. *)
Context (invalidData : string).

(** [fs.statSync(p).size] *)
Definition statSize (m : gmap string Fs.node) (p : string) : result Z :=
  match Fs.stat m p with
  | Some (Fs.File content) => Ok (Z.of_nat (length content))
  | Some Fs.Dir => Ok directorySize
  | _ => Throw ("ENOENT: no such file or directory, stat '" ++ p ++ "'")
  end.

(** [(size / 1024).toFixed(1)] for a size in bytes: the quotient is exact
    in floating point, and toFixed rounds it to the nearest tenth, the
    upper one of two that are equally near. *)
Definition kilobytes (size : Z) : string :=
  let tenths := (10 * size + 512) / 1024 in
  Js.Z_to_string (tenths / 10) ++ "." ++ Js.Z_to_string (tenths mod 10).

(** The line json.save logs when it has written the file. *)
Definition generated (filePath : string) (size : Z) (description : string)
  : string :=
  "Generated " ++ Path.basename filePath ++ " (" ++ kilobytes size ++ "KB)"
    ++ (if String.eqb description "" then "" else ": " ++ description).

(** [v === undefined] *)
Definition undefined (v : Js.jvalue) : bool :=
  match v with Js.JUndef => true | _ => false end.

(** [fs.writeFileSync(filePath, JSON.stringify(data, null, 2))]:
    JSON.stringify gives [undefined] for [undefined], which writeFileSync
    refuses before it opens the file. *)
Definition writeJson (filePath : string) (data : Js.jvalue) : M unit :=
  if undefined data then throw invalidData
  else fs_call (fun m => Fs.writeFile m filePath (json_stringify env data)).

(** json.save *)
Definition save (filePath : string) (data : Js.jvalue) (description : string)
  : M bool :=
  try_catch
    (writeJson filePath data ;;;
     size <~ fs_read (fun m => statSize m filePath) ;;
     log Success (generated filePath size description) ;;;
     ret true)
    (fun message =>
       log Error ("Could not save " ++ filePath ++ ": " ++ message) ;;;
       ret false).

End WithEnv.
End JsonFiles.


Module StellarTables.
Import Js Stellar Reading.

(** The entries [buildStellarData] walks for a member of the starmapcache:
    none when the member is missing. *)
Definition recordsOf (starMapCache : jvalue) (member : string)
  : list (string * jvalue) :=
  let table := field starMapCache member in
  if truthy table then
    match entries table with
    | Ok es => es
    | Throw _ => []
    end
  else [].

(** The key a record is stored under: its ID, as a property key. *)
Definition keyOf (e : string * jvalue) : string :=
  num_to_string (parseInt (fst e)).

(** [data.member || fallback] *)
Definition fieldOr (data : jvalue) (member : string) (fallback : jvalue)
  : jvalue :=
  or_else (field data member) fallback.

Definition regionOf (labels : gmap jsnum jvalue) (e : string * jvalue)
  : Region :=
  let data := snd e in
  {| regionId := parseInt (fst e);
     regionName := nameOf labels "Region" (parseInt (fst e));
     regionSolarSystemIds := fieldOr data "solarSystemIDs" (JArr []);
     regionConstellationIds := fieldOr data "constellationIDs" (JArr []);
     regionDescription := fieldOr data "description" JNull;
     regionFactionId := fieldOr data "factionID" JNull |}.

Definition constellationOf (labels : gmap jsnum jvalue)
           (e : string * jvalue) : Constellation :=
  let data := snd e in
  {| constellationId := parseInt (fst e);
     constellationName := nameOf labels "Constellation" (parseInt (fst e));
     constellationRegionId := fieldOr data "regionID" JNull;
     constellationSolarSystemIds := fieldOr data "solarSystemIDs" (JArr []);
     constellationFactionId := fieldOr data "factionID" JNull;
     constellationSovereignty := fieldOr data "sovereignty" JNull |}.

Definition systemOf (labels : gmap jsnum jvalue) (e : string * jvalue)
  : System :=
  let data := snd e in
  {| systemId := parseInt (fst e);
     systemName := nameOf labels "System" (parseInt (fst e));
     center := fieldOr data "center" origin;
     systemRegionId := fieldOr data "regionID" JNull;
     systemConstellationId := fieldOr data "constellationID" JNull;
     securityClass := fieldOr data "securityClass" JNull;
     securityStatus := fieldOr data "security" JNull;
     starId := if truthy (field data "star")
               then field (field data "star") "id" else JNull;
     planetIds := fieldOr data "planetItemIDs" (JArr []);
     planetCountByType := fieldOr data "planetCountByType" (JObj []);
     neighbours := fieldOr data "neighbours" (JArr []);
     stargates := fieldOr data "stargates" (JArr []);
     systemFactionId := fieldOr data "factionID" JNull;
     systemSovereignty := fieldOr data "sovereignty" JNull;
     disallowedAnchorCategories :=
       fieldOr data "disallowedAnchorCategories" (JArr []);
     disallowedAnchorGroups :=
       fieldOr data "disallowedAnchorGroups" (JArr []) |}.

(** What the last entry of [es] stored under [key] makes. *)
Definition builtAt {A} (make : string * jvalue -> A)
           (es : list (string * jvalue)) (key : string) : option A :=
  last (map make (List.filter (fun e => String.eqb (keyOf e) key) es)).

(** The map [m] holds what the entries [done] make. *)
Definition holds {A} (make : string * jvalue -> A)
           (done : list (string * jvalue)) (m : gmap string A) : Prop :=
  forall key, m !! key = builtAt make done key.

End StellarTables.


Module Digits.


End Digits.


(* ===================================================================== *)
(** ** blueprints.js: converting the cache table *)
(* ===================================================================== *)

Module CacheConversion.
Import Js Reading.

(** [for (const item of v)] over a JSON value: arrays give their
    elements and strings their characters; nothing else can be iterated. *)
Definition iterate (what : string) (v : jvalue) : result (list jvalue) :=
  match v with
  | JArr items => Ok items
  | JStr s => Ok (map (fun c => JStr (String c "")) (chars s))
  | _ => Throw (what ++ " is not iterable")
  end.

(** A loop that threads an accumulator through a computation. *)
Fixpoint foldM {A S} (f : S -> A -> M S) (l : list A) (s : S) : M S :=
  match l with
  | [] => ret s
  | a :: l' => s' <~ f s a ;; foldM f l' s'
  end.

(** [o[key] = v] on an object literal, as a map of own properties: the
    key __proto__ reaches the prototype setter and adds no property. *)
Definition assign (key : string) (v : jvalue) (o : gmap string jvalue)
  : gmap string jvalue :=
  if String.eqb key "__proto__" then o else <[key := v]> o.

(** blueprintsData, processedCount and errorCount. *)
Record tally : Type := Tally {
  blueprintsData : gmap string jvalue;
  processedCount : Z;
  errorCount : Z
}.

Section WithParser.
(** [JSON.parse] of a text. *)
Context (json_parse : string -> result jvalue).

(** The body of the loop over the rows of the cache table. *)
Definition convertItem (t : tally) (item : jvalue) : M tally :=
  key <~ lift (get item "key") ;;
  if truthy key then
    value <~ lift (get item "value") ;;
    if truthy value then
      match json_parse (to_string value) with
      | Ok blueprintData =>
          ret (Tally (assign (to_string key) blueprintData (blueprintsData t))
                     (processedCount t + 1) (errorCount t))
      | Throw message =>
          log Warning ("Could not parse blueprint data for key "
                         ++ to_string key ++ ": " ++ message) ;;;
          ret (Tally (blueprintsData t) (processedCount t) (errorCount t + 1))
      end
    else ret t
  else ret t.

(** The conversion of the rows, up to the line that reports the counts. *)
Definition convertCache (cacheData : jvalue) : M tally :=
  items <~ lift (iterate "cacheData" cacheData) ;;
  t <~ foldM convertItem items (Tally ∅ 0 0) ;;
  log Info ("Processed " ++ Z_to_string (processedCount t)
              ++ " blueprints (" ++ Z_to_string (errorCount t) ++ " errors)") ;;;
  ret t.

(** The row has a key and a value that count as true. *)
Definition candidate (item : jvalue) : bool :=
  truthy (field item "key") && truthy (field item "value").

(** What the row's value parses to. *)
Definition parsed (item : jvalue) : result jvalue :=
  json_parse (to_string (field item "value")).

(** The row is converted: it is a candidate whose value parses. *)
Definition converted (item : jvalue) : bool :=
  candidate item && match parsed item with Ok _ => true | Throw _ => false end.

(** The row is a candidate whose value does not parse. *)
Definition rejected (item : jvalue) : bool :=
  candidate item && match parsed item with Ok _ => false | Throw _ => true end.

(** The warning logged for a rejected row. *)
Definition warning (item : jvalue) : level * string :=
  (Warning,
   "Could not parse blueprint data for key " ++ to_string (field item "key")
     ++ ": " ++ match parsed item with Ok _ => "" | Throw message => message end).

(** The row is converted and filed under [key]. *)
Definition filed (key : string) (item : jvalue) : bool :=
  converted item && String.eqb (to_string (field item "key")) key
  && negb (String.eqb key "__proto__").

(** The data of the last row filed under [key]. *)
Definition lastFiled (items : list jvalue) (key : string) : option jvalue :=
  match last (List.filter (filed key) items) with
  | Some item => match parsed item with Ok d => Some d | Throw _ => None end
  | None => None
  end.

(** The line that reports the counts. *)
Definition report (items : list jvalue) : level * string :=
  (Info,
   "Processed " ++ Z_to_string (count converted items) ++ " blueprints ("
     ++ Z_to_string (count rejected items) ++ " errors)").

(** What holds once the rows [done] have been converted, from world [w]
    to world [w']. *)
Definition conversion (w : world) (done : list jvalue) (t : tally)
           (w' : world) : Prop :=
  processedCount t = count converted done
  /\ errorCount t = count rejected done
  /\ (forall key, blueprintsData t !! key = lastFiled done key)
  /\ Z.of_nat (size (blueprintsData t)) <= count converted done
  /\ fs w' = fs w /\ collector w' = collector w
  /\ out w' = (out w ++ map warning (List.filter rejected done))%list.

End WithParser.
End CacheConversion.


(* ===================================================================== *)
(** ** Reading a counter off a trace of calls *)
(* ===================================================================== *)

Module Traces.
Import StatsCollector.

(** What the call adds to counter [key]. *)
Definition amountFor (key : string) (o : op) : Z :=
  match o with
  | OpIncrement k amount => if String.eqb k key then amount else 0
  | _ => 0
  end.


(** The sum of the amounts the calls add to counter [key]. *)
Definition total (key : string) (ops : list op) : Z :=
  fold_right Z.add 0 (map (amountFor key) ops).

End Traces.

(* ===================================================================== *)
(** * Properties *)
(* ===================================================================== *)

(** From here on [++] joins lists and [+:+] joins strings. *)
Local Open Scope list_scope.

(** Membership in a list that grew by one element at its end. *)
Ltac in_left := apply elem_of_app; left; assumption.
Ltac in_last :=
  apply elem_of_app; right; apply list_elem_of_singleton; reflexivity.

(** ** Generic facts about loops that may throw *)

Lemma rfold_app {A S} (f : S -> A -> result S) (l1 l2 : list A) (s : S) :
  rfold f (l1 ++ l2) s = (let? s1 := rfold f l1 s in rfold f l2 s1).
Proof.
  revert s. induction l1 as [|a l1 IH]; intros s; simpl; [reflexivity|].
  destruct (f s a) as [s'|m]; simpl; [apply IH | reflexivity].
Qed.

Lemma rbind_ok {A B} (r : result A) (f : A -> result B) (b : B) :
  rbind r f = Ok b -> exists a, r = Ok a /\ f a = Ok b.
Proof. destruct r as [a|m]; simpl; [eauto | discriminate]. Qed.

(** An invariant of the accumulator that every successful step preserves
    holds at the end of a successful loop. The step may use that the
    element it handles comes right after those already done. *)
Lemma rfold_invariant {A S} (f : S -> A -> result S) (P : list A -> S -> Prop)
      (l : list A) (s0 s : S) :
  P [] s0 ->
  (forall done a rest st st',
      l = done ++ a :: rest ->
      P done st -> f st a = Ok st' -> P (done ++ [a]) st') ->
  rfold f l s0 = Ok s -> P l s.
Proof.
  intros H0 Hstep.
  assert (G : forall todo done st,
             l = done ++ todo -> P done st -> rfold f todo st = Ok s -> P l s).
  { induction todo as [|a todo IH]; intros done st El HP Hrun; simpl in Hrun.
    - injection Hrun as <-. rewrite El. by rewrite app_nil_r.
    - apply rbind_ok in Hrun as (st' & Hf & Hrest).
      apply (IH (done ++ [a]) st'); [|eapply Hstep; eauto|exact Hrest].
      by rewrite <- app_assoc. }
  intros Hrun. exact (G l [] s0 eq_refl H0 Hrun).
Qed.


(** ** StatsCollector *)

Module StatsFacts.
Import StatsCollector.

Lemma get_increment key k amount c :
  get key (increment k amount c)
  = if decide (k = key) then get k c + amount else get key c.
Proof.
  unfold get, increment; simpl. rewrite lookup_insert.
  destruct (decide (k = key)); reflexivity.
Qed.

Lemma get_set key k value c :
  get key (set k value c) = if decide (k = key) then value else get key c.
Proof.
  unfold get, set; simpl. rewrite lookup_insert.
  destruct (decide (k = key)); reflexivity.
Qed.

Lemma get_new key now : get key (new now) = 0.
Proof. unfold get, new; simpl. by rewrite lookup_empty. Qed.


End StatsFacts.




(** ** Type names *)

Module JsFacts.
Import Js.

Lemma get_total v key : nullish v = false -> exists x, get v key = Ok x.
Proof.
  destruct v; simpl; try discriminate; intros _; eauto;
    repeat case_match; eauto.
Qed.


End JsFacts.

Module TypeNamesFacts.
Import Js TypeNames.





End TypeNamesFacts.




(** ** Blueprints *)

Module BlueprintsFacts.
Import Js Blueprints.





















End BlueprintsFacts.




(** ** The symlink manager *)

Module FilesFacts.

(** createSymlink, with its try/catch unfolded: the disk keeps what was
    done before a failure. *)
Lemma createSymlink_unfold (src tgt : string) (w : world) :
  files.createSymlink src tgt w
  = match (if Fs.existsSync (fs w) tgt then Fs.unlink (fs w) tgt
           else Ok (fs w)) with
    | Ok m1 =>
        match Fs.symlink m1 src tgt with
        | Ok m2 => (Ok true, World m2 (out w) (collector w))
        | Throw e =>
            (Ok false,
             World m1 (out w ++ [(Error, files.failure tgt e)]) (collector w))
        end
    | Throw e =>
        (Ok false,
         World (fs w) (out w ++ [(Error, files.failure tgt e)]) (collector w))
    end.
Proof.
  unfold files.createSymlink, try_catch, bind, files.exists_, fs_read, fs_call,
    ret, log. simpl.
  destruct w as [m o c]; simpl.
  destruct (Fs.existsSync m tgt); simpl.
  - destruct (Fs.unlink m tgt) as [m1|e]; simpl; [|reflexivity].
    destruct (Fs.symlink m1 src tgt); reflexivity.
  - destruct (Fs.symlink m src tgt); reflexivity.
Qed.

Lemma createSymlink_collector src tgt w :
  collector (snd (files.createSymlink src tgt w)) = collector w.
Proof.
  rewrite createSymlink_unfold.
  destruct (Fs.existsSync (fs w) tgt); [destruct (Fs.unlink (fs w) tgt)|];
    simpl; try reflexivity;
    match goal with |- context [Fs.symlink ?m _ _] =>
      destruct (Fs.symlink m src tgt) end; reflexivity.
Qed.



Lemma existsSync_lstat m p : Fs.existsSync m p = true -> is_Some (Fs.lstat m p).
Proof.
  unfold Fs.existsSync, Fs.realpath. destruct Fs.symlink_limit; simpl;
    destruct (Fs.lstat m p); eauto; discriminate.
Qed.

Lemma existsSync_absent m p : Fs.lstat m p = None -> Fs.existsSync m p = false.
Proof.
  intros H. destruct (Fs.existsSync m p) eqn:E; [|reflexivity].
  apply existsSync_lstat in E as [? E]. congruence.
Qed.




Lemma createSymlink_true src tgt w :
  fst (files.createSymlink src tgt w) = Ok true ->
  Fs.lstat (fs (snd (files.createSymlink src tgt w))) tgt = Some (Fs.Link src).
Proof.
  rewrite createSymlink_unfold.
  assert (G : forall m m2, Fs.symlink m src tgt = Ok m2 ->
                           Fs.lstat m2 tgt = Some (Fs.Link src)).
  { intros m m2. unfold Fs.symlink.
    destruct (Fs.stat m (Path.dirname tgt)) as [[| |]|]; try discriminate.
    destruct (Fs.lstat m tgt); try discriminate.
    intros [= <-]. unfold Fs.lstat. apply lookup_insert_eq. }
  destruct (Fs.existsSync (fs w) tgt); [destruct (Fs.unlink (fs w) tgt)|];
    simpl; try discriminate;
    match goal with |- context [Fs.symlink ?m _ _] =>
      destruct (Fs.symlink m src tgt) eqn:E end; simpl;
    try discriminate; intros _; eapply G; eauto.
Qed.

End FilesFacts.

(** C3 at a failing input: existsSync follows links, so a broken link at
    the target is not seen and not removed, and creating the new link then
    fails on it. The claim has createSymlink replace a broken link; the
    code returns false and leaves the broken link in place. *)
Lemma C3_broken_link_not_replaced :
  let disk : gmap string Fs.node :=
    list_to_map [("/", Fs.Dir); ("/data", Fs.Dir);
                 ("/res", Fs.File []); ("/data/t", Fs.Link "/gone")] in
  let w := World disk [] (StatsCollector.new 0) in
  fst (files.createSymlink "/res" "/data/t" w) = Ok false
  /\ fs (snd (files.createSymlink "/res" "/data/t" w)) !! "/data/t"
     = Some (Fs.Link "/gone").
Proof. split; vm_compute; reflexivity. Qed.



(** ** Static files and the SQLite probe *)

Module StaticFacts.
Import FileIndexing.

Lemma createSymlink_returns src tgt w :
  exists b, fst (files.createSymlink src tgt w) = Ok b.
Proof.
  rewrite FilesFacts.createSymlink_unfold.
  destruct (Fs.existsSync (fs w) tgt); [destruct (Fs.unlink (fs w) tgt)|];
    simpl; eauto;
    match goal with |- context [Fs.symlink ?m _ _] =>
      destruct (Fs.symlink m src tgt) end; simpl; eauto.
Qed.

Lemma isValidSQLite_probe p w :
  files.isValidSQLite p w = (Ok (files.probe (fs w) p), w).
Proof.
  unfold files.isValidSQLite, files.probe, try_catch, bind, fs_read, ret.
  destruct (Fs.read_head (fs w) p 16); reflexivity.
Qed.

(** processStaticFile in terms of the outcomes of its calls. *)
Lemma processStaticFile_unfold env name src w :
  processStaticFile env name src w
  = let r1 := files.createSymlink src (staticPathOf env name) w in
    match fst r1 with
    | Ok true =>
        if files.probe (fs (snd r1)) src then
          let r2 := files.createSymlink src (sqlitePathOf env name) (snd r1) in
          match fst r2 with
          | Ok true =>
              (Ok tt,
               bump "staticLinked"
                 (bump "sqliteLinked"
                    (say Debug ("📊 SQLite: " +:+ name +:+ ".sqlite") (snd r2))))
          | Ok false => (Ok tt, bump "staticLinked" (snd r2))
          | Throw e => (Throw e, snd r2)
          end
        else (Ok tt, bump "staticLinked" (snd r1))
    | Ok false => (Ok tt, snd r1)
    | Throw e => (Throw e, snd r1)
    end.
Proof.
  unfold processStaticFile, bind. simpl.
  destruct (files.createSymlink src (staticPathOf env name) w) as [[[|]|e] w1];
    simpl; try reflexivity.
  rewrite isValidSQLite_probe.
  destruct (files.probe (fs w1) src); simpl; [|reflexivity].
  destruct (files.createSymlink src (sqlitePathOf env name) w1)
    as [[[|]|e] w2]; reflexivity.
Qed.

Lemma seven_bit b :
  (Byte.to_N b < 128)%N ->
  ascii_of_N (N.land (Byte.to_N b) 127) = ascii_of_byte b.
Proof.
  destruct b; intros H; first [reflexivity | vm_compute in H; discriminate].
Qed.

Lemma ascii_decode_seven_bit l :
  Forall (fun b => (Byte.to_N b < 128)%N) l ->
  ascii_decode l = implode (map ascii_of_byte l).
Proof.
  unfold ascii_decode. intros H. f_equal.
  induction H as [|b l Hb _ IH]; simpl; [reflexivity|].
  by rewrite (seven_bit b Hb), IH.
Qed.

Lemma map_ascii_of_byte_inj l l' :
  map ascii_of_byte l = map ascii_of_byte l' -> l = l'.
Proof.
  revert l'. induction l as [|b l IH]; intros [|b' l'] H; simpl in H;
    try discriminate; [reflexivity|].
  injection H as H1 H2. f_equal; [|by apply IH].
  apply (f_equal byte_of_ascii) in H1.
  by rewrite !byte_of_ascii_of_byte in H1.
Qed.

(** On a buffer of 7-bit bytes the comparison with the header is the
    comparison of the bytes with the signature. *)
Lemma header_seven_bit l :
  Forall (fun b => (Byte.to_N b < 128)%N) l ->
  String.eqb (ascii_decode l) files.sqliteHeader = true -> l = files.signature.
Proof.
  intros H7 E. apply String.eqb_eq in E.
  rewrite (ascii_decode_seven_bit l H7) in E.
  apply map_ascii_of_byte_inj.
  apply (f_equal chars) in E. unfold chars, implode in E.
  rewrite list_ascii_of_string_of_list_ascii in E. rewrite E.
  reflexivity.
Qed.

Lemma zero_fill_full n l : (n <= length l)%nat -> Fs.zero_fill n l = take n l.
Proof.
  intros H. unfold Fs.zero_fill.
  replace (n - length l)%nat with 0%nat by lia. simpl. apply app_nil_r.
Qed.

Lemma probe_signature m p content :
  Fs.stat m p = Some (Fs.File content) ->
  take 16 content = files.signature ->
  files.probe m p = true.
Proof.
  intros Hs Hc. unfold files.probe, Fs.read_head. rewrite Hs.
  rewrite zero_fill_full.
  - rewrite Hc. vm_compute. reflexivity.
  - apply (f_equal length) in Hc. rewrite length_take in Hc.
    change (length files.signature) with 16%nat in Hc. lia.
Qed.

Lemma probe_other m p content :
  Fs.stat m p = Some (Fs.File content) ->
  (16 <= length content)%nat ->
  Forall (fun b => (Byte.to_N b < 128)%N) (take 16 content) ->
  take 16 content <> files.signature ->
  files.probe m p = false.
Proof.
  intros Hs Hlen H7 Hne. unfold files.probe, Fs.read_head. rewrite Hs.
  rewrite zero_fill_full by exact Hlen.
  destruct (String.eqb (ascii_decode (take 16 content)) files.sqliteHeader)
    eqn:E; [|reflexivity].
  exfalso. apply Hne. by apply header_seven_bit.
Qed.

End StaticFacts.

(** C4, as stated, fails: a static file that starts with the signature is
    not linked into the sqlite directory when its link into the static
    directory cannot be made (here the static directory was never created);
    processStaticFile returns before it probes the file. *)
Lemma C4_signature_without_sqlite_link :
  let disk : gmap string Fs.node :=
    list_to_map [("/", Fs.Dir); ("/p", Fs.Dir); ("/p/data", Fs.Dir);
                 ("/p/data/sqlite", Fs.Dir); ("/res", Fs.Dir);
                 ("/res/db", Fs.File files.signature)] in
  let w := World disk [] (StatsCollector.new 0) in
  let w' := snd (FileIndexing.processStaticFile Samples.env "db" "/res/db" w) in
  Fs.stat (fs w) "/res/db" = Some (Fs.File files.signature)
  /\ take 16 files.signature = files.signature
  /\ Fs.lstat (fs w') (FileIndexing.sqlitePathOf Samples.env "db") = None.
Proof. repeat split; vm_compute; reflexivity. Qed.

(** The probe compares after clearing the high bit of every byte: a file
    whose first byte is 0xD3 instead of 0x53 passes it. *)
Lemma isValidSQLite_clears_high_bit :
  let content := Byte.xd3 :: tail files.signature in
  take 16 content <> files.signature
  /\ files.probe (fs (Samples.world_of [("/res/db", Fs.File content)])) "/res/db"
     = true.
Proof. split; [discriminate | vm_compute; reflexivity]. Qed.

(** C4 (amended): when the link into the static directory cannot be made,
    processStaticFile stops there and nothing is linked into the sqlite
    directory. When it is made and the file starts with the 16 bytes of
    the signature, createSymlink is called for the sqlite directory: if it
    succeeds the link is there and sqliteLinked and staticLinked are
    counted, if it fails only staticLinked is. When it is made and the
    first 16 bytes of the file, all below 0x80, differ from the signature,
    the disk is left as the static link left it and only staticLinked is
    counted. *)
Theorem C4_sqlite_link_follows_signature
        (env : Env) (name src : string) (w : world) :
  let static := files.createSymlink src (FileIndexing.staticPathOf env name) w in
  let w1 := snd static in
  let sqlite := files.createSymlink src (FileIndexing.sqlitePathOf env name) w1 in
  let done := FileIndexing.processStaticFile env name src w in
  (fst static = Ok false -> done = (Ok tt, w1))
  /\ (fst static = Ok true ->
      forall content,
        Fs.stat (fs w1) src = Some (Fs.File content) ->
        (take 16 content = files.signature ->
         (fst sqlite = Ok true ->
          done = (Ok tt,
                  bump "staticLinked"
                    (bump "sqliteLinked"
                       (say Debug ("📊 SQLite: " +:+ name +:+ ".sqlite")
                            (snd sqlite))))
          /\ Fs.lstat (fs (snd done)) (FileIndexing.sqlitePathOf env name)
             = Some (Fs.Link src))
         /\ (fst sqlite = Ok false ->
             done = (Ok tt, bump "staticLinked" (snd sqlite))))
        /\ ((16 <= length content)%nat ->
            Forall (fun b => (Byte.to_N b < 128)%N) (take 16 content) ->
            take 16 content <> files.signature ->
            done = (Ok tt, bump "staticLinked" w1))).
Proof.
  intros static w1 sqlite done. subst done sqlite w1 static.
  rewrite StaticFacts.processStaticFile_unfold. cbv zeta.
  destruct (files.createSymlink src (FileIndexing.staticPathOf env name) w)
    as [r1 w1]. simpl.
  split.
  - intros ->. reflexivity.
  - intros -> content Hstat. split.
    + intros Hsig.
      rewrite (StaticFacts.probe_signature _ _ _ Hstat Hsig).
      pose proof (FilesFacts.createSymlink_true src
                    (FileIndexing.sqlitePathOf env name) w1) as Hlink.
      destruct (files.createSymlink src (FileIndexing.sqlitePathOf env name) w1)
        as [r2 w2]. simpl in *.
      split.
      * intros ->. split; [reflexivity|]. simpl. by apply Hlink.
      * intros ->. reflexivity.
    + intros Hlen H7 Hne.
      rewrite (StaticFacts.probe_other _ _ _ Hstat Hlen H7 Hne). reflexivity.
Qed.

Lemma C4_sqlite_link_follows_signature_witness :
  let w := Samples.world_of [("/res/db", Fs.File files.signature)] in
  let static := files.createSymlink "/res/db"
                  (FileIndexing.staticPathOf Samples.env "db") w in
  fst static = Ok true
  /\ Fs.stat (fs (snd static)) "/res/db" = Some (Fs.File files.signature)
  /\ take 16 files.signature = files.signature
  /\ Fs.lstat
       (fs (snd (FileIndexing.processStaticFile Samples.env "db" "/res/db" w)))
       (FileIndexing.sqlitePathOf Samples.env "db")
     = Some (Fs.Link "/res/db").
Proof.
  simpl. split; [vm_compute; reflexivity|]. split; [vm_compute; reflexivity|].
  split; [reflexivity|].
  destruct (C4_sqlite_link_follows_signature Samples.env "db" "/res/db"
              (Samples.world_of [("/res/db", Fs.File files.signature)]))
    as [_ Hmade].
  destruct (Hmade ltac:(vm_compute; reflexivity) files.signature
              ltac:(vm_compute; reflexivity)) as [Hsig _].
  destruct (Hsig eq_refl) as [Hlinked _].
  apply Hlinked. vm_compute. reflexivity.
Defined.

(** ** The manifest scan *)

Module ScanFacts.
Import FileIndexing.

(** processLine in terms of the outcome of the handler. *)
Lemma processLine_unfold env res n line w :
  processLine env res n line w
  = match parseLine line with
    | None => (Ok n, w)
    | Some e =>
        let src := Path.join [res; sourceRelativePath e] in
        if Fs.existsSync (fs (counted w)) src then
          match dispatch env e src (counted w) with
          | (Ok _, w') => (Ok (n + 1), w')
          | (Throw message, w') =>
              (Ok (n + 1), say Warning (handlerWarning e message) w')
          end
        else (Ok (n + 1), counted w)
    end.
Proof.
  unfold processLine. destruct (parseLine line) as [e|]; [|reflexivity].
  unfold bind, stats_increment, stats_get, files.exists_, fs_read, try_catch,
    ret, log, counted. simpl.
  destruct (Z.rem _ 1000 =? 0); simpl;
    (destruct (Fs.existsSync _ _); simpl; [|reflexivity]);
    destruct (dispatch _ _ _ _) as [[[]|message] w']; reflexivity.
Qed.

Lemma fs_counted w : fs (counted w) = fs w.
Proof. unfold counted. simpl. destruct (Z.rem _ 1000 =? 0); reflexivity. Qed.

Lemma collector_counted w :
  collector (counted w)
  = StatsCollector.increment "totalProcessed" 1 (collector w).
Proof. unfold counted. simpl. destruct (Z.rem _ 1000 =? 0); reflexivity. Qed.

(** No line makes the loop throw. *)
Lemma processLine_returns env res n line w :
  exists n' w', processLine env res n line w = (Ok n', w').
Proof.
  rewrite processLine_unfold. destruct (parseLine line) as [e|]; [|eauto].
  cbv zeta. destruct (Fs.existsSync _ _); [|eauto].
  destruct (dispatch _ _ _ _) as [[[]|message] w']; eauto.
Qed.

Lemma scan_returns env res lines n w :
  exists n' w', scan env res lines n w = (Ok n', w').
Proof.
  revert n w. induction lines as [|line rest IH]; intros n w; simpl.
  - unfold ret. eauto.
  - unfold bind.
    destruct (processLine_returns env res n line w) as (n1 & w1 & ->).
    apply IH.
Qed.

Lemma scan_cons env res line rest n w n1 w1 :
  processLine env res n line w = (Ok n1, w1) ->
  scan env res (line :: rest) n w = scan env res rest n1 w1.
Proof. intros H. simpl. unfold bind. rewrite H. reflexivity. Qed.

Lemma scan_app env res l1 l2 n w n1 w1 :
  scan env res l1 n w = (Ok n1, w1) ->
  scan env res (l1 ++ l2) n w = scan env res l2 n1 w1.
Proof.
  revert n w. induction l1 as [|line l1 IH]; intros n w H; simpl in *.
  - unfold ret in H. by injection H as <- <-.
  - unfold bind in *.
    destruct (processLine_returns env res n line w) as (n2 & w2 & E).
    rewrite E in *. by apply IH.
Qed.

End ScanFacts.

(** C1, as stated, fails: the line is counted before the source is looked
    for, so a line whose source is missing still raises totalProcessed. *)
Lemma C1_missing_source_is_counted :
  let w := Samples.world_of [] in
  let line := "res:/ui/icon.png,zz/missing" in
  let w' := snd (FileIndexing.processLine Samples.env "/res" 0 line w) in
  FileIndexing.parseLine line
  = Some (FileIndexing.Build_IndexEntry "res:/ui/" "icon" "png" "zz/missing")
  /\ Fs.existsSync (fs w) (Path.join ["/res"; "zz/missing"]) = false
  /\ StatsCollector.get "totalProcessed" (collector w) = 0
  /\ StatsCollector.get "totalProcessed" (collector w') = 1.
Proof. repeat split; vm_compute; reflexivity. Qed.

(** C1 (amended): for a line that parses to an entry whose source does not
    exist, no handler runs: the disk is untouched and no counter other than
    totalProcessed changes; the line is nevertheless counted, in
    totalProcessed and in the number of entries of the file. *)
Theorem C1_missing_source_skips_handler
        (env : Env) (res line : string) (n : Z) (w : world)
        (e : FileIndexing.IndexEntry) :
  FileIndexing.parseLine line = Some e ->
  Fs.existsSync (fs w)
    (Path.join [res; FileIndexing.sourceRelativePath e]) = false ->
  FileIndexing.processLine env res n line w
  = (Ok (n + 1), FileIndexing.counted w)
  /\ fs (FileIndexing.counted w) = fs w
  /\ StatsCollector.get "totalProcessed" (collector (FileIndexing.counted w))
     = StatsCollector.get "totalProcessed" (collector w) + 1
  /\ forall key, key <> "totalProcessed" ->
       StatsCollector.get key (collector (FileIndexing.counted w))
       = StatsCollector.get key (collector w).
Proof.
  intros Hparse Hmissing.
  rewrite ScanFacts.processLine_unfold, Hparse. cbv zeta.
  rewrite ScanFacts.fs_counted, Hmissing.
  split; [reflexivity|]. split; [reflexivity|].
  rewrite ScanFacts.collector_counted. split.
  - rewrite StatsFacts.get_increment. destruct (decide _); [reflexivity|done].
  - intros key Hkey. rewrite StatsFacts.get_increment.
    destruct (decide _) as [E|]; [|reflexivity]. by symmetry in E.
Qed.

Lemma C1_missing_source_skips_handler_witness :
  let w := Samples.world_of [] in
  let line := "res:/ui/icon.png,zz/missing" in
  let e := FileIndexing.Build_IndexEntry "res:/ui/" "icon" "png" "zz/missing" in
  FileIndexing.parseLine line = Some e
  /\ Fs.existsSync (fs w) (Path.join ["/res"; "zz/missing"]) = false
  /\ FileIndexing.processLine Samples.env "/res" 0 line w
     = (Ok 1, FileIndexing.counted w).
Proof.
  simpl. split; [vm_compute; reflexivity|]. split; [vm_compute; reflexivity|].
  apply (C1_missing_source_skips_handler Samples.env "/res" _ 0 _
           (FileIndexing.Build_IndexEntry "res:/ui/" "icon" "png" "zz/missing"));
    vm_compute; reflexivity.
Defined.

(** C6, as stated, fails in one respect: the catch block only logs. Here
    the schema handler throws (a dangling link sits where the schema
    directory should be made); afterwards the only counter is
    totalProcessed, which every parsed line raises, and no counter records
    the failure. *)
Lemma C6_failure_is_not_counted :
  let w := Samples.world_of
             [("/res/ab", Fs.File []);
              ("/p/data/raw/schema", Fs.Link "/gone")] in
  let line := "res:/x/types.schema,ab" in
  let e := FileIndexing.Build_IndexEntry "res:/x/" "types" "schema" "ab" in
  let w' := snd (FileIndexing.processLine Samples.env "/res" 0 line w) in
  FileIndexing.parseLine line = Some e
  /\ (exists message w1,
        FileIndexing.dispatch Samples.env e "/res/ab" (FileIndexing.counted w)
        = (Throw message, w1))
  /\ StatsCollector.stats (collector w') = {["totalProcessed" := 1]}.
Proof.
  simpl. split; [vm_compute; reflexivity|]. split.
  - eexists _, _. vm_compute. reflexivity.
  - vm_compute. reflexivity.
Qed.

(** C6 (amended): no line makes the scan throw. When the handler of an
    entry throws, processLine catches it, logs one warning that names the
    entry and carries the message, changes no counter on account of the
    failure, and the scan goes on with every line that follows. *)
Theorem C6_handler_failure_does_not_stop_scan
        (env : Env) (res line : string) (rest : list string) (n : Z)
        (w w1 : world) (e : FileIndexing.IndexEntry) (message : string) :
  FileIndexing.parseLine line = Some e ->
  Fs.existsSync (fs w)
    (Path.join [res; FileIndexing.sourceRelativePath e]) = true ->
  FileIndexing.dispatch env e
    (Path.join [res; FileIndexing.sourceRelativePath e])
    (FileIndexing.counted w) = (Throw message, w1) ->
  let w2 := say Warning (FileIndexing.handlerWarning e message) w1 in
  FileIndexing.processLine env res n line w = (Ok (n + 1), w2)
  /\ collector w2 = collector w1
  /\ fs w2 = fs w1
  /\ FileIndexing.scan env res (line :: rest) n w
     = FileIndexing.scan env res rest (n + 1) w2
  /\ exists n' w', FileIndexing.scan env res (line :: rest) n w = (Ok n', w').
Proof.
  intros Hparse Hsrc Hthrow w2.
  assert (Hline : FileIndexing.processLine env res n line w = (Ok (n + 1), w2)).
  { rewrite ScanFacts.processLine_unfold, Hparse. cbv zeta.
    rewrite ScanFacts.fs_counted, Hsrc, Hthrow. reflexivity. }
  split; [exact Hline|]. split; [reflexivity|]. split; [reflexivity|].
  split; [by apply ScanFacts.scan_cons | apply ScanFacts.scan_returns].
Qed.

Lemma C6_handler_failure_does_not_stop_scan_witness :
  let w := Samples.world_of
             [("/res/ab", Fs.File []);
              ("/p/data/raw/schema", Fs.Link "/gone")] in
  let line := "res:/x/types.schema,ab" in
  let next := "res:/fsd/types.fsdbinary,ab" in
  let e := FileIndexing.Build_IndexEntry "res:/x/" "types" "schema" "ab" in
  FileIndexing.parseLine line = Some e
  /\ Fs.existsSync (fs w) "/res/ab" = true
  /\ exists message w1,
      FileIndexing.dispatch Samples.env e "/res/ab" (FileIndexing.counted w)
      = (Throw message, w1)
      /\ FileIndexing.scan Samples.env "/res" [line; next] 0 w
         = FileIndexing.scan Samples.env "/res" [next] 1
             (say Warning (FileIndexing.handlerWarning e message) w1).
Proof.
  intros w line next e.
  assert (Hparse : FileIndexing.parseLine line = Some e)
    by (vm_compute; reflexivity).
  assert (Hsrc : Fs.existsSync (fs w) "/res/ab" = true)
    by (vm_compute; reflexivity).
  assert (Hthrow : exists message w1,
             FileIndexing.dispatch Samples.env e "/res/ab"
               (FileIndexing.counted w) = (Throw message, w1))
    by (eexists _, _; vm_compute; reflexivity).
  split; [exact Hparse|]. split; [exact Hsrc|].
  destruct Hthrow as (message & w1 & Hthrow). exists message, w1.
  split; [exact Hthrow|].
  destruct (C6_handler_failure_does_not_stop_scan Samples.env "/res" line
              [next] 0 w w1 e message Hparse Hsrc Hthrow)
    as (_ & _ & _ & Hscan & _).
  exact Hscan.
Defined.

(** ** The matcher *)

Module RegexFacts.
Import Regex.

Section Quantified.
Context {R : Type} (cl : cclass) (cont : mstate -> list ascii -> option R).





End Quantified.

Lemma pushes_closed cs a : pushes a (MState cs None) = MState cs None.
Proof. induction a as [|c a IH]; simpl; [reflexivity|exact IH]. Qed.

Lemma pushes_open cs acc a :
  pushes a (MState cs (Some acc)) = MState cs (Some (rev a ++ acc)).
Proof.
  revert acc. induction a as [|c a IH]; intros acc; [reflexivity|].
  change (pushes (c :: a) (MState cs (Some acc)))
    with (pushes a (MState cs (Some (c :: acc)))).
  rewrite IH. simpl. by rewrite <- app_assoc.
Qed.

(** A group records what was consumed between its parentheses. *)
Lemma captured cs a :
  close_group (pushes a (open_group (MState cs None))) = MState (cs ++ [a]) None.
Proof.
  unfold open_group. simpl. rewrite pushes_open. unfold close_group. simpl.
  by rewrite app_nil_r, rev_involutive.
Qed.





End RegexFacts.

(** ** The pattern of the manifest *)

Module IndexPattern.
Import Regex FileIndexing.



Lemma implode_chars s : implode (chars s) = s.
Proof. apply string_of_list_ascii_of_string. Qed.



Lemma class_not_inv c x : in_class (CNot c) x = true -> x <> c.
Proof.
  simpl. intros H ->. unfold ascii_eqb in H. by rewrite Ascii.eqb_refl in H.
Qed.















End IndexPattern.

(** Proves that a character is not among those of a string literal. *)
Ltac absent :=
  let H := fresh in
  intros H; repeat (apply elem_of_cons in H as [H|H]; [discriminate|]);
  by apply elem_of_nil in H.

(** Proves that five literals have the well-formed shape, given how the
    logical path and the trailing text satisfy their clauses. *)
Ltac shape dir tr :=
  unfold FileIndexing.well_formed, FileIndexing.without, FileIndexing.one_line;
  split; [dir|]; split; [repeat constructor|];
  split; [discriminate|]; split; [absent|];
  split; [discriminate|]; split; [absent|]; split; [absent|]; split; [absent|];
  split; [discriminate|]; split; [absent|];
  split; [tr | repeat constructor].

(** C2 at a failing input: the first group of the pattern is lazy, so the
    logical path stops at the first place from which the rest can match,
    not at the last separator. On a well-formed line with a dot in a
    directory name the claim has the tuple (res:/a.b/, c, txt, x/y); the
    code cuts at that dot and gives (res:/, a, b/c.txt, x/y). *)
Lemma C2_dot_in_directory_cuts_early :
  FileIndexing.well_formed "res:/a.b/" "c" "txt" "x/y" ""
  /\ FileIndexing.parseLine (FileIndexing.line_of "res:/a.b/" "c" "txt" "x/y" "")
     = Some (FileIndexing.Build_IndexEntry "res:/" "a" "b/c.txt" "x/y").
Proof.
  split; [|vm_compute; reflexivity].
  shape ltac:(right; by exists "res:/a.b") ltac:(by left).
Qed.

(** The same happens with a dot in a physical path that has no separator
    before it and is followed by another field. *)
Lemma dot_in_physical_path_cuts_late :
  FileIndexing.well_formed "res:/a/" "b" "c" "phys.x" ",rest"
  /\ FileIndexing.parseLine
       (FileIndexing.line_of "res:/a/" "b" "c" "phys.x" ",rest")
     = Some (FileIndexing.Build_IndexEntry "res:/a/" "b.c,phys" "x" "rest").
Proof.
  split; [|vm_compute; reflexivity].
  shape ltac:(right; by exists "res:/a") ltac:(right; by exists "rest").
Qed.




(** ** Stellar labels *)

Module StellarFacts.
Import Js Stellar.

Lemma recordLabel_within prefix label known messageId m m' :
  recordLabel prefix label known messageId m = Ok m' ->
  keys_within m known -> keys_within m' known.
Proof.
  unfold recordLabel. intros H Hm.
  apply rbind_ok in H as ([id|] & _ & H).
  - destruct (set_has (JNum id) known) eqn:Hhas; injection H as <-; [|exact Hm].
    intros id' Hsome. destruct (decide (id = id')) as [<-|Hne]; [exact Hhas|].
    rewrite lookup_insert_ne in Hsome by done. by apply Hm.
  - by injection H as <-.
Qed.

Lemma addLabel_within ids acc e acc' :
  addLabel ids acc e = Ok acc' -> within ids acc -> within ids acc'.
Proof.
  destruct e as [messageId entry]. unfold addLabel.
  intros H (Hs & Hc & Hr).
  apply rbind_ok in H as ([label|] & _ & H).
  { apply rbind_ok in H as (m & Hm & H). injection H as <-.
    repeat split; simpl; eauto using recordLabel_within. }
  apply rbind_ok in H as ([label|] & _ & H).
  { apply rbind_ok in H as (m & Hm & H). injection H as <-.
    repeat split; simpl; eauto using recordLabel_within. }
  apply rbind_ok in H as ([label|] & _ & H).
  { apply rbind_ok in H as (m & Hm & H). injection H as <-.
    repeat split; simpl; eauto using recordLabel_within. }
  injection H as <-. by repeat split.
Qed.

Lemma buildMessageIds_within ids mainLocalization m :
  buildMessageIds ids mainLocalization = Ok m -> within ids m.
Proof.
  unfold buildMessageIds. intros H. apply rbind_ok in H as (es & _ & H).
  apply (rfold_invariant (addLabel ids) (fun _ acc => within ids acc) es
           noMessageIds m); [| |exact H].
  - repeat split; intros id [? Hl]; simpl in Hl; by rewrite lookup_empty in Hl.
  - intros done a rest st st' _ Hst Hstep. eapply addLabel_within; eauto.
Qed.

Lemma extractNames_lookup en m id :
  extractNames en m !! id
  = if object_like en then m !! id ≫= localizedName en else None.
Proof.
  unfold extractNames. destruct (object_like en).
  - apply lookup_omap.
  - apply lookup_empty.
Qed.

Lemma extractNames_within en m known :
  keys_within m known -> keys_within (extractNames en m) known.
Proof.
  intros Hm id [n Hn]. rewrite extractNames_lookup in Hn.
  destruct (object_like en); [|discriminate].
  destruct (m !! id) as [messageId|] eqn:E; [|discriminate].
  apply Hm. rewrite E. eauto.
Qed.

End StellarFacts.

(** ** Names of solar systems *)

Module SystemNames.
Import Js Stellar.

Lemma pretty_N_go_not_NaN x s : s <> "NaN" -> pretty_N_go x s <> "NaN".
Proof.
  revert s. induction (N.lt_wf_0 x) as [x _ IH]; intros s Hs.
  assert (x = 0 \/ 0 < x)%N as [->|Hx] by lia.
  - by rewrite pretty_N_go_0.
  - rewrite pretty_N_go_step by done. apply IH.
    { by apply N.div_lt. }
    unfold pretty_N_char. by repeat case_match.
Qed.

Lemma Z_to_string_not_NaN z : Z_to_string z <> "NaN".
Proof.
  unfold Z_to_string, pretty, pretty_Z.
  destruct z as [|p|p]; [discriminate| |discriminate].
  unfold pretty, pretty_positive, pretty, pretty_N.
  destruct (decide (N.pos p = 0%N)); [discriminate|].
  by apply pretty_N_go_not_NaN.
Qed.

(** Different numbers are different property keys. *)
Lemma num_to_string_inj a b : num_to_string a = num_to_string b -> a = b.
Proof.
  destruct a as [|x], b as [|y]; simpl; intros H.
  - reflexivity.
  - symmetry in H. by apply Z_to_string_not_NaN in H.
  - by apply Z_to_string_not_NaN in H.
  - f_equal. unfold Z_to_string in H. by apply (inj pretty).
Qed.

Lemma jsnum_eqb_refl n : jsnum_eqb n n = true.
Proof. destruct n; simpl; [reflexivity|apply Z.eqb_refl]. Qed.

(** [add] keeps what the set has and makes it have what is added. *)
Lemma set_has_add v x s :
  set_has v s = true -> set_has v (set_add x s) = true.
Proof.
  unfold set_add. destruct (set_has x s); [done|].
  unfold set_has. rewrite existsb_app. intros ->. reflexivity.
Qed.

Lemma set_has_add_num n s : set_has (JNum n) (set_add (JNum n) s) = true.
Proof.
  unfold set_add. destruct (set_has (JNum n) s) eqn:E; [exact E|].
  unfold set_has. rewrite existsb_app. simpl.
  rewrite jsnum_eqb_refl. apply orb_true_r.
Qed.

Lemma set_has_add_all v vs s :
  set_has v s = true -> set_has v (set_add_all vs s) = true.
Proof.
  unfold set_add_all. revert s.
  induction vs as [|x vs IH]; intros s H; simpl; [exact H|].
  apply IH. by apply set_has_add.
Qed.

Lemma set_has_add_all_num n vs s :
  JNum n ∈ vs -> set_has (JNum n) (set_add_all vs s) = true.
Proof.
  unfold set_add_all. revert s.
  induction vs as [|x vs IH]; intros s H; simpl.
  - by apply elem_of_nil in H.
  - apply elem_of_cons in H as [<-|H]; [|by apply IH].
    apply (set_has_add_all _ vs). apply set_has_add_num.
Qed.

(** The systems listed in [solarSystems] are among the collected IDs. *)
Lemma collected_systems starMapCache ids solarSystems es e :
  collectIds starMapCache = Ok ids ->
  get starMapCache "solarSystems" = Ok solarSystems ->
  truthy solarSystems = true ->
  entries solarSystems = Ok es ->
  e ∈ es ->
  set_has (JNum (parseInt (fst e))) (allSystemIds ids) = true.
Proof.
  unfold collectIds. intros H Hget Ht Hes He.
  apply rbind_ok in H as (regions & _ & H).
  apply rbind_ok in H as (r & _ & H).
  apply rbind_ok in H as (constellations & _ & H).
  apply rbind_ok in H as (c & _ & H).
  rewrite Hget in H. simpl in H. unfold fromSolarSystems in H.
  rewrite Ht in H. unfold keys in H. rewrite Hes in H. simpl in H.
  injection H as <-. simpl.
  apply set_has_add_all_num. unfold parsed_keys.
  apply list_elem_of_In, in_map_iff. exists (fst e). split; [reflexivity|].
  apply in_map. by apply list_elem_of_In.
Qed.

Lemma names_functional path prefix id id' e :
  names path prefix id e -> names path prefix id' e -> id = id'.
Proof. intros (l & H1 & H2) (l' & H1' & H2'). congruence. Qed.

(** What one entry of the label table does to the map of the systems. *)
Lemma addLabel_systems ids acc key entry acc' :
  addLabel ids acc (key, entry) = Ok acc' ->
  (exists id,
      names "Map/SolarSystems" "solar_system_" id (key, entry)
      /\ systemIdToMessageId acc'
         = if set_has (JNum id) (allSystemIds ids)
           then <[id := parseInt key]> (systemIdToMessageId acc)
           else systemIdToMessageId acc)
  \/ ((forall id, ~ names "Map/SolarSystems" "solar_system_" id (key, entry))
      /\ systemIdToMessageId acc' = systemIdToMessageId acc).
Proof.
  unfold addLabel. intros H.
  apply rbind_ok in H as ([label|] & Hunder & H).
  - apply rbind_ok in H as (m & Hm & H). injection H as <-. simpl.
    unfold recordLabel in Hm. apply rbind_ok in Hm as ([id|] & Hid & Hm).
    + left. exists id. split; [by exists label|].
      destruct (set_has (JNum id) (allSystemIds ids)); by injection Hm as <-.
    + right. injection Hm as <-. split; [|reflexivity].
      intros id (l & H1 & H2). simpl in H1. congruence.
  - right. split.
    { intros id (l & H1 & _). simpl in H1. congruence. }
    apply rbind_ok in H as ([label|] & _ & H).
    { apply rbind_ok in H as (m & _ & H). by injection H as <-. }
    apply rbind_ok in H as ([label|] & _ & H).
    { apply rbind_ok in H as (m & _ & H). by injection H as <-. }
    by injection H as <-.
Qed.

Lemma unnamed_snoc path prefix done e id :
  unnamed path prefix (done ++ [e]) id
  <-> unnamed path prefix done id /\ ~ names path prefix id e.
Proof.
  unfold unnamed. split.
  - intros H. split; [intros e' He'; apply H; in_left | apply H; in_last].
  - intros [H He] e' [He'|He']%elem_of_app; [by apply H|].
    by apply list_elem_of_singleton in He' as ->.
Qed.

Lemma snoc_split {A} (done before after : list A) (e x : A) :
  done ++ [e] = before ++ x :: after ->
  (after = [] /\ before = done /\ x = e)
  \/ exists after', after = after' ++ [e] /\ done = before ++ x :: after'.
Proof.
  intros H. destruct after as [|l after _] using rev_ind.
  - apply app_inj_tail in H as [-> ->]. by left.
  - right. exists after.
    replace (before ++ x :: after ++ [l]) with ((before ++ x :: after) ++ [l])
      in H by (by rewrite <- app_assoc).
    by apply app_inj_tail in H as [-> ->].
Qed.

Lemma systems_invariant_step ids done e acc acc' :
  systems_invariant ids done acc -> addLabel ids acc e = Ok acc' ->
  systems_invariant ids (done ++ [e]) acc'.
Proof.
  intros Hinv Hstep id Hhas. destruct (Hinv id Hhas) as [Hnone Hsome].
  destruct e as [key entry].
  apply addLabel_systems in Hstep as [(id' & Hnames & ->)|[Hnot ->]].
  - split.
    + intros [Hdone He]%unnamed_snoc.
      destruct (set_has (JNum id') (allSystemIds ids)); [|by apply Hnone].
      rewrite lookup_insert_ne; [by apply Hnone|].
      intros ->. contradiction.
    + intros key' (before & entry' & after & Hsplit & Hn & Hafter).
      apply snoc_split in Hsplit as [(-> & -> & [= -> ->])|(after' & -> & ->)].
      * rewrite (names_functional _ _ _ _ _ Hnames Hn), Hhas.
        apply lookup_insert_eq.
      * apply unnamed_snoc in Hafter as [Hafter He].
        assert (Hne : id' <> id) by (intros ->; contradiction).
        destruct (set_has (JNum id') (allSystemIds ids));
          [rewrite lookup_insert_ne by done|];
          apply Hsome; by exists before, entry', after'.
  - split.
    + intros [Hdone _]%unnamed_snoc. by apply Hnone.
    + intros key' (before & entry' & after & Hsplit & Hn & Hafter).
      apply snoc_split in Hsplit as [(-> & -> & [= -> ->])|(after' & -> & ->)].
      * by destruct (Hnot id).
      * apply unnamed_snoc in Hafter as [Hafter _].
        apply Hsome. by exists before, entry', after'.
Qed.

Lemma systems_invariant_end ids mainLocalization table m :
  labelTable mainLocalization = Ok table ->
  buildMessageIds ids mainLocalization = Ok m ->
  systems_invariant ids table m.
Proof.
  unfold buildMessageIds. intros -> H. simpl in H.
  apply (rfold_invariant (addLabel ids) (systems_invariant ids) table
           noMessageIds m); [| |exact H].
  - intros id _. split; [intros _; apply lookup_empty|].
    intros key (before & entry & after & Hsplit & _).
    by destruct before.
  - intros done a rest st st' _ Hst Hstep.
    by apply (systems_invariant_step ids done a st st').
Qed.

Lemma field_or_total data field fallback :
  nullish data = false -> exists v, field_or data field fallback = Ok v.
Proof.
  intros H. unfold field_or.
  destruct (JsFacts.get_total data field H) as [v ->]. simpl. eauto.
Qed.

(** What one system of the starmapcache adds to the output. *)
Lemma buildSystem_spec systemLabels systems e systems' :
  buildSystem systemLabels systems e = Ok systems' ->
  exists sys,
    systems' = <[num_to_string (parseInt (fst e)) := sys]> systems
    /\ systemId sys = parseInt (fst e)
    /\ systemName sys = nameOf systemLabels "System" (parseInt (fst e)).
Proof.
  destruct e as [idStr systemData]. unfold buildSystem. intros H.
  repeat (apply rbind_ok in H as (? & _ & H)).
  injection H as <-. eexists. split; [reflexivity|]. by split.
Qed.

Lemma built_step systemLabels done e systems systems' :
  built systemLabels done systems ->
  buildSystem systemLabels systems e = Ok systems' ->
  built systemLabels (done ++ [e]) systems'.
Proof.
  intros Hdone Hstep e' He'.
  apply buildSystem_spec in Hstep as (sys & -> & Hid & Hname).
  destruct (decide (num_to_string (parseInt (fst e))
                    = num_to_string (parseInt (fst e')))) as [Heq|Hne].
  - exists sys. rewrite Heq, lookup_insert_eq.
    apply num_to_string_inj in Heq. rewrite <- Heq. by repeat split.
  - rewrite lookup_insert_ne by done.
    apply elem_of_app in He' as [He'|He']; [by apply Hdone|].
    apply list_elem_of_singleton in He' as ->. done.
Qed.

Lemma built_end systemLabels es systems :
  rfold (buildSystem systemLabels) es ∅ = Ok systems ->
  built systemLabels es systems.
Proof.
  intros H.
  apply (rfold_invariant (buildSystem systemLabels) (built systemLabels) es
           ∅ systems); [| |exact H].
  - intros e He. by apply elem_of_nil in He.
  - intros done a rest st st' _ Hst Hstep. by eapply built_step.
Qed.

End SystemNames.

(** ** The stellar passes do not throw on well-formed documents *)

Module StellarTotal.
Import Js Stellar.

Lemma entries_total v : nullish v = false -> exists es, entries v = Ok es.
Proof. destruct v; simpl; try discriminate; eauto. Qed.

Lemma truthy_object v : truthy v = true -> nullish v = false.
Proof. destruct v; simpl; congruence. Qed.

Lemma addField_total owner field s :
  id_list owner field -> exists s', addField owner field s = Ok s'.
Proof.
  intros (v & Hv & Hshape). unfold addField. rewrite Hv. simpl.
  destruct Hshape as [->|[items ->]]; simpl; eauto.
Qed.

Lemma collectRegion_total acc r :
  well_formed_region r -> exists acc', collectRegion acc r = Ok acc'.
Proof.
  intros (_ & Hs & Hc). unfold collectRegion.
  destruct (addField_total r "solarSystemIDs" (fst acc) Hs) as [s ->]. simpl.
  destruct (addField_total r "constellationIDs" (snd acc) Hc) as [c ->]. simpl.
  eauto.
Qed.

Lemma rfold_total {A S} (f : S -> A -> result S) (P : A -> Prop) l s :
  (forall st a, P a -> exists st', f st a = Ok st') ->
  Forall P l -> exists s', rfold f l s = Ok s'.
Proof.
  intros Hf H. revert s. induction H as [|a l Ha _ IH]; intros s; simpl.
  - eauto.
  - destruct (Hf s a Ha) as [s1 ->]. simpl. apply IH.
Qed.

Lemma Forall_values {P : jvalue -> Prop} (es : list (string * jvalue)) :
  Forall (fun e => P (snd e)) es -> Forall P (map snd es).
Proof. intros H. induction H; simpl; constructor; auto. Qed.

Lemma fromRegions_total regions :
  (forall es, truthy regions = true -> entries regions = Ok es ->
              Forall (fun e => well_formed_region (snd e)) es) ->
  exists r, fromRegions regions = Ok r.
Proof.
  intros Hall. unfold fromRegions. destruct (truthy regions) eqn:Ht; [|eauto].
  destruct (entries_total regions (truthy_object _ Ht)) as [es Hes].
  unfold keys, values. rewrite Hes. simpl.
  destruct (rfold_total collectRegion well_formed_region (map snd es) ([], []))
    as [sc ->]; [intros; by apply collectRegion_total| |simpl; eauto].
  apply Forall_values. by apply Hall.
Qed.

Lemma fromConstellations_total constellations s c :
  (forall es, truthy constellations = true -> entries constellations = Ok es ->
              Forall (fun e => well_formed_constellation (snd e)) es) ->
  exists r, fromConstellations constellations s c = Ok r.
Proof.
  intros Hall. unfold fromConstellations.
  destruct (truthy constellations) eqn:Ht; [|eauto].
  destruct (entries_total constellations (truthy_object _ Ht)) as [es Hes].
  unfold keys, values. rewrite Hes. simpl.
  destruct (rfold_total collectConstellation well_formed_constellation
              (map snd es) s) as [s2 ->]; [| |simpl; eauto].
  - intros st a (_ & Ha). by apply addField_total.
  - apply Forall_values. by apply Hall.
Qed.

Lemma fromSolarSystems_total solarSystems s :
  exists r, fromSolarSystems solarSystems s = Ok r.
Proof.
  unfold fromSolarSystems. destruct (truthy solarSystems) eqn:Ht; [|eauto].
  destruct (entries_total solarSystems (truthy_object _ Ht)) as [es Hes].
  unfold keys. rewrite Hes. simpl. eauto.
Qed.

Lemma collectIds_total starMapCache :
  well_formed_cache starMapCache -> exists ids, collectIds starMapCache = Ok ids.
Proof.
  intros ((regions & Hr & Hrs) & (constellations & Hc & Hcs)
          & (solarSystems & Hs & _)).
  unfold collectIds. rewrite Hr. simpl.
  destruct (fromRegions_total regions Hrs) as [r ->]. simpl.
  rewrite Hc. simpl.
  destruct (fromConstellations_total constellations (fst (fst r)) (snd (fst r))
              Hcs) as [c ->]. simpl.
  rewrite Hs. simpl.
  destruct (fromSolarSystems_total solarSystems (fst c)) as [s ->]. simpl.
  eauto.
Qed.

Lemma labelTable_total mainLocalization :
  exists table, labelTable mainLocalization = Ok table.
Proof.
  unfold labelTable. destruct (truthy mainLocalization) eqn:Ht; [|eauto].
  destruct (JsFacts.get_total mainLocalization "labels" (truthy_object _ Ht))
    as [labels ->]. simpl.
  destruct (truthy labels) eqn:Hl; [|eauto].
  by apply entries_total, truthy_object.
Qed.

Lemma labelUnder_total entry path :
  nullish entry = false -> exists r, labelUnder entry path = Ok r.
Proof.
  intros H. unfold labelUnder.
  destruct (JsFacts.get_total entry "FullPath" H) as [fp ->]. simpl.
  destruct (is_str fp path); [|eauto].
  destruct (JsFacts.get_total entry "label" H) as [label ->]. simpl. eauto.
Qed.

Lemma recordLabel_total prefix text known messageId m :
  exists m', recordLabel prefix (JStr text) known messageId m = Ok m'.
Proof.
  unfold recordLabel, labelledId.
  destruct (Regex.match_unanchored _ _) as [[|digits rest]|]; simpl; eauto.
  destruct (set_has _ _); eauto.
Qed.

Lemma addLabel_total ids acc e :
  well_formed_label (snd e) -> exists acc', addLabel ids acc e = Ok acc'.
Proof.
  destruct e as [messageId entry]. simpl. intros [Hobj Htext]. unfold addLabel.
  destruct (labelUnder_total entry "Map/SolarSystems" Hobj) as [[l|] H1];
    rewrite H1; simpl.
  { destruct (Htext _ _ H1) as [text ->].
    destruct (recordLabel_total "solar_system_" text (allSystemIds ids)
                messageId (systemIdToMessageId acc)) as [m ->]. simpl. eauto. }
  destruct (labelUnder_total entry "Map/Constellations" Hobj) as [[l|] H2];
    rewrite H2; simpl.
  { destruct (Htext _ _ H2) as [text ->].
    destruct (recordLabel_total "constellation_" text (allConstellationIds ids)
                messageId (constellationIdToMessageId acc)) as [m ->].
    simpl. eauto. }
  destruct (labelUnder_total entry "Map/Regions" Hobj) as [[l|] H3];
    rewrite H3; simpl; [|eauto].
  destruct (Htext _ _ H3) as [text ->].
  destruct (recordLabel_total "region_" text (allRegionIds ids)
              messageId (regionIdToMessageId acc)) as [m ->]. simpl. eauto.
Qed.

Lemma buildMessageIds_total ids mainLocalization :
  well_formed_labels mainLocalization ->
  exists m, buildMessageIds ids mainLocalization = Ok m.
Proof.
  intros Hwf. unfold buildMessageIds.
  destruct (labelTable_total mainLocalization) as [table Htable].
  rewrite Htable. simpl.
  apply (rfold_total (addLabel ids) (fun e => well_formed_label (snd e))).
  - intros st a Ha. by apply addLabel_total.
  - by apply Hwf.
Qed.

Ltac read_field data H :=
  match goal with
  | |- context [field_or data ?f ?d] =>
      destruct (SystemNames.field_or_total data f d H) as [? ->]; simpl
  end.

Lemma buildRegion_total labels regions e :
  nullish (snd e) = false -> exists r, buildRegion labels regions e = Ok r.
Proof.
  destruct e as [idStr d]. simpl. intros H. unfold buildRegion.
  repeat read_field d H. eauto.
Qed.

Lemma buildConstellation_total labels cs e :
  nullish (snd e) = false -> exists r, buildConstellation labels cs e = Ok r.
Proof.
  destruct e as [idStr d]. simpl. intros H. unfold buildConstellation.
  repeat read_field d H. eauto.
Qed.

Lemma buildSystem_total labels ss e :
  nullish (snd e) = false -> exists r, buildSystem labels ss e = Ok r.
Proof.
  destruct e as [idStr d]. simpl. intros H. unfold buildSystem.
  repeat read_field d H.
  destruct (JsFacts.get_total d "star" H) as [star ->]. simpl.
  assert (Hstar : exists v, (if truthy star then get star "id" else Ok JNull)
                            = Ok v).
  { destruct (truthy star) eqn:Ht; [|eauto].
    by apply JsFacts.get_total, truthy_object. }
  destruct Hstar as [v ->]. simpl.
  repeat read_field d H. eauto.
Qed.

Lemma buildAll_total {A} (P : jvalue -> Prop) starMapCache field
      (build : gmap string A -> string * jvalue -> result (gmap string A)) :
  table_of P starMapCache field ->
  (forall st e, P (snd e) -> exists st', build st e = Ok st') ->
  exists r, buildAll starMapCache field build = Ok r.
Proof.
  intros (table & Hget & Hall) Hbuild. unfold buildAll. rewrite Hget. simpl.
  destruct (truthy table) eqn:Ht; [|eauto].
  destruct (entries_total table (truthy_object _ Ht)) as [es Hes].
  rewrite Hes. simpl.
  apply (rfold_total build (fun e => P (snd e))); [exact Hbuild|].
  by apply Hall.
Qed.

(** On a well-formed starmapcache and label table both passes return. *)
Lemma extractStellarLabels_total starMapCache mainLocalization enUsLocalization :
  well_formed_cache starMapCache ->
  well_formed_labels mainLocalization ->
  exists labels,
    extractStellarLabels starMapCache mainLocalization enUsLocalization
    = Ok labels.
Proof.
  intros Hcache Hlabels. unfold extractStellarLabels.
  destruct (collectIds_total starMapCache Hcache) as [ids ->]. simpl.
  destruct (buildMessageIds_total ids mainLocalization Hlabels) as [m ->].
  simpl. eauto.
Qed.

Lemma stellarCartography_total starMapCache mainLocalization enUsLocalization :
  well_formed_cache starMapCache ->
  well_formed_labels mainLocalization ->
  exists r, stellarCartography starMapCache mainLocalization enUsLocalization
            = Ok r.
Proof.
  intros Hcache Hlabels. unfold stellarCartography, extractStellarLabels.
  destruct (collectIds_total starMapCache Hcache) as [ids ->]. simpl.
  destruct (buildMessageIds_total ids mainLocalization Hlabels) as [m ->]. simpl.
  destruct Hcache as (Hr & Hc & Hs). unfold buildStellarData.
  destruct (buildAll_total _ _ _
              (buildRegion (extractNames enUsLocalization (regionIdToMessageId m)))
              Hr) as [rs Hrs].
  { intros st e (He & _). by apply buildRegion_total. }
  destruct (buildAll_total _ _ _
              (buildConstellation
                 (extractNames enUsLocalization (constellationIdToMessageId m)))
              Hc) as [cs Hcs].
  { intros st e (He & _). by apply buildConstellation_total. }
  destruct (buildAll_total _ _ _
              (buildSystem (extractNames enUsLocalization (systemIdToMessageId m)))
              Hs) as [ss Hss].
  { intros st e He. by apply buildSystem_total. }
  simpl. rewrite Hrs. simpl. rewrite Hcs. simpl. rewrite Hss. simpl. eauto.
Qed.

(** The sample documents are well formed. *)
Lemma sample_cache_well_formed : well_formed_cache Samples.starMapCache.
Proof.
  split; [|split]; (eexists; split; [reflexivity|]); intros es _ [= <-].
  - constructor; [|constructor]. split; [reflexivity|].
    split; (eexists; split; [reflexivity|]; right; eauto).
  - constructor; [|constructor]. split; [reflexivity|].
    eexists; split; [reflexivity|]. right; eauto.
  - by repeat constructor.
Qed.

Lemma text_label_well_formed entry text :
  nullish entry = false -> get entry "label" = Ok (JStr text) ->
  well_formed_label entry.
Proof.
  intros Hobj Hlabel. split; [exact Hobj|]. intros path label H.
  unfold labelUnder in H. apply rbind_ok in H as (fullPath & _ & H).
  destruct (is_str fullPath path); [|discriminate].
  rewrite Hlabel in H. destruct text; simpl in H; [discriminate|].
  injection H as <-. eauto.
Qed.

Lemma sample_labels_well_formed : well_formed_labels Samples.mainLocalization.
Proof.
  intros table [= <-].
  constructor; [|constructor; [|constructor]];
    eapply text_label_well_formed; reflexivity.
Qed.

End StellarTotal.

(** ** Where the collected IDs come from *)

Module Provenance.
Import Js Stellar.

Lemma set_add_in (v x : jvalue) s : v ∈ set_add x s -> v ∈ s \/ v = x.
Proof.
  unfold set_add. destruct (set_has x s); [by left|].
  intros [H | H]%elem_of_app; [by left|].
  apply list_elem_of_singleton in H. by right.
Qed.

Lemma set_add_all_in (v : jvalue) vs s :
  v ∈ set_add_all vs s -> v ∈ s \/ v ∈ vs.
Proof.
  unfold set_add_all. revert s. induction vs as [|x vs IH]; intros s H; simpl in H.
  - by left.
  - destruct (IH _ H) as [Hs | Hvs]; [|right; by right].
    apply set_add_in in Hs as [Hs | ->]; [by left|right; by left].
Qed.

Lemma set_has_num_in n s : set_has (JNum n) s = true -> JNum n ∈ s.
Proof.
  unfold set_has. intros H. apply existsb_exists in H as (x & Hx & Heq).
  apply list_elem_of_In in Hx.
  destruct x as [| | |m| | |]; simpl in Heq; try discriminate.
  destruct n as [|a], m as [|b]; simpl in Heq; try discriminate; [done|].
  apply Z.eqb_eq in Heq. by subst.
Qed.

Lemma addField_in owner field s s' v :
  addField owner field s = Ok s' -> v ∈ s' ->
  v ∈ s \/ exists items, get owner field = Ok (JArr items) /\ v ∈ items.
Proof.
  unfold addField. intros H Hv. apply rbind_ok in H as (ids & Hids & H).
  destruct (truthy ids); [|injection H as <-; by left].
  apply rbind_ok in H as (items & Hitems & H). injection H as <-.
  destruct ids; simpl in Hitems; try discriminate. injection Hitems as ->.
  apply set_add_all_in in Hv as [Hv|Hv]; [by left|right; eauto].
Qed.

(** Elements of the sets after a pass over the records [vs]. *)
Definition from_records (vs : list jvalue) (field : string) (v : jvalue) : Prop :=
  exists owner items,
    owner ∈ vs /\ get owner field = Ok (JArr items) /\ v ∈ items.

Lemma from_records_cons owner vs field v :
  from_records vs field v -> from_records (owner :: vs) field v.
Proof. intros (o & items & Ho & H). exists o, items. split; [by right|done]. Qed.

Lemma collectRegion_fold_in vs acc acc' :
  rfold collectRegion vs acc = Ok acc' ->
  (forall v, v ∈ fst acc' ->
             v ∈ fst acc \/ from_records vs "solarSystemIDs" v)
  /\ (forall v, v ∈ snd acc' ->
                v ∈ snd acc \/ from_records vs "constellationIDs" v).
Proof.
  revert acc. induction vs as [|r vs IH]; intros acc H; simpl in H.
  - injection H as <-. split; intros v Hv; by left.
  - apply rbind_ok in H as (acc1 & H1 & H).
    destruct (IH _ H) as [IHs IHc].
    unfold collectRegion in H1.
    apply rbind_ok in H1 as (s1 & Hs1 & H1).
    apply rbind_ok in H1 as (c1 & Hc1 & H1). injection H1 as <-. simpl in *.
    split; intros v Hv.
    + destruct (IHs v Hv) as [Hin|Hin]; [|right; by apply from_records_cons].
      destruct (addField_in _ _ _ _ _ Hs1 Hin) as [?|(items & ? & ?)];
        [by left|right].
      exists r, items. split; [by left|done].
    + destruct (IHc v Hv) as [Hin|Hin]; [|right; by apply from_records_cons].
      destruct (addField_in _ _ _ _ _ Hc1 Hin) as [?|(items & ? & ?)];
        [by left|right].
      exists r, items. split; [by left|done].
Qed.

Lemma collectConstellation_fold_in vs acc acc' v :
  rfold collectConstellation vs acc = Ok acc' -> v ∈ acc' ->
  v ∈ acc \/ from_records vs "solarSystemIDs" v.
Proof.
  revert acc. induction vs as [|c vs IH]; intros acc H Hv; simpl in H.
  - injection H as <-. by left.
  - apply rbind_ok in H as (acc1 & H1 & H).
    destruct (IH _ H Hv) as [Hin|Hin]; [|right; by apply from_records_cons].
    destruct (addField_in _ _ _ _ _ H1 Hin) as [?|(items & ? & ?)];
      [by left|right].
    exists c, items. split; [by left|done].
Qed.

Lemma parsed_keys_in v ks :
  v ∈ parsed_keys ks -> exists k, k ∈ ks /\ v = JNum (parseInt k).
Proof.
  unfold parsed_keys. intros H. apply list_elem_of_In, in_map_iff in H
    as (k & <- & Hk). exists k. split; [by apply list_elem_of_In|done].
Qed.

Lemma listed_of table es field v :
  truthy table = true -> entries table = Ok es ->
  from_records (map snd es) field v -> listed table field v.
Proof.
  intros Ht Hes (owner & items & Ho & Hget & Hv).
  split; [exact Ht|]. by exists es, owner, items.
Qed.

Lemma fromRegions_in regions s c r :
  fromRegions regions = Ok (s, c, r) ->
  (forall v, v ∈ s -> listed regions "solarSystemIDs" v)
  /\ (forall v, v ∈ c -> listed regions "constellationIDs" v)
  /\ (forall v, v ∈ r -> keyed regions v).
Proof.
  unfold fromRegions. destruct (truthy regions) eqn:Ht.
  - intros H. unfold keys, values in H.
    apply rbind_ok in H as (ks & Hks & H).
    apply rbind_ok in Hks as (es & Hes & Hks). injection Hks as <-.
    rewrite Hes in H. simpl in H.
    apply rbind_ok in H as (sc & Hsc & H). injection H as <- <- <-.
    destruct (collectRegion_fold_in _ _ _ Hsc) as [Hs Hc].
    split; [|split]; intros v Hv.
    + destruct (Hs v Hv) as [Hin|Hin]; [by apply elem_of_nil in Hin|].
      by apply (listed_of regions es).
    + destruct (Hc v Hv) as [Hin|Hin]; [by apply elem_of_nil in Hin|].
      by apply (listed_of regions es).
    + apply set_add_all_in in Hv as [Hv|Hv]; [by apply elem_of_nil in Hv|].
      apply parsed_keys_in in Hv as (k & Hk & ->).
      split; [exact Ht|]. by exists es, k.
  - intros [= <- <- <-].
    split; [|split]; intros v Hv; by apply elem_of_nil in Hv.
Qed.

Lemma fromConstellations_in constellations s c s' c' :
  fromConstellations constellations s c = Ok (s', c') ->
  (forall v, v ∈ s' -> v ∈ s \/ listed constellations "solarSystemIDs" v)
  /\ (forall v, v ∈ c' -> v ∈ c \/ keyed constellations v).
Proof.
  unfold fromConstellations. destruct (truthy constellations) eqn:Ht.
  - intros H. unfold keys, values in H.
    apply rbind_ok in H as (ks & Hks & H).
    apply rbind_ok in Hks as (es & Hes & Hks). injection Hks as <-.
    rewrite Hes in H. simpl in H.
    apply rbind_ok in H as (s2 & Hs2 & H). injection H as <- <-.
    split; intros v Hv.
    + destruct (collectConstellation_fold_in _ _ _ v Hs2 Hv) as [?|Hin];
        [by left|right]. by apply (listed_of constellations es).
    + apply set_add_all_in in Hv as [?|Hv]; [by left|right].
      apply parsed_keys_in in Hv as (k & Hk & ->).
      split; [exact Ht|]. by exists es, k.
  - intros [= <- <-]. split; intros v Hv; by left.
Qed.

Lemma fromSolarSystems_in solarSystems s s' v :
  fromSolarSystems solarSystems s = Ok s' -> v ∈ s' ->
  v ∈ s \/ keyed solarSystems v.
Proof.
  unfold fromSolarSystems. destruct (truthy solarSystems) eqn:Ht.
  - intros H Hv. unfold keys in H.
    apply rbind_ok in H as (ks & Hks & H).
    apply rbind_ok in Hks as (es & Hes & Hks). injection Hks as <-.
    injection H as <-.
    apply set_add_all_in in Hv as [?|Hv]; [by left|right].
    apply parsed_keys_in in Hv as (k & Hk & ->).
    split; [exact Ht|]. by exists es, k.
  - intros [= <-] Hv. by left.
Qed.

(** Every collected ID is referred to somewhere in the starmapcache. *)
Lemma collectIds_referenced starMapCache ids :
  collectIds starMapCache = Ok ids ->
  (forall v, v ∈ allSystemIds ids -> system_referenced starMapCache v)
  /\ (forall v, v ∈ allConstellationIds ids ->
                constellation_referenced starMapCache v)
  /\ (forall v, v ∈ allRegionIds ids -> region_referenced starMapCache v).
Proof.
  unfold collectIds. intros H.
  apply rbind_ok in H as (regions & Hr & H).
  apply rbind_ok in H as ([[s1 c1] r1] & H1 & H).
  apply rbind_ok in H as (constellations & Hc & H).
  apply rbind_ok in H as ([s2 c2] & H2 & H).
  apply rbind_ok in H as (solarSystems & Hs & H).
  apply rbind_ok in H as (s3 & H3 & H). injection H as <-. simpl in *.
  destruct (fromRegions_in _ _ _ _ H1) as (R1 & R2 & R3).
  destruct (fromConstellations_in _ _ _ _ _ H2) as (C1 & C2).
  repeat split.
  - intros v Hv. exists regions, constellations, solarSystems.
    repeat split; try done.
    destruct (fromSolarSystems_in _ _ _ _ H3 Hv) as [Hv2|?]; [|by right; right].
    destruct (C1 v Hv2) as [Hv1|?]; [left; by apply R1 | right; by left].
  - intros v Hv. exists regions, constellations. repeat split; try done.
    destruct (C2 v Hv) as [Hv1|?]; [left; by apply R2 | by right].
  - intros v Hv. exists regions. split; [done|by apply R3].
Qed.

End Provenance.

(** C10: extractStellarLabels succeeds on a well-formed starmapcache and
    label table. Whenever it succeeds, the IDs were collected from the
    starmapcache, every key of the three label maps is one of the collected
    IDs of its kind, and so is referred to by the starmapcache: a system by
    a [solarSystemIDs] list of a region or constellation or by a key of
    [solarSystems], a constellation by a [constellationIDs] list of a region
    or by a key of [constellations], a region by a key of [regions]. *)
Theorem C10_label_keys_come_from_starmapcache
        (starMapCache mainLocalization enUsLocalization : Js.jvalue) :
  (Stellar.well_formed_cache starMapCache ->
   Stellar.well_formed_labels mainLocalization ->
   exists labels,
     Stellar.extractStellarLabels starMapCache mainLocalization
       enUsLocalization = Ok labels)
  /\ forall labels,
      Stellar.extractStellarLabels starMapCache mainLocalization
        enUsLocalization = Ok labels ->
      exists ids,
        Stellar.collectIds starMapCache = Ok ids
        /\ Stellar.keys_within (Stellar.systemLabels labels)
             (Stellar.allSystemIds ids)
        /\ Stellar.keys_within (Stellar.constellationLabels labels)
             (Stellar.allConstellationIds ids)
        /\ Stellar.keys_within (Stellar.regionLabels labels)
             (Stellar.allRegionIds ids)
        /\ (forall id, is_Some (Stellar.systemLabels labels !! id) ->
                       Stellar.system_referenced starMapCache (Js.JNum id))
        /\ (forall id, is_Some (Stellar.constellationLabels labels !! id) ->
                       Stellar.constellation_referenced starMapCache (Js.JNum id))
        /\ (forall id, is_Some (Stellar.regionLabels labels !! id) ->
                       Stellar.region_referenced starMapCache (Js.JNum id)).
Proof.
  split; [apply StellarTotal.extractStellarLabels_total|].
  unfold Stellar.extractStellarLabels. intros labels H.
  apply rbind_ok in H as (ids & Hids & H).
  apply rbind_ok in H as (m & Hm & H). injection H as <-.
  exists ids. split; [exact Hids|].
  destruct (StellarFacts.buildMessageIds_within ids mainLocalization m Hm)
    as (Hs & Hc & Hr).
  destruct (Provenance.collectIds_referenced starMapCache ids Hids)
    as (Rs & Rc & Rr).
  pose proof (StellarFacts.extractNames_within enUsLocalization _ _ Hs) as Ks.
  pose proof (StellarFacts.extractNames_within enUsLocalization _ _ Hc) as Kc.
  pose proof (StellarFacts.extractNames_within enUsLocalization _ _ Hr) as Kr.
  simpl. repeat split; try assumption; intros id Hid.
  - by apply Rs, Provenance.set_has_num_in, Ks.
  - by apply Rc, Provenance.set_has_num_in, Kc.
  - by apply Rr, Provenance.set_has_num_in, Kr.
Qed.

Lemma C10_label_keys_come_from_starmapcache_witness :
  let starMapCache := Samples.starMapCache in
  let mainLocalization := Samples.mainLocalization in
  let enUsLocalization := Samples.enUsLocalization in
  Stellar.well_formed_cache starMapCache
  /\ Stellar.well_formed_labels mainLocalization
  /\ exists labels ids,
      Stellar.extractStellarLabels starMapCache mainLocalization
        enUsLocalization = Ok labels
      /\ Stellar.collectIds starMapCache = Ok ids
      /\ Stellar.systemLabels labels !! Js.Num 30 = Some (Js.JStr "Alpha")
      /\ Stellar.systemLabels labels !! Js.Num 99 = None
      /\ Stellar.keys_within (Stellar.systemLabels labels)
           (Stellar.allSystemIds ids)
      /\ Stellar.system_referenced starMapCache (Js.JNum (Js.Num 30)).
Proof.
  intros starMapCache mainLocalization enUsLocalization.
  split; [exact StellarTotal.sample_cache_well_formed|].
  split; [exact StellarTotal.sample_labels_well_formed|].
  destruct (C10_label_keys_come_from_starmapcache starMapCache
              mainLocalization enUsLocalization) as [Htotal Hkeys].
  destruct (Htotal StellarTotal.sample_cache_well_formed
              StellarTotal.sample_labels_well_formed) as [labels Hrun].
  destruct (Hkeys labels Hrun) as (ids & Hids & Hs & _ & _ & Hrs & _).
  exists labels, ids. split; [exact Hrun|]. split; [exact Hids|].
  assert (H30 : Stellar.systemLabels labels !! Js.Num 30
                = Some (Js.JStr "Alpha")).
  { vm_compute in Hrun. injection Hrun as <-. vm_compute. reflexivity. }
  split; [exact H30|]. split; [|split; [exact Hs|]].
  - destruct (Stellar.systemLabels labels !! Js.Num 99) eqn:E; [|reflexivity].
    assert (Hhas : Js.set_has (Js.JNum (Js.Num 99)) (Stellar.allSystemIds ids)
                   = true) by (apply Hs; eauto).
    vm_compute in Hids. injection Hids as <-. vm_compute in Hhas. discriminate.
  - apply Hrs. rewrite H30. eauto.
Defined.

(** C8: the stellar data are produced from a well-formed starmapcache and
    label table. Whenever they are produced, every system listed in
    [solarSystems] has its record under its ID. If no entry of the label
    table names the ID, or the entry that does (the last one, when there
    are several) leads to no usable localization entry, the name is
    "System_" followed by the ID. If it leads to an array whose first
    element is truthy, the name is that first element. *)
Theorem C8_system_names
        (starMapCache mainLocalization enUsLocalization : Js.jvalue)
        (solarSystems : Js.jvalue) (es table : list (string * Js.jvalue)) :
  Js.get starMapCache "solarSystems" = Ok solarSystems ->
  Js.truthy solarSystems = true ->
  Js.entries solarSystems = Ok es ->
  Stellar.labelTable mainLocalization = Ok table ->
  (Stellar.well_formed_cache starMapCache ->
   Stellar.well_formed_labels mainLocalization ->
   exists r,
     Stellar.stellarCartography starMapCache mainLocalization
       enUsLocalization = Ok r)
  /\ forall labels data,
      Stellar.stellarCartography starMapCache mainLocalization
        enUsLocalization = Ok (labels, data) ->
      forall e, e ∈ es ->
        let id := Js.parseInt (fst e) in
        let fallback := Js.JStr ("System_" +:+ Js.num_to_string id) in
        exists sys,
          Stellar.systems data !! Js.num_to_string id = Some sys
          /\ Stellar.systemId sys = id
          /\ (Stellar.unnamed "Map/SolarSystems" "solar_system_" table id ->
              Stellar.systemName sys = fallback)
          /\ (forall key,
                Stellar.messageKey "Map/SolarSystems" "solar_system_" table
                  id key ->
                (Stellar.object_like enUsLocalization = false
                 \/ Stellar.localizedName enUsLocalization (Js.parseInt key)
                    = None ->
                 Stellar.systemName sys = fallback)
                /\ (forall first rest,
                      Stellar.object_like enUsLocalization = true ->
                      Js.get enUsLocalization
                        (Js.num_to_string (Js.parseInt key))
                      = Ok (Js.JArr (first :: rest)) ->
                      Js.truthy first = true ->
                      Stellar.systemName sys = first)).
Proof.
  intros Hget Htruthy Hes Htable.
  split; [apply StellarTotal.stellarCartography_total|].
  intros labels data Hrun e He id fallback.
  unfold Stellar.stellarCartography in Hrun.
  apply rbind_ok in Hrun as (labels' & Hlabels & Hrun).
  apply rbind_ok in Hrun as (data' & Hdata & Hrun).
  injection Hrun as -> ->.
  unfold Stellar.extractStellarLabels in Hlabels.
  apply rbind_ok in Hlabels as (ids & Hids & Hlabels).
  apply rbind_ok in Hlabels as (m & Hm & Hlabels).
  unfold Stellar.buildStellarData in Hdata.
  apply rbind_ok in Hdata as (rs & _ & Hdata).
  apply rbind_ok in Hdata as (cs & _ & Hdata).
  apply rbind_ok in Hdata as (ss & Hss & Hdata).
  injection Hdata as <-. simpl.
  unfold Stellar.buildAll in Hss. rewrite Hget in Hss. simpl in Hss.
  rewrite Htruthy, Hes in Hss. simpl in Hss.
  destruct (SystemNames.built_end _ _ _ Hss e He) as (sys & Hsys & Hid & Hname).
  exists sys. split; [exact Hsys|]. split; [exact Hid|].
  pose proof (SystemNames.collected_systems _ _ _ _ _ Hids Hget Htruthy Hes He)
    as Hhas.
  destruct (SystemNames.systems_invariant_end _ _ _ _ Htable Hm
              (Js.parseInt (fst e)) Hhas) as [Hnone Hsome].
  injection Hlabels as <-. simpl in Hname.
  unfold Stellar.nameOf in Hname.
  rewrite StellarFacts.extractNames_lookup in Hname.
  split.
  - intros Hun. rewrite Hname, (Hnone Hun).
    by destruct (Stellar.object_like enUsLocalization).
  - intros key Hkey. rewrite (Hsome key Hkey) in Hname. simpl in Hname. split.
    + intros [Hobj|Hloc]; rewrite Hname.
      * by rewrite Hobj.
      * rewrite Hloc. by destruct (Stellar.object_like enUsLocalization).
    + intros first rest Hobj Hentry Hfirst.
      rewrite Hname, Hobj. unfold Stellar.localizedName.
      rewrite Hentry, Hfirst. simpl. unfold Js.or_else. by rewrite Hfirst.
Qed.

Lemma C8_system_names_witness :
  exists labels data sys31 sys30,
    Stellar.stellarCartography Samples.starMapCache Samples.mainLocalization
      Samples.enUsLocalization = Ok (labels, data)
    /\ Stellar.unnamed "Map/SolarSystems" "solar_system_"
         [("900", Samples.label30); ("901", Samples.label99)]
         (Js.parseInt "31")
    /\ Stellar.systems data !! "31" = Some sys31
    /\ Stellar.systemName sys31 = Js.JStr "System_31"
    /\ Stellar.messageKey "Map/SolarSystems" "solar_system_"
         [("900", Samples.label30); ("901", Samples.label99)]
         (Js.parseInt "30") "900"
    /\ Stellar.systems data !! "30" = Some sys30
    /\ Stellar.systemName sys30 = Js.JStr "Alpha".
Proof.
  pose (es := [("30", Js.JObj []); ("31", Js.JObj [])]).
  pose (table := [("900", Samples.label30); ("901", Samples.label99)]).
  destruct (C8_system_names Samples.starMapCache Samples.mainLocalization
              Samples.enUsLocalization (Js.JObj es) es table
              eq_refl eq_refl eq_refl eq_refl) as [Htotal Hnames].
  destruct (Htotal StellarTotal.sample_cache_well_formed
              StellarTotal.sample_labels_well_formed) as [[labels data] Hrun].
  assert (Hnone : Stellar.unnamed "Map/SolarSystems" "solar_system_" table
                    (Js.parseInt "31")).
  { intros e He (l & H1 & H2).
    apply elem_of_cons in He as [->|He];
      [|apply list_elem_of_singleton in He as ->];
      vm_compute in H1; injection H1 as <-; vm_compute in H2; discriminate. }
  assert (Hkey : Stellar.messageKey "Map/SolarSystems" "solar_system_" table
                   (Js.parseInt "30") "900").
  { exists [], Samples.label30, [("901", Samples.label99)].
    split; [reflexivity|]. split.
    - exists (Js.JStr "solar_system_30"). split; vm_compute; reflexivity.
    - intros e He. apply list_elem_of_singleton in He as ->.
      intros (l & H1 & H2). vm_compute in H1. injection H1 as <-.
      vm_compute in H2. discriminate. }
  destruct (Hnames labels data Hrun ("31", Js.JObj []))
    as (sys31 & Hsys31 & _ & Hfallback & _).
  { apply elem_of_cons. right. apply elem_of_cons. by left. }
  destruct (Hnames labels data Hrun ("30", Js.JObj []))
    as (sys30 & Hsys30 & _ & _ & Hnamed).
  { apply elem_of_cons. by left. }
  exists labels, data, sys31, sys30. split; [exact Hrun|].
  split; [exact Hnone|]. split; [exact Hsys31|].
  split; [exact (Hfallback Hnone)|].
  split; [exact Hkey|]. split; [exact Hsys30|].
  destruct (Hnamed "900" Hkey) as [_ Hfirst].
  apply (Hfirst (Js.JStr "Alpha") [Js.JNull]); reflexivity.
Defined.

(* ===================================================================== *)
(** * Further properties of the processors *)
(* ===================================================================== *)

(** ** The tables of the type-name extraction *)

Module TypeTablesFacts.
Import Js TypeNames Reading TypeTables.

Lemma field_get v key x : get v key = Ok x -> field v key = x.
Proof. unfold field. by intros ->. Qed.

(** What one turn of the loop does, in terms of the record alone. *)
Lemma types_step_effect st e st' :
  step st e = Ok st' ->
  typeNames st'
  = (if named e then <[idOf e := nameOf e]> (typeNames st) else typeNames st)
  /\ publishedTypes st'
     = (if published e then <[idOf e := nameOf e]> (publishedTypes st)
        else publishedTypes st)
  /\ typesByGroup st'
     = <[groupOf e := default [] (typesByGroup st !! groupOf e) ++ [entryOf e]]>
         (typesByGroup st)
  /\ stats st'
     = (let s1 := StatsCollector.increment "totalTypes" 1 (stats st) in
        let s2 := if named e
                  then StatsCollector.increment "namedTypes" 1 s1 else s1 in
        if published e
        then StatsCollector.increment "publishedTypes" 1 s2 else s2).
Proof.
  destruct e as [typeId typeData]. unfold step. intros H.
  apply rbind_ok in H as (nm & Hnm & H).
  apply rbind_ok in H as (gid & Hgid & H).
  apply rbind_ok in H as (pub & Hpub & H).
  unfold published, named, groupOf, entryOf, nameOf, idOf. simpl.
  rewrite (field_get _ _ _ Hnm), (field_get _ _ _ Hgid), (field_get _ _ _ Hpub).
  destruct (has_name nm) eqn:Hn; simpl in H;
    apply rbind_ok in H as (bp & Hbp & H);
    apply rbind_ok in H as (vol & Hvol & H);
    rewrite (field_get _ _ _ Hbp), (field_get _ _ _ Hvol);
    [rewrite andb_true_r in *|rewrite andb_false_r in *];
    try destruct (is_num pub 1); injection H as <-; simpl; auto.
Qed.

Lemma filter_snoc {A} (f : A -> bool) l x :
  List.filter f (l ++ [x]) = List.filter f l ++ (if f x then [x] else []).
Proof. rewrite List.filter_app. reflexivity. Qed.

Lemma lastName_snoc keep done e key :
  lastName keep (done ++ [e]) key
  = if keep e && String.eqb (idOf e) key then Some (nameOf e)
    else lastName keep done key.
Proof.
  unfold lastName. rewrite filter_snoc.
  destruct (keep e && String.eqb (idOf e) key).
  - rewrite map_app. simpl. apply last_snoc.
  - by rewrite app_nil_r.
Qed.

Lemma members_snoc done e g :
  members (done ++ [e]) g
  = members done g ++ (if String.eqb (groupOf e) g then [entryOf e] else []).
Proof.
  unfold members. rewrite filter_snoc, map_app.
  by destruct (String.eqb (groupOf e) g).
Qed.

Lemma groupAt_members es g : default [] (groupAt es g) = members es g.
Proof. unfold groupAt. by destruct (members es g). Qed.

(** A table that follows [lastName] keeps doing so after one more record. *)
Lemma table_step keep done e (m : gmap string jvalue) :
  (forall key, m !! key = lastName keep done key) ->
  forall key,
    (if keep e then <[idOf e := nameOf e]> m else m) !! key
    = lastName keep (done ++ [e]) key.
Proof.
  intros Hm key. rewrite lastName_snoc.
  destruct (keep e); simpl; [|apply Hm].
  destruct (String.eqb_spec (idOf e) key) as [->|Hne].
  - apply lookup_insert_eq.
  - rewrite lookup_insert_ne by done. apply Hm.
Qed.

Lemma tables_step done e st st' :
  tables done st -> step st e = Ok st' -> tables (done ++ [e]) st'.
Proof.
  intros (Hn & Hp & Hg) Hstep.
  apply types_step_effect in Hstep as (En & Ep & Eg & _). unfold tables.
  rewrite En, Ep, Eg.
  split; [by apply table_step|]. split; [by apply table_step|].
  intros g. unfold groupAt. rewrite members_snoc, Hg, groupAt_members.
  destruct (String.eqb_spec (groupOf e) g) as [->|Hne].
  - rewrite lookup_insert_eq. by destruct (members done g).
  - rewrite lookup_insert_ne by done. rewrite app_nil_r, Hg. reflexivity.
Qed.

Lemma tables_end es now st :
  rfold step es (initial now) = Ok st -> tables es st.
Proof.
  intros H.
  apply (rfold_invariant step tables es (initial now) st); [| |exact H].
  - repeat split; intros; apply lookup_empty.
  - intros done a rest s s' _. apply tables_step.
Qed.

End TypeTablesFacts.

Module TypeCountsFacts.
Import Js TypeNames Reading TypeTables TypeTablesFacts.

Lemma count_snoc {A} (keep : A -> bool) l x :
  count keep (l ++ [x]) = count keep l + (if keep x then 1 else 0).
Proof.
  unfold count. rewrite filter_snoc, length_app.
  destruct (keep x); simpl; lia.
Qed.

Lemma lastName_None keep done key :
  key ∉ map idOf done -> lastName keep done key = None.
Proof.
  intros Hnot. unfold lastName.
  replace (List.filter (fun e => keep e && String.eqb (idOf e) key) done)
    with (@nil (string * jvalue)); [reflexivity|].
  symmetry. induction done as [|e done IH]; [reflexivity|]. simpl.
  destruct (String.eqb_spec (idOf e) key) as [E|_].
  - exfalso. apply Hnot. simpl. rewrite E. left.
  - rewrite andb_false_r. apply IH. intros Hin. apply Hnot. simpl. by right.
Qed.

(** Size of a table that follows [lastName], after one more record. *)
Lemma table_size keep done e (m : gmap string jvalue) :
  (forall key, m !! key = lastName keep done key) ->
  let m' := if keep e then <[idOf e := nameOf e]> m else m in
  Z.of_nat (size m')
  <= Z.of_nat (size m) + (if keep e then 1 else 0)
  /\ (idOf e ∉ map idOf done ->
      Z.of_nat (size m') = Z.of_nat (size m) + (if keep e then 1 else 0)).
Proof.
  intros Hm. simpl. destruct (keep e); [|lia].
  rewrite map_size_insert. split.
  - destruct (m !! idOf e); unfold id; lia.
  - intros Hnew. rewrite Hm, (lastName_None _ _ _ Hnew). lia.
Qed.

Lemma counters_step done e st st' :
  tables done st -> counters done st -> step st e = Ok st' ->
  counters (done ++ [e]) st'.
Proof.
  intros (Tn & Tp & _) (Ht & Hn & Hp & Sn & Sp & Hnd) Hstep.
  apply types_step_effect in Hstep as (En & Ep & _ & Es).
  destruct (table_size named done e _ Tn) as [Ln Qn].
  destruct (table_size published done e _ Tp) as [Lp Qp].
  unfold counters. rewrite En, Ep, Es, !count_snoc, length_app. simpl.
  split; [|split; [|split; [|split; [|split]]]].
  - destruct (named e), (published e);
      rewrite ?StatsFacts.get_increment; repeat case_decide; try done; lia.
  - destruct (named e), (published e);
      rewrite ?StatsFacts.get_increment; repeat case_decide; try done; lia.
  - destruct (named e), (published e);
      rewrite ?StatsFacts.get_increment; repeat case_decide; try done; lia.
  - lia.
  - lia.
  - intros Hall. rewrite map_app in Hall. simpl in Hall.
    apply NoDup_app in Hall as (Hd & Hdisj & _).
    destruct (Hnd Hd) as [<- <-]. split; [apply Qn | apply Qp];
      intros Hin; apply (Hdisj _ Hin); left.
Qed.

Lemma counters_end es now st :
  rfold step es (initial now) = Ok st -> tables es st /\ counters es st.
Proof.
  intros H.
  apply (rfold_invariant step (fun done st => tables done st /\ counters done st)
           es (initial now) st); [| |exact H].
  - split; [repeat split; intros; apply lookup_empty|].
    unfold counters, count. simpl. rewrite !StatsFacts.get_new.
    repeat split; rewrite ?map_size_empty; reflexivity.
  - intros done a rest s s' _ [HT HC] Hs.
    split; [by eapply tables_step | by eapply counters_step].
Qed.




End TypeCountsFacts.

(** X1: when the type-name extraction succeeds, the table of all names
    holds under every ID the name of the last record with that ID that has
    a non-empty name, and nothing under an ID no named record has; the
    published-only table does the same for the records that are moreover
    published; hence every ID of the published-only table is an ID of the
    table of all names. *)
Theorem type_name_tables_keep_last_name
        (types : Js.jvalue) (now : Z) (st : TypeNames.state)
        (es : list (string * Js.jvalue)) :
  TypeNames.runTypeNameExtraction types now = Ok st ->
  Js.entries types = Ok es ->
  (forall key, TypeNames.typeNames st !! key
               = TypeTables.lastName TypeTables.named es key)
  /\ (forall key, TypeNames.publishedTypes st !! key
                  = TypeTables.lastName TypeTables.published es key)
  /\ (forall key, is_Some (TypeNames.publishedTypes st !! key) ->
                  is_Some (TypeNames.typeNames st !! key)).
Proof.
  unfold TypeNames.runTypeNameExtraction. intros H Hes. rewrite Hes in H.
  simpl in H. apply rbind_ok in H as (st0 & Hloop & H). injection H as <-.
  simpl.
  destruct (TypeTablesFacts.tables_end es now st0 Hloop) as (Hn & Hp & _).
  split; [exact Hn|]. split; [exact Hp|].
  intros key. rewrite Hn, Hp. unfold TypeTables.lastName.
  intros [x Hx]. apply last_Some in Hx as [l Hl].
  assert (Hin : x ∈ map TypeTables.nameOf
                  (List.filter (fun e => TypeTables.published e
                                         && String.eqb (TypeTables.idOf e) key) es)).
  { rewrite Hl. in_last. }
  apply list_elem_of_In, in_map_iff in Hin as (e & Hx & He).
  apply List.filter_In in He as [He Hk].
  apply andb_prop in Hk as [Hpub Hk].
  assert (He' : e ∈ List.filter (fun e => TypeTables.named e
                                   && String.eqb (TypeTables.idOf e) key) es).
  { apply list_elem_of_In, List.filter_In. split; [exact He|].
    unfold TypeTables.published in Hpub. apply andb_prop in Hpub as [_ ->].
    exact Hk. }
  revert He'. generalize (List.filter (fun e => TypeTables.named e
                             && String.eqb (TypeTables.idOf e) key) es).
  intros l'. destruct l' as [|e0 l0 _] using rev_ind; intros He'.
  - by apply elem_of_nil in He'.
  - rewrite map_app. simpl. rewrite last_snoc. eauto.
Qed.

Lemma type_name_tables_keep_last_name_witness :
  let record name published :=
    Js.JObj [("typeNameID", Js.JStr name);
             ("published", Js.JNum (Js.Num published));
             ("groupID", Js.JNum (Js.Num 2))] in
  let es := [("5", record "Ore" 1); ("05", record "Ice" 0)] in
  exists st,
    TypeNames.runTypeNameExtraction (Js.JObj es) 0 = Ok st
    /\ TypeNames.typeNames st !! "5" = Some (Js.JStr "Ice")
    /\ TypeNames.publishedTypes st !! "5" = Some (Js.JStr "Ore").
Proof.
  intros record es.
  assert (Hrun : exists st,
             TypeNames.runTypeNameExtraction (Js.JObj es) 0 = Ok st)
    by (eexists; vm_compute; reflexivity).
  destruct Hrun as [st Hrun]. exists st. split; [exact Hrun|].
  destruct (type_name_tables_keep_last_name (Js.JObj es) 0 st es Hrun eq_refl)
    as (Hn & Hp & _).
  split; [rewrite Hn | rewrite Hp]; vm_compute; reflexivity.
Defined.



(** X3: when the type-name extraction succeeds, totalTypes is the number
    of records, namedTypes the number of records with a non-empty name,
    publishedTypes the number of those that are published, and totalGroups
    the number of group lists. The two name tables have at most namedTypes
    and publishedTypes entries, and exactly that many when no two records
    have the same ID. *)
Theorem type_counters_count_records
        (types : Js.jvalue) (now : Z) (st : TypeNames.state)
        (es : list (string * Js.jvalue)) :
  TypeNames.runTypeNameExtraction types now = Ok st ->
  Js.entries types = Ok es ->
  let counter key := StatsCollector.get key (TypeNames.stats st) in
  counter "totalTypes" = Z.of_nat (length es)
  /\ counter "namedTypes" = Reading.count TypeTables.named es
  /\ counter "publishedTypes" = Reading.count TypeTables.published es
  /\ counter "totalGroups" = Z.of_nat (size (TypeNames.typesByGroup st))
  /\ counter "publishedTypes" <= counter "namedTypes" <= counter "totalTypes"
  /\ Z.of_nat (size (TypeNames.typeNames st)) <= counter "namedTypes"
  /\ Z.of_nat (size (TypeNames.publishedTypes st)) <= counter "publishedTypes"
  /\ (NoDup (map TypeTables.idOf es) ->
      Z.of_nat (size (TypeNames.typeNames st)) = counter "namedTypes"
      /\ Z.of_nat (size (TypeNames.publishedTypes st))
         = counter "publishedTypes").
Proof.
  unfold TypeNames.runTypeNameExtraction. intros H Hes. rewrite Hes in H.
  simpl in H. apply rbind_ok in H as (st0 & Hloop & H). injection H as <-.
  simpl.
  destruct (TypeCountsFacts.counters_end es now st0 Hloop)
    as (_ & Ht & Hn & Hp & Sn & Sp & Hnd).
  rewrite !StatsFacts.get_set. repeat case_decide; try done.
  rewrite Ht, Hn, Hp.
  assert (Hle : Reading.count TypeTables.published es
                <= Reading.count TypeTables.named es
                <= Z.of_nat (length es)).
  { unfold Reading.count. clear. induction es as [|e es IH]; simpl; [lia|].
    unfold TypeTables.published at 1.
    destruct (TypeTables.named e); rewrite ?andb_true_r, ?andb_false_r;
      [destruct (Js.is_num _ 1)|]; simpl; lia. }
  repeat split; try lia; by apply Hnd.
Qed.

Lemma type_counters_count_records_witness :
  let record name published :=
    Js.JObj [("typeNameID", Js.JStr name);
             ("published", Js.JNum (Js.Num published));
             ("groupID", Js.JNum (Js.Num 2))] in
  let es := [("5", record "Ore" 1); ("05", record "Ice" 0);
             ("6", record "" 1)] in
  exists st,
    TypeNames.runTypeNameExtraction (Js.JObj es) 0 = Ok st
    /\ StatsCollector.get "totalTypes" (TypeNames.stats st) = 3
    /\ StatsCollector.get "namedTypes" (TypeNames.stats st) = 2
    /\ StatsCollector.get "publishedTypes" (TypeNames.stats st) = 1
    /\ size (TypeNames.typeNames st) = 1%nat.
Proof.
  intros record es.
  assert (Hrun : exists st,
             TypeNames.runTypeNameExtraction (Js.JObj es) 0 = Ok st)
    by (eexists; vm_compute; reflexivity).
  destruct Hrun as [st Hrun]. exists st. split; [exact Hrun|].
  destruct (type_counters_count_records (Js.JObj es) 0 st es Hrun eq_refl)
    as (Ht & Hn & Hp & _).
  split; [rewrite Ht; reflexivity|]. split; [rewrite Hn; reflexivity|].
  split; [rewrite Hp; reflexivity|].
  vm_compute in Hrun. injection Hrun as <-. vm_compute. reflexivity.
Defined.


(** ** The reverse map of the blueprint analysis *)

Module BomTablesFacts.
Import Js Blueprints Reading BomTables TypeTablesFacts.



Lemma reverseOf_usages typeNames key us :
  default [] (usedInBlueprints <$> reverseOf typeNames key us) = us.
Proof. by destruct us. Qed.




(** The materials the loop walks are those [materialsOf] gives. *)
Lemma walked_materials bp m mats matItems :
  manufacturingOf bp = Ok m -> truthy m = true ->
  get m "materials" = Ok mats ->
  as_array "materials.map" (or_else mats (JArr [])) = Ok matItems ->
  materialsOf bp = matItems.
Proof.
  intros Hm Ht Hmats Harr. unfold materialsOf, manufacturing.
  rewrite Hm, Ht, (field_get _ _ _ Hmats).
  destruct (or_else mats (JArr [])); simpl in Harr; try discriminate.
  by injection Harr as ->.
Qed.

Lemma idle_materials bp m :
  manufacturingOf bp = Ok m -> truthy m = false -> materialsOf bp = [].
Proof. intros Hm Ht. unfold materialsOf, manufacturing. by rewrite Hm, Ht. Qed.



End BomTablesFacts.



Module BomCountsFacts.
Import Js Blueprints Reading BomTables TypeTablesFacts TypeCountsFacts
       BomTablesFacts.

(** What one turn of the loop does, apart from the contents of the maps. *)
Lemma bom_step_effect typeNames st e st' :
  step typeNames st e = Ok st' ->
  allBlueprintIds st' = num_set_add (parseInt (fst e)) (allBlueprintIds st)
  /\ stats st'
     = (let s1 := StatsCollector.increment "totalBlueprints" 1 (stats st) in
        if manufactured e
        then StatsCollector.increment "manufacturingBlueprints" 1 s1 else s1)
  /\ (exists bom,
        blueprintToMaterials st'
        = if manufactured e then <[fst e := bom]> (blueprintToMaterials st)
          else blueprintToMaterials st)
  /\ rfold (addUsage typeNames (fst e)) (materialsOf (snd e))
       (materialToBlueprints st, allMaterialIds st)
     = Ok (materialToBlueprints st', allMaterialIds st').
Proof.
  destruct e as [k bp]. unfold step. intros Hstep.
  apply rbind_ok in Hstep as (m & Hm & Hstep).
  unfold manufactured, manufacturing. simpl. rewrite Hm.
  destruct (truthy m) eqn:Htm.
  - apply rbind_ok in Hstep as (mats & Hmats & Hstep).
    apply rbind_ok in Hstep as (prods & Hprods & Hstep).
    apply rbind_ok in Hstep as (bpn & Hbpn & Hstep).
    apply rbind_ok in Hstep as (matItems & HmatItems & Hstep).
    apply rbind_ok in Hstep as (rmats & Hrmats & Hstep).
    apply rbind_ok in Hstep as (prodItems & HprodItems & Hstep).
    apply rbind_ok in Hstep as (rprods & Hrprods & Hstep).
    apply rbind_ok in Hstep as ([uses ids] & Hrev & Hstep).
    injection Hstep as <-. simpl.
    rewrite (walked_materials bp m mats matItems Hm Htm Hmats HmatItems).
    split; [reflexivity|]. split; [reflexivity|]. split; [eauto|exact Hrev].
  - injection Hstep as <-. simpl. rewrite (idle_materials bp m Hm Htm).
    split; [reflexivity|]. split; [reflexivity|].
    split; [exists (Build_Bom JUndef [] []); reflexivity | reflexivity].
Qed.

Lemma jsnum_eqb_eq a b : jsnum_eqb a b = true <-> a = b.
Proof.
  destruct a as [|x], b as [|y]; simpl; split; try done.
  - by intros ->%Z.eqb_eq.
  - intros [= ->]. apply Z.eqb_refl.
Qed.

Lemma num_set_has n s : existsb (jsnum_eqb n) s = true <-> n ∈ s.
Proof.
  rewrite existsb_exists. split.
  - intros (x & Hx & ->%jsnum_eqb_eq). by apply list_elem_of_In.
  - intros H. exists n. split; [by apply list_elem_of_In|by apply jsnum_eqb_eq].
Qed.

Lemma num_set_add_elem n m s : m ∈ num_set_add n s <-> m ∈ s \/ m = n.
Proof.
  unfold num_set_add. destruct (existsb (jsnum_eqb n) s) eqn:E.
  - apply num_set_has in E. split; [by left|]. by intros [?| ->].
  - rewrite elem_of_app, list_elem_of_singleton. reflexivity.
Qed.

Lemma num_set_add_NoDup n s : NoDup s -> NoDup (num_set_add n s).
Proof.
  intros H. unfold num_set_add. destruct (existsb (jsnum_eqb n) s) eqn:E; [done|].
  apply NoDup_app. split; [done|]. split; [|apply NoDup_singleton].
  intros x Hx ->%list_elem_of_singleton.
  apply num_set_has in Hx. congruence.
Qed.

(** Two values the Set takes for the same one are equal. *)
Lemma same_value_zero_eq a b : same_value_zero a b = true -> a = b.
Proof.
  destruct a, b; simpl; try discriminate; intros H; try reflexivity.
  - f_equal. by apply Bool.eqb_prop.
  - f_equal. by apply jsnum_eqb_eq.
  - f_equal. by apply String.eqb_eq.
Qed.

Lemma set_has_elem v s : set_has v s = true -> v ∈ s.
Proof.
  unfold set_has. rewrite existsb_exists.
  intros (x & Hx & <-%same_value_zero_eq). by apply list_elem_of_In.
Qed.

Lemma set_add_length v s :
  length (set_add v s) = if set_has v s then length s else S (length s).
Proof.
  unfold set_add. destruct (set_has v s); [reflexivity|].
  rewrite length_app. simpl. lia.
Qed.

Lemma addUsage_materials typeNames k acc mat acc' :
  materials_invariant acc -> addUsage typeNames k acc mat = Ok acc' ->
  materials_invariant acc'.
Proof.
  destruct acc as [uses ids]. intros [Hkeys Hsize] H. unfold addUsage in H.
  apply rbind_ok in H as (mid & Hmid & H).
  apply rbind_ok in H as (entry & Hentry & H).
  apply rbind_ok in H as (bpn & Hbpn & H).
  apply rbind_ok in H as (q & Hq & H).
  injection H as <-. unfold materials_invariant. simpl in *. split.
  - intros v Hv. rewrite lookup_insert. case_decide as Hne; [eauto|].
    apply Hkeys.
    unfold set_add in Hv. destruct (set_has mid ids); [done|].
    apply elem_of_app in Hv as [Hv|Hv]; [done|].
    apply list_elem_of_singleton in Hv. by subst.
  - rewrite map_size_insert, set_add_length.
    destruct (uses !! to_string mid) eqn:E; unfold id.
    + destruct (set_has mid ids); lia.
    + destruct (set_has mid ids) eqn:Hhas; [|lia].
      apply set_has_elem, Hkeys in Hhas as [? Hhas]. congruence.
Qed.

Lemma addUsage_fold_materials typeNames k mats acc acc' :
  materials_invariant acc -> rfold (addUsage typeNames k) mats acc = Ok acc' ->
  materials_invariant acc'.
Proof.
  revert acc. induction mats as [|mat mats IH]; intros acc Hinv H; simpl in H.
  - by injection H as <-.
  - apply rbind_ok in H as (acc1 & H1 & H).
    eapply IH; [|exact H]. by eapply addUsage_materials.
Qed.

Lemma bom_counters_step typeNames done e st st' :
  bom_counters done st -> step typeNames st e = Ok st' ->
  bom_counters (done ++ [e]) st'.
Proof.
  intros (Hm & Hnd & Hids & Hmat & Hfwd) Hstep.
  apply bom_step_effect in Hstep as (Eids & Es & [bom Eb] & Hfold).
  unfold bom_counters. rewrite Eids, Es, Eb, count_snoc. simpl.
  split; [|split; [|split; [|split]]].
  - destruct (manufactured e);
      rewrite ?StatsFacts.get_increment; repeat case_decide; try done; lia.
  - by apply num_set_add_NoDup.
  - intros n. rewrite num_set_add_elem, Hids. split.
    + intros [(e0 & He0 & <-)| ->].
      * exists e0. split; [in_left|done].
      * exists e. split; [in_last|done].
    + intros (e0 & [He0|He0]%elem_of_app & <-).
      * left. eauto.
      * apply list_elem_of_singleton in He0 as ->. by right.
  - by eapply addUsage_fold_materials.
  - destruct (manufactured e); [|lia].
    rewrite map_size_insert.
    destruct (blueprintToMaterials st !! fst e); unfold id; lia.
Qed.

Lemma bom_counters_end typeNames es now st :
  rfold (step typeNames) es (initial now) = Ok st -> bom_counters es st.
Proof.
  intros H.
  apply (rfold_invariant (step typeNames) bom_counters es (initial now) st);
    [| |exact H].
  - unfold bom_counters, materials_invariant, count. simpl.
    rewrite StatsFacts.get_new, !map_size_empty.
    split; [reflexivity|]. split; [constructor|]. split; [|split; [split|]].
    + intros n. split; [by intros ?%elem_of_nil|].
      by intros (e & ?%elem_of_nil & _).
    + by intros v ?%elem_of_nil.
    + simpl. lia.
    + lia.
  - intros done a rest s s' _. apply bom_counters_step.
Qed.

End BomCountsFacts.

(** X6: when the blueprint analysis succeeds, manufacturingBlueprints is
    the number of records with a manufacturing activity and bounds the
    number of entries of the forward map; uniqueBlueprints is the number
    of blueprint IDs kept, which are without repetition the numbers the
    keys of the document parse to; uniqueMaterials is the number of
    material IDs kept, every one of which has its entry in the reverse
    map, and the reverse map has no more entries than that. *)
Theorem blueprint_counters_count_records
        (blueprints typeNames : Js.jvalue) (now : Z) (st : Blueprints.state)
        (es : list (string * Js.jvalue)) :
  Blueprints.runBlueprintAnalysis blueprints typeNames now = Ok st ->
  Js.entries blueprints = Ok es ->
  let counter key := StatsCollector.get key (Blueprints.stats st) in
  counter "manufacturingBlueprints"
  = Reading.count BomTables.manufactured es
  /\ Z.of_nat (size (Blueprints.blueprintToMaterials st))
     <= counter "manufacturingBlueprints"
  /\ counter "uniqueBlueprints"
     = Z.of_nat (length (Blueprints.allBlueprintIds st))
  /\ NoDup (Blueprints.allBlueprintIds st)
  /\ (forall n, n ∈ Blueprints.allBlueprintIds st
                <-> exists e, e ∈ es /\ Js.parseInt (fst e) = n)
  /\ counter "uniqueMaterials"
     = Z.of_nat (length (Blueprints.allMaterialIds st))
  /\ (forall v, v ∈ Blueprints.allMaterialIds st ->
                is_Some (Blueprints.materialToBlueprints st
                           !! Js.to_string v))
  /\ Z.of_nat (size (Blueprints.materialToBlueprints st))
     <= counter "uniqueMaterials".
Proof.
  unfold Blueprints.runBlueprintAnalysis. intros H Hes. rewrite Hes in H.
  simpl in H. apply rbind_ok in H as (st0 & Hloop & H). injection H as <-.
  simpl.
  destruct (BomCountsFacts.bom_counters_end typeNames es now st0 Hloop)
    as (Hm & Hnd & Hids & [Hkeys Hsize] & Hfwd).
  rewrite !StatsFacts.get_set. repeat case_decide; try done.
  rewrite Hm. simpl in *. repeat split; try done; try lia; apply Hids.
Qed.

Lemma blueprint_counters_count_records_witness :
  let uses typeID :=
    Js.JObj [("typeID", typeID); ("quantity", Samples.num 1)] in
  let blueprint materials :=
    Js.JObj [("activities",
              Js.JObj [("manufacturing",
                        Js.JObj [("materials", Js.JArr materials)])])] in
  let es := [("8", blueprint [uses (Samples.num 34); uses (Js.JStr "34")]);
             ("7", Js.JObj []);
             ("08", blueprint [uses (Samples.num 34)])] in
  exists st,
    Blueprints.runBlueprintAnalysis (Js.JObj es) Samples.typeNameTable 0 = Ok st
    /\ StatsCollector.get "manufacturingBlueprints" (Blueprints.stats st) = 2
    /\ StatsCollector.get "uniqueBlueprints" (Blueprints.stats st) = 2
    /\ StatsCollector.get "uniqueMaterials" (Blueprints.stats st) = 2
    /\ size (Blueprints.materialToBlueprints st) = 1%nat.
Proof.
  intros uses blueprint es.
  assert (Hrun : exists st,
             Blueprints.runBlueprintAnalysis (Js.JObj es) Samples.typeNameTable 0
             = Ok st)
    by (eexists; vm_compute; reflexivity).
  destruct Hrun as [st Hrun]. exists st. split; [exact Hrun|].
  destruct (blueprint_counters_count_records (Js.JObj es) Samples.typeNameTable
              0 st es Hrun eq_refl) as (Hm & _ & Hb & _ & _ & Hu & _).
  split; [rewrite Hm; reflexivity|].
  vm_compute in Hrun. injection Hrun as <-.
  repeat split; vm_compute; reflexivity.
Defined.

(** ** What the handlers of the manifest scan count *)

Module HandlerFacts.
Import FileIndexing Manifest.

(** pickle.convertToJson, with its try/catch unfolded. *)
Lemma convertToJson_unfold env p j w :
  pickle.convertToJson env p j w
  = let failed message :=
      (Ok false,
       say Error ("Error converting " +:+ p +:+ " to JSON: " +:+ message) w) in
    match Fs.readFile (fs w) p with
    | Ok bytes =>
        match parse_pickle env bytes with
        | Ok data =>
            match Fs.writeFile (fs w) j
                    (json_stringify env (pickle.unwrap data)) with
            | Ok m =>
                (Ok true,
                 say Debug ("✓ Converted " +:+ p +:+ " to JSON")
                   (World m (out w) (collector w)))
            | Throw message => failed message
            end
        | Throw message => failed message
        end
    | Throw message => failed message
    end.
Proof.
  unfold pickle.convertToJson, try_catch, bind, fs_read, fs_call, log, ret.
  destruct w as [m o c]. simpl.
  destruct (Fs.readFile m p) as [bytes|e]; simpl; [|reflexivity].
  destruct (parse_pickle env bytes) as [data|e]; simpl; [|reflexivity].
  destruct (Fs.writeFile m j _) as [m'|e]; reflexivity.
Qed.

Lemma convertToJson_returns env p j w :
  exists b, fst (pickle.convertToJson env p j w) = Ok b
            /\ collector (snd (pickle.convertToJson env p j w)) = collector w.
Proof.
  rewrite convertToJson_unfold. cbv zeta.
  destruct (Fs.readFile (fs w) p) as [bytes|e]; [|simpl; eauto].
  destruct (parse_pickle env bytes) as [data|e]; [|simpl; eauto].
  destruct (Fs.writeFile (fs w) j _) as [m'|e]; simpl; eauto.
Qed.

(** processPickleFile in terms of the outcomes of its two calls. *)
Lemma processPickleFile_unfold env name src w :
  let link := Path.join [projectRoot env; "data/pickle"; name +:+ ".pickle"] in
  let json := Path.join [projectRoot env; "data/json"; name +:+ ".json"] in
  let r1 := files.createSymlink src link w in
  let r2 := pickle.convertToJson env link json (snd r1) in
  processPickleFile env name src w
  = match fst r1, fst r2 with
    | Ok true, Ok true =>
        (Ok tt,
         say Debug ("✓ Converted " +:+ name +:+ ".pickle to JSON")
           (bump "pickleConverted" (snd r2)))
    | Ok true, _ => (Ok tt, bump "pickleErrors" (snd r2))
    | _, _ => (Ok tt, snd r1)
    end.
Proof.
  intros link json r1 r2. unfold processPickleFile, bind. fold link json.
  destruct (StaticFacts.createSymlink_returns src link w) as [b1 Hb1].
  subst r2 r1. destruct (files.createSymlink src link w) as [x1 w1].
  simpl in *. subst x1. destruct b1; [|reflexivity]. simpl.
  unfold try_catch, bind.
  destruct (convertToJson_returns env link json w1) as (b2 & Hb2 & _).
  destruct (pickle.convertToJson env link json w1) as [x2 w2].
  simpl in *. subst x2. by destruct b2.
Qed.

(** A handler of the form: link, then count when linked. *)
Lemma link_and_count key src link (after : M unit) w :
  (forall w0, after w0 = (Ok tt, snd (after w0))) ->
  (forall w0, collector (snd (after w0)) = collector w0) ->
  (forall w0, fs (snd (after w0)) = fs w0) ->
  let r := (linked <~ files.createSymlink src link ;;
            if linked then stats_increment key ;;; after else ret tt)%world w in
  fst r = Ok tt
  /\ ((fst (files.createSymlink src link w) = Ok true
       /\ collector (snd r) = StatsCollector.increment key 1 (collector w)
       /\ Fs.lstat (fs (snd r)) link = Some (Fs.Link src))
      \/ (fst (files.createSymlink src link w) = Ok false
          /\ collector (snd r) = collector w)).
Proof.
  intros Hok Hcol Hfs r. subst r. unfold bind.
  destruct (StaticFacts.createSymlink_returns src link w) as [b Hb].
  pose proof (FilesFacts.createSymlink_collector src link w) as Hc.
  pose proof (FilesFacts.createSymlink_true src link w) as Hl.
  destruct (files.createSymlink src link w) as [x w1]. simpl in *. subst x.
  destruct b; simpl.
  - unfold stats_increment. rewrite Hok. simpl. split; [reflexivity|]. left.
    rewrite Hcol, Hfs. simpl. rewrite Hc. split; [reflexivity|].
    split; [reflexivity|]. by apply Hl.
  - unfold ret. simpl. split; [reflexivity|]. right. by split.
Qed.

End HandlerFacts.

(** ** Writing a file and reading it back *)

Module WriteFacts.

(** Where a write lands there is no link. *)
Lemma write_target_end fuel m p q :
  Fs.write_target fuel m p = Some q ->
  forall t, m !! q <> Some (Fs.Link t).
Proof.
  revert p. induction fuel as [|fuel IH]; intros p; simpl;
    destruct (Fs.lstat m p) as [[c| |t0]|] eqn:E;
    try discriminate;
    try (intros [= Hk] t; subst q; unfold Fs.lstat in E; congruence).
  apply IH.
Qed.

Lemma follow_after_write fuel m p q content :
  Fs.write_target fuel m p = Some q ->
  (forall t, m !! q <> Some (Fs.Link t)) ->
  Fs.follow fuel (<[q := Fs.File content]> m) p = Some q.
Proof.
  intros H Hq. revert p H. induction fuel as [|fuel IH]; intros p; simpl;
    destruct (Fs.lstat m p) as [[c| |t0]|] eqn:E; try discriminate;
    try (intros [= Hk]; subst q; unfold Fs.lstat; by rewrite lookup_insert_eq).
  intros H. unfold Fs.lstat in *.
  rewrite lookup_insert_ne; [rewrite E; by apply IH|].
  intros Hk. subst q. by apply (Hq t0).
Qed.

Lemma read_after_write m p content m' :
  Fs.writeFile m p content = Ok m' -> Fs.readFile m' p = Ok content.
Proof.
  unfold Fs.writeFile.
  destruct (Fs.write_target Fs.symlink_limit m p) as [q|] eqn:Hq;
    [|discriminate].
  pose proof (write_target_end _ _ _ _ Hq) as Hend.
  assert (G : Fs.readFile (<[q := Fs.File content]> m) p = Ok content).
  { unfold Fs.readFile, Fs.stat, Fs.realpath.
    rewrite (follow_after_write _ _ _ _ content Hq Hend).
    by rewrite lookup_insert_eq. }
  destruct (m !! q) as [[c| |t]|]; try discriminate.
  - by intros [= <-].
  - by destruct (Hend t).
  - destruct (Fs.stat m (Path.dirname q)) as [[| |]|]; try discriminate.
    by intros [= <-].
Qed.

End WriteFacts.

Module LinkFacts.
Import FileIndexing Manifest Handlers HandlerFacts.

Lemma counts_link_of key src link after w :
  (forall w0, after w0 = (Ok tt, snd (after w0))) ->
  (forall w0, collector (snd (after w0)) = collector w0) ->
  (forall w0, fs (snd (after w0)) = fs w0) ->
  counts_link key link src w
    ((linked <~ files.createSymlink src link ;;
      if linked then stats_increment key ;;; after else ret tt)%world w).
Proof.
  intros H1 H2 H3.
  destruct (link_and_count key src link after w H1 H2 H3) as [Hok Hcases].
  unfold counts_link. rewrite Hok.
  destruct Hcases as [(_ & Hc & Hl)|[_ Hc]]; [left|right]; done.
Qed.

Lemma counts_link_plain key src link w :
  counts_link key link src w
    ((linked <~ files.createSymlink src link ;;
      if linked then stats_increment key else ret tt)%world w).
Proof.
  pose proof (counts_link_of key src link (ret tt) w
                ltac:(reflexivity) ltac:(reflexivity) ltac:(reflexivity)) as H.
  unfold counts_link in *. unfold bind in *.
  destruct (files.createSymlink src link w) as [[[|]|e] w1]; exact H.
Qed.

(** A handler that first makes the directory of its link. *)
Lemma counts_link_mkdir key src link dir w :
  counts_link key link src w
    ((present <~ files.exists_ dir ;;
      (if negb present then fs_call (fun m => Fs.mkdirSync m dir)
       else ret tt) ;;;
      linked <~ files.createSymlink src link ;;
      if linked then stats_increment key else ret tt)%world w).
Proof.
  assert (G : forall w0, collector w0 = collector w ->
              counts_link key link src w
                ((linked <~ files.createSymlink src link ;;
                  if linked then stats_increment key else ret tt)%world w0)).
  { intros w0 Hc.
    destruct (link_and_count key src link (ret tt) w0
                ltac:(reflexivity) ltac:(reflexivity) ltac:(reflexivity))
      as [Hok Hcases].
    unfold counts_link. unfold bind in *.
    destruct (files.createSymlink src link w0) as [[[|]|e] w1];
      simpl in *; try discriminate;
      destruct Hcases as [(H1 & H2 & H3)|[H1 H2]]; try discriminate;
      rewrite <- Hc; [left|right]; done. }
  unfold bind at 1. unfold files.exists_, fs_read. simpl.
  destruct (Fs.existsSync (fs w) dir); simpl.
  - unfold bind at 1. unfold ret at 1. by apply G.
  - unfold bind at 1. unfold fs_call.
    destruct (Fs.mkdirSync (fs w) dir) as [m|e]; [|reflexivity].
    by apply G.
Qed.

Lemma handlers_count_links env filename filetype respath sourcePath w :
  counts_link "fsdbinaryLinked"
    (Path.join [projectRoot env; "data/fsdbinary"; filename +:+ ".fsdbinary"])
    sourcePath w (processFSDBinaryFile env filename sourcePath w)
  /\ fst (processFSDBinaryFile env filename sourcePath w) = Ok tt
  /\ counts_link "schemaLinked"
       (Path.join [projectRoot env; "data/raw"; "schema";
                   filename +:+ ".schema"])
       sourcePath w (processSchemaFile env filename sourcePath w)
  /\ counts_link "otherLinked"
       (Path.join [Path.join [projectRoot env; "data/raw"; cleanPath respath];
                   filename +:+ "." +:+ filetype])
       sourcePath w
       (processOtherFile env filename filetype sourcePath respath w).
Proof.
  split; [|split; [|split]].
  - apply (counts_link_of "fsdbinaryLinked" sourcePath _
             (log Debug ("📦 FSDBinary: " +:+ filename +:+ ".fsdbinary")));
      reflexivity.
  - unfold processFSDBinaryFile.
    apply (link_and_count "fsdbinaryLinked" sourcePath _
             (log Debug ("📦 FSDBinary: " +:+ filename +:+ ".fsdbinary")));
      reflexivity.
  - apply counts_link_mkdir.
  - apply counts_link_mkdir.
Qed.

Lemma processPickleFile_collector env name src w :
  let c' := collector (snd (processPickleFile env name src w)) in
  c' = collector w
  \/ c' = StatsCollector.increment "pickleConverted" 1 (collector w)
  \/ c' = StatsCollector.increment "pickleErrors" 1 (collector w).
Proof.
  intros c'. subst c'. rewrite processPickleFile_unfold. cbv zeta.
  set (link := Path.join [projectRoot env; "data/pickle"; name +:+ ".pickle"]).
  set (json := Path.join [projectRoot env; "data/json"; name +:+ ".json"]).
  pose proof (FilesFacts.createSymlink_collector src link w) as Hc1.
  destruct (convertToJson_returns env link json
              (snd (files.createSymlink src link w))) as (b2 & Hb2 & Hc2).
  destruct (fst (files.createSymlink src link w)) as [[|]|e];
    [|by left|by left].
  rewrite Hb2. destruct b2; simpl; rewrite Hc2, Hc1; auto.
Qed.

End LinkFacts.


(** X8: pickle.convertToJson never throws and leaves the counters alone.
    When it returns true, the pickle file was read and parsed and the JSON
    file, read back, holds the rendering of the parsed value, or of its
    second element when the value is an array whose second element is an
    array or an object; one debug line was logged. When it returns false,
    the disk is as it was and one error line names the pickle file. *)
Theorem pickle_conversion_writes_or_reports
        (env : Env) (pickleFilePath jsonFilePath : string) (w : world) :
  let r := pickle.convertToJson env pickleFilePath jsonFilePath w in
  collector (snd r) = collector w
  /\ ((fst r = Ok true
       /\ (exists bytes data,
             Fs.readFile (fs w) pickleFilePath = Ok bytes
             /\ parse_pickle env bytes = Ok data
             /\ Fs.readFile (fs (snd r)) jsonFilePath
                = Ok (json_stringify env (pickle.unwrap data)))
       /\ out (snd r)
          = out w ++ [(Debug, "✓ Converted " +:+ pickleFilePath +:+ " to JSON")])
      \/ (fst r = Ok false
          /\ fs (snd r) = fs w
          /\ exists message,
              out (snd r)
              = out w ++ [(Error, "Error converting " +:+ pickleFilePath
                                    +:+ " to JSON: " +:+ message)])).
Proof.
  intros r. subst r. rewrite HandlerFacts.convertToJson_unfold. cbv zeta.
  destruct (Fs.readFile (fs w) pickleFilePath) as [bytes|e] eqn:Hread;
    [|split; [reflexivity|right]; simpl; eauto].
  destruct (parse_pickle env bytes) as [data|e] eqn:Hparse;
    [|split; [reflexivity|right]; simpl; eauto].
  destruct (Fs.writeFile (fs w) jsonFilePath _) as [m|e] eqn:Hwrite;
    [|split; [reflexivity|right]; simpl; eauto].
  split; [reflexivity|left]. simpl. split; [reflexivity|].
  split; [|reflexivity]. exists bytes, data.
  split; [reflexivity|]. split; [exact Hparse|].
  by apply (WriteFacts.read_after_write (fs w)).
Qed.

(** X9: processPickleFile never throws. When the link to the pickle file
    cannot be made, it stops there. When the link is made, the conversion
    is tried and exactly one of pickleConverted and pickleErrors grows by
    one, according to what pickle.convertToJson returns; the handler adds a
    debug line of its own after a conversion and nothing after a failure,
    so its catch block, which would log and count too, is never entered. *)
Theorem pickle_handler_counts_once
        (env : Env) (filename sourcePath : string) (w : world) :
  let link :=
    Path.join [projectRoot env; "data/pickle"; filename +:+ ".pickle"] in
  let json := Path.join [projectRoot env; "data/json"; filename +:+ ".json"] in
  let r1 := files.createSymlink sourcePath link w in
  let r2 := pickle.convertToJson env link json (snd r1) in
  let r := FileIndexing.processPickleFile env filename sourcePath w in
  fst r = Ok tt
  /\ (fst r1 = Ok false -> snd r = snd r1 /\ collector (snd r) = collector w)
  /\ (fst r1 = Ok true ->
      exists converted,
        fst r2 = Ok converted
        /\ snd r
           = (if converted
              then say Debug ("✓ Converted " +:+ filename +:+ ".pickle to JSON")
                     (bump "pickleConverted" (snd r2))
              else bump "pickleErrors" (snd r2))
        /\ collector (snd r)
           = StatsCollector.increment
               (if converted then "pickleConverted" else "pickleErrors") 1
               (collector w)).
Proof.
  intros link json r1 r2 r. subst r.
  rewrite HandlerFacts.processPickleFile_unfold. fold link json r1 r2.
  destruct (StaticFacts.createSymlink_returns sourcePath link w) as [b1 Hb1].
  pose proof (FilesFacts.createSymlink_collector sourcePath link w) as Hc1.
  fold r1 in Hb1, Hc1.
  destruct (HandlerFacts.convertToJson_returns env link json (snd r1))
    as (b2 & Hb2 & Hc2).
  fold r2 in Hb2, Hc2. rewrite Hb1. destruct b1.
  - rewrite Hb2. split; [by destruct b2|]. split; [discriminate|].
    intros _. exists b2. split; [reflexivity|].
    destruct b2; simpl; rewrite Hc2, Hc1; by split.
  - split; [reflexivity|]. split; [by intros _|discriminate].
Qed.

(** ** What a scan of the manifest counts *)

Module ScanCounts.
Import FileIndexing Manifest Handlers.

Lemma counts_link_effect key link src w r :
  key ∈ categories -> counts_link key link src w r ->
  handler_effect (collector w) (collector (snd r)).
Proof.
  unfold counts_link. intros Hkey H.
  destruct (fst r) as [[]|e].
  - destruct H as [[-> _]| ->]; [right; left; eauto | by left].
  - rewrite H. by left.
Qed.

Ltac category := unfold categories; repeat first [by left | right].

Lemma dispatch_effect env e src w :
  handler_effect (collector w) (collector (snd (dispatch env e src w))).
Proof.
  unfold dispatch.
  destruct (String.eqb (filetype e) "pickle").
  { destruct (LinkFacts.processPickleFile_collector env (filename e) src w)
      as [-> | [-> | ->]]; [by left | |]; right; left; eexists;
      (split; [|reflexivity]); category. }
  destruct (String.eqb (filetype e) "static").
  { rewrite StaticFacts.processStaticFile_unfold. cbv zeta.
    pose proof (FilesFacts.createSymlink_collector src
                  (staticPathOf env (filename e)) w) as Hc1.
    destruct (files.createSymlink src (staticPathOf env (filename e)) w)
      as [[[|]|m] w1]; simpl in *; try (rewrite Hc1; by left).
    destruct (files.probe (fs w1) src).
    - pose proof (FilesFacts.createSymlink_collector src
                    (sqlitePathOf env (filename e)) w1) as Hc2.
      destruct (files.createSymlink src (sqlitePathOf env (filename e)) w1)
        as [[[|]|m] w2]; simpl in *; rewrite Hc2, Hc1.
      + by right; right.
      + right; left. eexists. split; [|reflexivity]. category.
      + by left.
    - simpl. rewrite Hc1. right; left. eexists. split; [|reflexivity]. category. }
  destruct (String.eqb (filetype e) "fsdbinary").
  { eapply (counts_link_effect "fsdbinaryLinked"); [category|].
    apply (LinkFacts.handlers_count_links env (filename e) "" "" src w). }
  destruct (String.eqb (filetype e) "schema").
  { eapply (counts_link_effect "schemaLinked"); [category|].
    apply (LinkFacts.handlers_count_links env (filename e) "" "" src w). }
  eapply (counts_link_effect "otherLinked"); [category|].
  apply (LinkFacts.handlers_count_links env (filename e) (filetype e)
           (strip_res (respath e)) src w).
Qed.

Lemma sum_increment_out key c l :
  key ∉ l ->
  fold_right (fun k total =>
                StatsCollector.get k (StatsCollector.increment key 1 c) + total)
             0 l
  = fold_right (fun k total => StatsCollector.get k c + total) 0 l.
Proof.
  induction l as [|k l IH]; intros Hout; [reflexivity|]. simpl.
  apply not_elem_of_cons in Hout as [Hne Hout].
  rewrite (IH Hout), StatsFacts.get_increment.
  by destruct (decide (key = k)).
Qed.

Lemma sum_increment_in key c l :
  NoDup l -> key ∈ l ->
  fold_right (fun k total =>
                StatsCollector.get k (StatsCollector.increment key 1 c) + total)
             0 l
  = fold_right (fun k total => StatsCollector.get k c + total) 0 l + 1.
Proof.
  induction l as [|k l IH]; intros Hnd Hin; [by apply elem_of_nil in Hin|].
  apply NoDup_cons in Hnd as [Hk Hnd]. simpl.
  rewrite StatsFacts.get_increment.
  destruct (decide (key = k)) as [->|Hne].
  - rewrite (sum_increment_out k c l Hk). lia.
  - apply elem_of_cons in Hin as [Hin|Hin]; [done|].
    rewrite (IH Hnd Hin). lia.
Qed.

Lemma categories_NoDup : NoDup categories.
Proof. apply (bool_decide_unpack _). vm_compute. exact I. Qed.

Lemma not_category key :
  bool_decide (key ∈ categories) = false -> key ∉ categories.
Proof. intros H Hin. by rewrite (bool_decide_eq_true_2 _ Hin) in H. Qed.

Lemma handled_increment key c :
  key ∈ categories ->
  handled (StatsCollector.increment key 1 c) = handled c + 1
  /\ StatsCollector.get "totalProcessed" (StatsCollector.increment key 1 c)
     = StatsCollector.get "totalProcessed" c.
Proof.
  intros H. split.
  - apply sum_increment_in; [apply categories_NoDup|exact H].
  - rewrite StatsFacts.get_increment.
    destruct (decide (key = "totalProcessed")) as [->|_]; [|reflexivity].
    exfalso. revert H. apply not_category. vm_compute. reflexivity.
Qed.

Lemma handler_effect_counts c c' :
  handler_effect c c' ->
  handled c <= handled c' <= handled c + 1
  /\ StatsCollector.get "totalProcessed" c'
     = StatsCollector.get "totalProcessed" c.
Proof.
  intros [->|[(key & Hkey & ->)| ->]].
  - split; [lia|reflexivity].
  - destruct (handled_increment key c Hkey) as [-> ->]. split; [lia|reflexivity].
  - assert (Hstatic : "staticLinked" ∈ categories)
      by (apply (bool_decide_unpack _); vm_compute; exact I).
    destruct (handled_increment "staticLinked"
                (StatsCollector.increment "sqliteLinked" 1 c) Hstatic)
      as [-> ->].
    unfold handled. rewrite sum_increment_out
      by (apply not_category; vm_compute; reflexivity).
    split; [lia|]. rewrite StatsFacts.get_increment.
    by destruct (decide ("sqliteLinked" = "totalProcessed")).
Qed.

Lemma counted_counts w :
  handled (collector (counted w)) = handled (collector w)
  /\ StatsCollector.get "totalProcessed" (collector (counted w))
     = StatsCollector.get "totalProcessed" (collector w) + 1.
Proof.
  rewrite ScanFacts.collector_counted. split.
  - unfold handled. apply sum_increment_out.
    apply not_category. vm_compute. reflexivity.
  - rewrite StatsFacts.get_increment.
    by destruct (decide ("totalProcessed" = "totalProcessed")).
Qed.

Lemma processLine_counts env res n line w :
  let r := processLine env res n line w in
  let k := if parses line then 1 else 0 in
  fst r = Ok (n + k)
  /\ StatsCollector.get "totalProcessed" (collector (snd r))
     = StatsCollector.get "totalProcessed" (collector w) + k
  /\ handled (collector w) <= handled (collector (snd r))
     <= handled (collector w) + k.
Proof.
  intros r k. subst r k. rewrite ScanFacts.processLine_unfold. unfold parses.
  destruct (parseLine line) as [e|]; [|simpl; split; [f_equal; lia|lia]].
  cbv zeta. destruct (counted_counts w) as [Hh Ht].
  destruct (Fs.existsSync _ _); [|simpl; rewrite Hh, Ht; split; [done|lia]].
  pose proof (dispatch_effect env e (Path.join [res; sourceRelativePath e])
                (counted w)) as Heff.
  apply handler_effect_counts in Heff as [Hle Heq].
  destruct (dispatch _ _ _ _) as [[[]|message] w']; simpl in *;
    rewrite Heq, Ht; (split; [done|]); lia.
Qed.

End ScanCounts.

(** X10: the scan of a manifest never throws and returns the count it was
    given plus the number of lines that match the pattern, whether or not
    their sources exist and whatever their handlers do; totalProcessed
    grows by that same number; and the six per-category counters of the
    handlers (pickleConverted, pickleErrors, staticLinked, fsdbinaryLinked,
    schemaLinked, otherLinked) together grow by at most that number. *)
Theorem scan_counts_matching_lines
        (env : Env) (resFilesPath : string) (lines : list string) (n : Z)
        (w : world) :
  let r := FileIndexing.scan env resFilesPath lines n w in
  let matching := Reading.count Manifest.parses lines in
  fst r = Ok (n + matching)
  /\ StatsCollector.get "totalProcessed" (collector (snd r))
     = StatsCollector.get "totalProcessed" (collector w) + matching
  /\ Manifest.handled (collector w) <= Manifest.handled (collector (snd r))
     <= Manifest.handled (collector w) + matching.
Proof.
  unfold Reading.count. revert n w.
  induction lines as [|line rest IH]; intros n w; simpl.
  - unfold ret. simpl. split; [f_equal; lia|lia].
  - unfold bind.
    destruct (ScanCounts.processLine_counts env resFilesPath n line w)
      as (H1 & H2 & H3).
    destruct (FileIndexing.processLine env resFilesPath n line w) as [x w1].
    simpl in *. subst x.
    destruct (IH (n + (if Manifest.parses line then 1 else 0)) w1)
      as (I1 & I2 & I3).
    rewrite I1, I2, H2.
    destruct (Manifest.parses line); simpl length;
      (split; [f_equal; lia|]); lia.
Qed.

(** ** What a match of the manifest pattern says about the line *)

Module PatternSound.
Import Regex FileIndexing.

Section Quantified.
Context {R : Type} (cl : cclass) (cont : mstate -> list ascii -> option R).

(** A quantifier that succeeds has consumed a run of the class and handed
    the rest to the continuation. *)
Lemma greedy_run st s r :
  greedy cl cont st s = Some r ->
  exists a b, s = a ++ b /\ Forall (fun c => in_class cl c = true) a
              /\ cont (pushes a st) b = Some r.
Proof.
  revert st. induction s as [|c s IH]; intros st; simpl.
  - intros H. exists [], []. by repeat split.
  - destruct (in_class cl c) eqn:Hc.
    + destruct (greedy cl cont (push c st) s) eqn:E.
      * intros [= <-]. destruct (IH _ E) as (a & b & -> & Ha & H).
        exists (c :: a), b. repeat split; [by constructor|exact H].
      * intros H. exists [], (c :: s). by repeat split.
    + intros H. exists [], (c :: s). by repeat split.
Qed.

Lemma lazy_run st s r :
  lazy cl cont st s = Some r ->
  exists a b, s = a ++ b /\ Forall (fun c => in_class cl c = true) a
              /\ cont (pushes a st) b = Some r.
Proof.
  revert st. induction s as [|c s IH]; intros st; simpl.
  - destruct (cont st []) eqn:E; [|discriminate].
    intros [= <-]. exists [], []. by repeat split.
  - destruct (cont st (c :: s)) eqn:E.
    + intros [= <-]. exists [], (c :: s). by repeat split.
    + destruct (in_class cl c) eqn:Hc; [|discriminate].
      intros H. destruct (IH _ H) as (a & b & -> & Ha & H').
      exists (c :: a), b. repeat split; [by constructor|exact H'].
Qed.

End Quantified.

(** A group [( cl+ )] that matches has captured a non-empty run. *)
Lemma plus_group_run cl p cs s r :
  exec (IOpen :: IPlus cl :: IClose :: p) (MState cs None) s = Some r ->
  exists a b, s = a ++ b /\ a <> []
              /\ Forall (fun c => in_class cl c = true) a
              /\ exec p (MState (cs ++ [a]) None) b = Some r.
Proof.
  cbn [exec]. destruct s as [|c s]; [discriminate|].
  destruct (in_class cl c) eqn:Hc; [|discriminate].
  intros H. apply greedy_run in H as (a & b & -> & Ha & H).
  exists (c :: a), b. split; [reflexivity|]. split; [discriminate|].
  split; [by constructor|].
  change (push c (open_group (MState cs None)))
    with (pushes [c] (open_group (MState cs None))) in H.
  unfold pushes in H. rewrite <- fold_left_app in H. fold (pushes ([c] ++ a)) in H.
  cbn [exec] in H. simpl app in H. by rewrite RegexFacts.captured in H.
Qed.

(** A group [( cl* )] or [( cl*? )] that matches has captured a run. *)
Lemma star_group_run g cl p cs s r :
  exec (IOpen :: IStar g cl :: IClose :: p) (MState cs None) s = Some r ->
  exists a b, s = a ++ b /\ Forall (fun c => in_class cl c = true) a
              /\ exec p (MState (cs ++ [a]) None) b = Some r.
Proof.
  cbn [exec]. intros H.
  assert (G : exists a b, s = a ++ b
                /\ Forall (fun c => in_class cl c = true) a
                /\ exec (IClose :: p) (pushes a (open_group (MState cs None))) b
                   = Some r).
  { destruct g; [by apply greedy_run in H | by apply lazy_run in H]. }
  destruct G as (a & b & -> & Ha & G). exists a, b.
  split; [reflexivity|]. split; [exact Ha|].
  cbn [exec] in G. by rewrite RegexFacts.captured in G.
Qed.

Lemma literal_run c p cs s r :
  exec (IChr c :: p) (MState cs None) s = Some r ->
  exists b, s = c :: b /\ exec p (MState cs None) b = Some r.
Proof.
  cbn [exec]. destruct s as [|c' s]; [discriminate|].
  destruct (ascii_eqb c' c) eqn:E; [|discriminate].
  apply Ascii.eqb_eq in E. subst. intros H. exists s. by split.
Qed.

Lemma class_not_absent c a :
  Forall (fun x => in_class (CNot c) x = true) a -> c ∉ a.
Proof.
  intros H Hin. rewrite Forall_forall in H.
  by apply (IndexPattern.class_not_inv c c (H c Hin)).
Qed.

Lemma class_any_line a :
  Forall (fun x => in_class CAny x = true) a ->
  Forall (fun x => is_line_terminator x = false) a.
Proof.
  intros H. eapply Forall_impl; [exact H|]. intros x Hx. simpl in Hx.
  by destruct (is_line_terminator x).
Qed.

(** The five groups of a match, and how they make up the text. *)
Lemma regex_run s r :
  exec regex init s = Some r ->
  exists lp stem ft phys trailing,
    r = [lp; stem; ft; phys; trailing]
    /\ s = lp ++ stem ++ "."%char :: ft ++ ","%char :: phys ++ trailing
    /\ Forall (fun x => is_line_terminator x = false) lp
    /\ stem <> [] /\ ("/"%char ∉ stem)
    /\ ft <> [] /\ (","%char ∉ ft)
    /\ phys <> [] /\ (","%char ∉ phys)
    /\ Forall (fun x => is_line_terminator x = false) trailing.
Proof.
  unfold regex. change init with (MState [] None). intros H.
  apply star_group_run in H as (lp & s1 & -> & Hlp & H).
  apply plus_group_run in H as (stem & s2 & -> & Hs0 & Hstem & H).
  apply literal_run in H as (s3 & -> & H).
  apply plus_group_run in H as (ft & s4 & -> & Hf0 & Hft & H).
  apply literal_run in H as (s5 & -> & H).
  apply plus_group_run in H as (phys & s6 & -> & Hp0 & Hphys & H).
  apply star_group_run in H as (trailing & s7 & -> & Htr & H).
  cbn [exec] in H. destruct s7; [|discriminate]. injection H as <-.
  exists lp, stem, ft, phys, trailing. rewrite app_nil_r.
  repeat split; auto using class_not_absent, class_any_line.
Qed.

Lemma implode_app a b : implode (a ++ b) = implode a +:+ implode b.
Proof. induction a as [|c a IH]; simpl; [reflexivity|]. by rewrite IH. Qed.

Lemma chars_implode l : chars (implode l) = l.
Proof. apply list_ascii_of_string_of_list_ascii. Qed.

Lemma implode_nonempty l : l <> [] -> implode l <> "".
Proof. by destruct l. Qed.

Lemma parseLine_sound line e :
  parseLine line = Some e ->
  exists trailing,
    line = line_of (respath e) (filename e) (filetype e)
             (sourceRelativePath e) trailing
    /\ one_line (respath e)
    /\ filename e <> "" /\ without "/" (filename e)
    /\ filetype e <> "" /\ without "," (filetype e)
    /\ sourceRelativePath e <> "" /\ without "," (sourceRelativePath e)
    /\ one_line trailing.
Proof.
  unfold parseLine, match_anchored.
  destruct (exec regex init (chars line)) as [r|] eqn:E; [|discriminate].
  apply regex_run in E
    as (lp & stem & ft & phys & trailing & -> & Hline & Hlp & Hs0 & Hstem
        & Hf0 & Hft & Hp0 & Hphys & Htr).
  simpl. intros [= <-]. simpl. exists (implode trailing).
  unfold without, one_line. rewrite !chars_implode.
  split.
  - rewrite <- (IndexPattern.implode_chars line), Hline. unfold line_of.
    rewrite !implode_app. simpl. rewrite !implode_app. simpl.
    by rewrite !implode_app.
  - repeat split; auto using implode_nonempty.
Qed.

End PatternSound.

(** X11: whatever line the pattern of the manifest accepts, the entry it
    yields spells the line: the line is the logical path, the file name, a
    dot, the file type, a comma, the physical path and the rest of the
    line, in that order. The file name is not empty and has no path
    separator, the file type is not empty and has no comma (it may hold
    dots and separators), the physical path is not empty and has no comma. *)
Theorem parsed_entry_spells_line (line : string)
        (e : FileIndexing.IndexEntry) :
  FileIndexing.parseLine line = Some e ->
  exists trailing,
    line = FileIndexing.line_of (FileIndexing.respath e)
             (FileIndexing.filename e) (FileIndexing.filetype e)
             (FileIndexing.sourceRelativePath e) trailing
    /\ FileIndexing.one_line (FileIndexing.respath e)
    /\ FileIndexing.filename e <> ""
    /\ FileIndexing.without "/" (FileIndexing.filename e)
    /\ FileIndexing.filetype e <> ""
    /\ FileIndexing.without "," (FileIndexing.filetype e)
    /\ FileIndexing.sourceRelativePath e <> ""
    /\ FileIndexing.without "," (FileIndexing.sourceRelativePath e)
    /\ FileIndexing.one_line trailing.
Proof. apply PatternSound.parseLine_sound. Qed.

Lemma parsed_entry_spells_line_witness :
  let line := "res:/a.b/c.txt,x/y,77" in
  let e := FileIndexing.Build_IndexEntry "res:/" "a" "b/c.txt" "x/y" in
  FileIndexing.parseLine line = Some e
  /\ exists trailing,
      line = FileIndexing.line_of "res:/" "a" "b/c.txt" "x/y" trailing.
Proof.
  intros line e.
  assert (Hparse : FileIndexing.parseLine line = Some e)
    by (vm_compute; reflexivity).
  split; [exact Hparse|].
  destruct (parsed_entry_spells_line line e Hparse) as (trailing & H & _).
  exists trailing. exact H.
Defined.

(** ** The directory an unclassified file goes to *)

Module CleanPathFacts.
Import FileIndexing CleanPath.

Lemma underscore_plain c : plain (underscore c).
Proof.
  unfold underscore, plain.
  destruct (ascii_eqb c ":"%char) eqn:E1; simpl; [by split|].
  destruct (ascii_eqb c "\"%char) eqn:E2; simpl; [by split|].
  apply Ascii.eqb_neq in E1, E2. by split.
Qed.

Lemma underscore_id c : plain c -> underscore c = c.
Proof.
  intros [H1 H2]. unfold underscore.
  apply Ascii.eqb_neq in H1, H2. unfold ascii_eqb. by rewrite H1, H2.
Qed.

Lemma map_underscore_id l : Forall plain l -> map underscore l = l.
Proof.
  induction 1 as [|c l Hc _ IH]; simpl; [reflexivity|].
  by rewrite IH, underscore_id.
Qed.

Lemma drop_while_suffix {A} (f : A -> bool) l :
  exists dropped, l = dropped ++ Path.drop_while f l
                  /\ Forall (fun x => f x = true) dropped.
Proof.
  induction l as [|x l (d & IH & Hd)]; simpl; [by exists []|].
  destruct (f x) eqn:E.
  - exists (x :: d). split; [simpl; by rewrite <- IH|by constructor].
  - by exists [].
Qed.

Lemma drop_while_head {A} (f : A -> bool) l x rest :
  Path.drop_while f l = x :: rest -> f x = false.
Proof.
  induction l as [|y l IH]; simpl; [discriminate|].
  destruct (f y) eqn:E; [exact IH|]. by intros [= <- _].
Qed.

Lemma drop_while_id {A} (f : A -> bool) l :
  (forall x rest, l = x :: rest -> f x = false) -> Path.drop_while f l = l.
Proof.
  destruct l as [|x l]; [reflexivity|]. intros H. simpl.
  by rewrite (H x l eq_refl).
Qed.

Lemma cleanPath_chars respath :
  chars (cleanPath respath)
  = Path.drop_while (fun c => ascii_eqb c "_"%char)
      (map underscore (chars respath)).
Proof. unfold cleanPath. apply PatternSound.chars_implode. Qed.

Lemma cleanPath_plain respath : Forall plain (chars (cleanPath respath)).
Proof.
  rewrite cleanPath_chars.
  destruct (drop_while_suffix (fun c => ascii_eqb c "_"%char)
              (map underscore (chars respath))) as (d & E & _).
  assert (H : Forall plain (map underscore (chars respath))).
  { apply Forall_forall. intros c Hc.
    apply list_elem_of_In, in_map_iff in Hc as (c0 & <- & _).
    apply underscore_plain. }
  rewrite E in H. by apply Forall_app in H as [_ H].
Qed.

Lemma cleanPath_head respath c rest :
  chars (cleanPath respath) = c :: rest -> c <> "_"%char.
Proof.
  rewrite cleanPath_chars. intros H. apply drop_while_head in H.
  by apply Ascii.eqb_neq in H.
Qed.

Lemma cleanPath_fixed s :
  Forall plain (chars s) ->
  (forall c rest, chars s = c :: rest -> c <> "_"%char) ->
  cleanPath s = s.
Proof.
  intros Hp Hh. unfold cleanPath. fold underscore.
  rewrite (map_underscore_id _ Hp), drop_while_id.
  - apply IndexPattern.implode_chars.
  - intros c rest E. apply Ascii.eqb_neq. by apply (Hh c rest).
Qed.

End CleanPathFacts.

(** X12: the directory name processOtherFile derives from a logical path
    holds no colon and no backslash and does not start with an underscore;
    cleaning is idempotent, and it leaves alone every path that already
    is of that form. *)
Theorem cleanPath_cleans (respath : string) :
  FileIndexing.without ":" (FileIndexing.cleanPath respath)
  /\ FileIndexing.without "\" (FileIndexing.cleanPath respath)
  /\ (forall rest, FileIndexing.cleanPath respath <> String "_" rest)
  /\ FileIndexing.cleanPath (FileIndexing.cleanPath respath)
     = FileIndexing.cleanPath respath
  /\ (FileIndexing.without ":" respath -> FileIndexing.without "\" respath ->
      (forall rest, respath <> String "_" rest) ->
      FileIndexing.cleanPath respath = respath).
Proof.
  pose proof (CleanPathFacts.cleanPath_plain respath) as Hp.
  assert (Hhead : forall rest,
             FileIndexing.cleanPath respath <> String "_" rest).
  { intros rest E.
    apply (CleanPathFacts.cleanPath_head respath "_"%char (chars rest));
      [by rewrite E|reflexivity]. }
  unfold FileIndexing.without. rewrite Forall_forall in Hp.
  split; [intros H; by destruct (Hp _ H)|].
  split; [intros H; by destruct (Hp _ H)|].
  split; [exact Hhead|]. split.
  - apply CleanPathFacts.cleanPath_fixed; [by apply Forall_forall|].
    intros c rest E ->. apply (Hhead (implode rest)).
    rewrite <- (IndexPattern.implode_chars (FileIndexing.cleanPath respath)), E.
    reflexivity.
  - intros H1 H2 H3. apply CleanPathFacts.cleanPath_fixed.
    + apply Forall_forall. intros c Hc. split; intros ->; contradiction.
    + intros c rest E ->. apply (H3 (implode rest)).
      rewrite <- (IndexPattern.implode_chars respath), E. reflexivity.
Qed.

Lemma cleanPath_cleans_witness :
  FileIndexing.cleanPath "C:\Games\ui" = "C__Games_ui"
  /\ FileIndexing.cleanPath ":\ui" = "ui"
  /\ FileIndexing.cleanPath "/ui/icons/" = "/ui/icons/".
Proof.
  split; [reflexivity|]. split; [reflexivity|].
  destruct (cleanPath_cleans "/ui/icons/") as (_ & _ & _ & _ & H).
  apply H; [absent|absent|discriminate].
Defined.

(** ** Making the directories of the project *)

Module DirectoriesFacts.
Import Directories.

Lemma extends_refl m : extends m m.
Proof. intros k. by left. Qed.

Lemma extends_trans m1 m2 m3 : extends m1 m2 -> extends m2 m3 -> extends m1 m3.
Proof.
  intros H12 H23 k. destruct (H12 k) as [E|[E1 E2]], (H23 k) as [F|[F1 F2]].
  - left. congruence.
  - right. split; congruence.
  - right. split; congruence.
  - congruence.
Qed.

Lemma extends_insert m k :
  m !! k = None -> extends m (<[k := Fs.Dir]> m).
Proof.
  intros H k'. destruct (decide (k = k')) as [<-|Hne].
  - right. by rewrite lookup_insert_eq.
  - left. by rewrite lookup_insert_ne.
Qed.

Lemma extends_lookup m m' k x :
  extends m m' -> m !! k = Some x -> m' !! k = Some x.
Proof. intros H E. destruct (H k) as [->|[? _]]; congruence. Qed.

(** What resolved before still resolves, to the same entry. *)
Lemma extends_follow m m' fuel p q :
  extends m m' -> Fs.follow fuel m p = Some q -> Fs.follow fuel m' p = Some q.
Proof.
  intros Hext. revert p. induction fuel as [|fuel IH]; intros p; simpl;
    unfold Fs.lstat; destruct (m !! Fs.key p) as [[c| |t]|] eqn:E;
    try discriminate; rewrite (extends_lookup _ _ _ _ Hext E); try done.
  apply IH.
Qed.

Lemma extends_existsSync m m' p :
  extends m m' -> Fs.existsSync m p = true -> Fs.existsSync m' p = true.
Proof.
  unfold Fs.existsSync, Fs.realpath. intros Hext.
  destruct (Fs.follow Fs.symlink_limit m p) as [q|] eqn:E; [|discriminate].
  by rewrite (extends_follow _ _ _ _ _ Hext E).
Qed.

Lemma mkdir_rec_extends fuel top orig m p m' :
  Fs.mkdir_rec fuel top orig m p = Ok m' ->
  extends m m' /\ Fs.existsSync m' p = true.
Proof.
  revert top m p m'. induction fuel as [|fuel IH]; intros top m p m'; simpl.
  - destruct (Fs.stat m p) as [[c| |t]|] eqn:Hs.
    + by destruct top.
    + intros [= <-]. split; [apply extends_refl|].
      unfold Fs.stat in Hs. unfold Fs.existsSync.
      by destruct (Fs.realpath m p).
    + by destruct top.
    + by destruct (Fs.lstat m p).
  - destruct (Fs.stat m p) as [[c| |t]|] eqn:Hs.
    + by destruct top.
    + intros [= <-]. split; [apply extends_refl|].
      unfold Fs.stat in Hs. unfold Fs.existsSync.
      by destruct (Fs.realpath m p).
    + by destruct top.
    + destruct (Fs.lstat m p) eqn:Hl; [discriminate|].
      destruct (Fs.mkdir_rec fuel false orig m (Path.dirname p)) as [m1|e] eqn:Hrec;
        [|discriminate].
      simpl. intros [= <-]. apply IH in Hrec as [Hext _]. split.
      * intros k. destruct (decide (Fs.key p = k)) as [<-|Hne].
        -- right. rewrite lookup_insert_eq. by split.
        -- rewrite lookup_insert_ne by done. apply Hext.
      * unfold Fs.existsSync, Fs.realpath, Fs.symlink_limit. simpl.
        unfold Fs.lstat. by rewrite lookup_insert_eq.
Qed.

Lemma ensureDirectory_spec env dir w :
  let r := ensureDirectory env dir w in
  extends (fs w) (fs (snd r))
  /\ same_but_disk w (snd r)
  /\ (fst r = Ok tt -> Fs.existsSync (fs (snd r)) (fullPathOf env dir) = true)
  /\ (Fs.existsSync (fs w) (fullPathOf env dir) = true -> r = (Ok tt, w)).
Proof.
  unfold ensureDirectory, bind, fs_read, fs_call, ret. simpl.
  destruct (Fs.existsSync (fs w) (fullPathOf env dir)) eqn:E; simpl.
  - repeat split; auto using extends_refl.
  - unfold Fs.mkdirSync.
    destruct (Fs.mkdir_rec _ _ _ _ _) as [m'|e] eqn:Hm; simpl.
    + apply mkdir_rec_extends in Hm as [Hext Hex]. by repeat split.
    + repeat split; auto using extends_refl; discriminate.
Qed.

Lemma each_ensure env dirs w :
  let r := each (ensureDirectory env) dirs w in
  extends (fs w) (fs (snd r))
  /\ same_but_disk w (snd r)
  /\ (fst r = Ok tt ->
      Forall (fun dir => Fs.existsSync (fs (snd r)) (fullPathOf env dir) = true)
             dirs)
  /\ (Forall (fun dir => Fs.existsSync (fs w) (fullPathOf env dir) = true) dirs ->
      r = (Ok tt, w)).
Proof.
  revert w. induction dirs as [|dir dirs IH]; intros w; simpl.
  - unfold ret. simpl. repeat split; auto using extends_refl.
  - unfold bind.
    destruct (ensureDirectory_spec env dir w) as (Hext & [Ho Hc] & Hex & Hid).
    destruct (ensureDirectory env dir w) as [[[]|e] w1] eqn:E1; simpl in *.
    + destruct (IH w1) as (Hext' & [Ho' Hc'] & Hex' & Hid').
      split; [by eapply extends_trans|].
      split; [split; congruence|]. split.
      * intros Hok. constructor; [|by apply Hex'].
        eapply extends_existsSync; [exact Hext'|by apply Hex].
      * intros Hall. apply Forall_cons in Hall as [Hd Hall].
        injection (Hid Hd) as ->. by apply Hid'.
    + split; [exact Hext|]. split; [by split|]. split; [discriminate|].
      intros Hall. apply Forall_cons in Hall as [Hd _]. by specialize (Hid Hd).
Qed.

End DirectoriesFacts.

(** X13: ensureDirectories never removes or changes an entry of the disk:
    all it adds are directories at names that were free, and it touches
    neither the console nor the counters. When it returns, every default
    directory and every directory it was given exists under the project
    root. On a disk where they all exist it changes nothing, so a second
    run after a successful one is without effect. *)
Theorem ensureDirectories_only_adds_directories
        (env : Env) (directories : list string) (w : world) :
  let dirs := Directories.defaultDirs ++ directories in
  let r := Directories.ensureDirectories env directories w in
  Directories.extends (fs w) (fs (snd r))
  /\ out (snd r) = out w /\ collector (snd r) = collector w
  /\ (fst r = Ok tt ->
      Forall (fun dir => Fs.existsSync (fs (snd r))
                           (Directories.fullPathOf env dir) = true) dirs
      /\ Directories.ensureDirectories env directories (snd r)
         = (Ok tt, snd r))
  /\ (Forall (fun dir => Fs.existsSync (fs w)
                           (Directories.fullPathOf env dir) = true) dirs ->
      r = (Ok tt, w)).
Proof.
  intros dirs r. subst r. unfold Directories.ensureDirectories. fold dirs.
  destruct (DirectoriesFacts.each_ensure env dirs w)
    as (Hext & [Ho Hc] & Hex & Hid).
  split; [exact Hext|]. split; [exact Ho|]. split; [exact Hc|].
  split; [|exact Hid].
  intros Hok. split; [by apply Hex|].
  destruct (DirectoriesFacts.each_ensure env dirs
              (snd (Directories.each (Directories.ensureDirectory env) dirs w)))
    as (_ & _ & _ & Hid').
  apply Hid'. by apply Hex.
Qed.

Lemma ensureDirectories_only_adds_directories_witness :
  let w := World (list_to_map [("/", Fs.Dir); ("/p", Fs.Dir);
                               ("/p/data", Fs.Dir);
                               ("/p/data/raw", Fs.File [])])
             [] (StatsCollector.new 0) in
  let r := Directories.ensureDirectories Samples.env ["data/raw/schema"] w in
  fst r = Throw "ENOTDIR: not a directory, mkdir '/p/data/raw/schema'"
  /\ Fs.existsSync (fs (snd r)) "/p/data/json" = true
  /\ Fs.lstat (fs (snd r)) "/p/data/raw" = Some (Fs.File [])
  /\ Directories.extends (fs w) (fs (snd r)).
Proof.
  intros w r. split; [vm_compute; reflexivity|].
  split; [vm_compute; reflexivity|]. split; [vm_compute; reflexivity|].
  by destruct (ensureDirectories_only_adds_directories Samples.env
                 ["data/raw/schema"] w) as [H _].
Defined.

(** ** Loading and saving JSON files, removing files *)

Module FileFacts.


Lemma removeFile_unfold p name w :
  Cleanup.removeFile p name w
  = if Fs.existsSync (fs w) p then
      match Fs.unlink (fs w) p with
      | Ok m => (Ok true,
                 say Success ("Removed " +:+ name)
                   (World m (out w) (collector w)))
      | Throw message =>
          (Ok false,
           say Error ("Failed to remove " +:+ name +:+ ": " +:+ message) w)
      end
    else (Ok true, say Debug (name +:+ " does not exist, skipping") w).
Proof.
  unfold Cleanup.removeFile, try_catch, bind, fs_read, fs_call, log, ret.
  simpl. destruct (Fs.existsSync (fs w) p); simpl; [|reflexivity].
  destruct (Fs.unlink (fs w) p); reflexivity.
Qed.

Lemma stat_after_write m p content m' :
  Fs.writeFile m p content = Ok m' -> Fs.stat m' p = Some (Fs.File content).
Proof.
  intros H. apply WriteFacts.read_after_write in H. unfold Fs.readFile in H.
  destruct (Fs.stat m' p) as [[c| |t]|]; try discriminate. by injection H as ->.
Qed.

Lemma save_unfold env dirSize invalid p data description w :
  JsonFiles.save env dirSize invalid p data description w
  = match (if JsonFiles.undefined data then Throw invalid
           else Fs.writeFile (fs w) p (json_stringify env data)) with
    | Ok m =>
        (Ok true,
         say Success
           (JsonFiles.generated p
              (Z.of_nat (length (json_stringify env data))) description)
           (World m (out w) (collector w)))
    | Throw message =>
        (Ok false,
         say Error ("Could not save " +:+ p +:+ ": " +:+ message) w)
    end.
Proof.
  unfold JsonFiles.save, JsonFiles.writeJson, try_catch, bind, fs_read,
    fs_call, log, ret, throw.
  destruct (JsonFiles.undefined data); [reflexivity|].
  destruct (Fs.writeFile (fs w) p (json_stringify env data)) as [m|e] eqn:E;
    simpl; [|reflexivity].
  unfold JsonFiles.statSize. by rewrite (stat_after_write _ _ _ _ E).
Qed.

End FileFacts.


(** X15: removeFile never throws. It returns false exactly when the path
    exists and is itself a directory, which unlink refuses, and then only
    logs an error. When it returns true, existsSync no longer finds the
    path and no other entry of the disk has changed; but a dangling link
    at the path, which existsSync does not see, is reported as absent and
    left where it is. *)
Theorem removeFile_removes_what_it_sees
        (filePath fileName : string) (w : world) :
  let r := Cleanup.removeFile filePath fileName w in
  (exists removed, fst r = Ok removed)
  /\ collector (snd r) = collector w
  /\ (fst r = Ok false
      <-> Fs.existsSync (fs w) filePath = true
          /\ Fs.lstat (fs w) filePath = Some Fs.Dir)
  /\ (fst r = Ok false -> fs (snd r) = fs w)
  /\ (fst r = Ok true ->
      Fs.existsSync (fs (snd r)) filePath = false
      /\ fs (snd r)
         = if Fs.existsSync (fs w) filePath
           then delete (Fs.key filePath) (fs w) else fs w)
  /\ (forall target,
        Fs.lstat (fs w) filePath = Some (Fs.Link target) ->
        Fs.existsSync (fs w) filePath = false ->
        r = (Ok true, say Debug (fileName +:+ " does not exist, skipping") w)).
Proof.
  intros r. subst r. rewrite FileFacts.removeFile_unfold.
  destruct (Fs.existsSync (fs w) filePath) eqn:Hex.
  - unfold Fs.unlink.
    destruct (FilesFacts.existsSync_lstat _ _ Hex) as [node Hl]. rewrite Hl.
    assert (Hgone : Fs.existsSync (delete (Fs.key filePath) (fs w)) filePath
                    = false).
    { apply FilesFacts.existsSync_absent. unfold Fs.lstat.
      apply lookup_delete_eq. }
    destruct node as [c| |t]; simpl.
    + split; [eauto|]. split; [reflexivity|].
      split; [split; [discriminate|by intros [_ [=]]]|].
      split; [discriminate|]. split; [by intros _|]. discriminate.
    + split; [eauto|]. split; [reflexivity|]. split; [by split|].
      split; [by intros _|]. split; discriminate.
    + split; [eauto|]. split; [reflexivity|].
      split; [split; [discriminate|by intros [_ [=]]]|].
      split; [discriminate|]. split; [by intros _|]. discriminate.
  - simpl. split; [eauto|]. split; [reflexivity|].
    split; [split; [discriminate|by intros [[=] _]]|].
    split; [discriminate|]. split; [by intros _|]. reflexivity.
Qed.

(** X16: json.save never throws and never touches the counters. Given
    data other than undefined, when the file can be written it returns
    true, the file read back holds the rendering of the data, and one
    success line gives the file's name, its size in kilobytes to one
    decimal and the description if there is one; when the file cannot be
    written it returns false, leaves the disk as it was and logs one
    error line. Given undefined it writes nothing and returns false. *)
Theorem json_save_writes_or_reports
        (env : Env) (directorySize : Z) (invalidData filePath : string)
        (data : Js.jvalue) (description : string) (w : world) :
  let r := JsonFiles.save env directorySize invalidData filePath data
             description w in
  let text := json_stringify env data in
  (exists saved, fst r = Ok saved)
  /\ collector (snd r) = collector w
  /\ (data <> Js.JUndef ->
      (fst r = Ok true
       /\ Fs.writeFile (fs w) filePath text = Ok (fs (snd r))
       /\ Fs.readFile (fs (snd r)) filePath = Ok text
       /\ out (snd r)
          = out w ++ [(Success,
                       JsonFiles.generated filePath (Z.of_nat (length text))
                         description)])
      \/ (fst r = Ok false
          /\ fs (snd r) = fs w
          /\ exists message,
              Fs.writeFile (fs w) filePath text = Throw message
              /\ out (snd r)
                 = out w ++ [(Error, "Could not save " +:+ filePath +:+ ": "
                                       +:+ message)]))
  /\ (data = Js.JUndef ->
      r = (Ok false,
           say Error ("Could not save " +:+ filePath +:+ ": " +:+ invalidData)
             w)).
Proof.
  intros r text. subst r. rewrite FileFacts.save_unfold. fold text.
  destruct (JsonFiles.undefined data) eqn:Hu.
  - assert (data = Js.JUndef) by (by destruct data).
    simpl. split; [eauto|]. split; [reflexivity|]. split; done.
  - assert (data <> Js.JUndef) by (by intros ->).
    destruct (Fs.writeFile (fs w) filePath text) as [m|e] eqn:E; simpl.
    + split; [eauto|]. split; [reflexivity|]. split; [|done].
      intros _. left. split; [reflexivity|]. split; [reflexivity|].
      split; [|reflexivity]. by apply (WriteFacts.read_after_write (fs w)).
    + split; [eauto|]. split; [reflexivity|]. split; [|done].
      intros _. right. split; [reflexivity|]. split; [reflexivity|]. eauto.
Qed.

Lemma json_save_size_examples :
  JsonFiles.kilobytes 0 = "0.0" /\ JsonFiles.kilobytes 1024 = "1.0"
  /\ JsonFiles.kilobytes 1536 = "1.5" /\ JsonFiles.kilobytes 51 = "0.0"
  /\ JsonFiles.kilobytes 52 = "0.1" /\ JsonFiles.kilobytes 2611 = "2.5".
Proof. repeat split; vm_compute; reflexivity. Qed.

(** ** The records of the stellar dataset *)

Module StellarTablesFacts.
Import Js Stellar Reading StellarTables TypeTablesFacts.

Lemma builtAt_snoc {A} (make : string * jvalue -> A) done e key :
  builtAt make (done ++ [e]) key
  = if String.eqb (keyOf e) key then Some (make e) else builtAt make done key.
Proof.
  unfold builtAt. rewrite filter_snoc.
  destruct (String.eqb (keyOf e) key).
  - rewrite map_app. simpl. apply last_snoc.
  - by rewrite app_nil_r.
Qed.

Lemma holds_step {A} (make : string * jvalue -> A) done e m :
  holds make done m -> holds make (done ++ [e]) (<[keyOf e := make e]> m).
Proof.
  intros H key. rewrite builtAt_snoc.
  destruct (String.eqb_spec (keyOf e) key) as [->|Hne].
  - apply lookup_insert_eq.
  - rewrite lookup_insert_ne by done. apply H.
Qed.

Lemma rfold_holds {A} (build : gmap string A -> string * jvalue
                               -> result (gmap string A))
      (make : string * jvalue -> A) es m :
  (forall st e st', build st e = Ok st' -> st' = <[keyOf e := make e]> st) ->
  rfold build es ∅ = Ok m -> holds make es m.
Proof.
  intros Hbuild H.
  apply (rfold_invariant build (holds make) es ∅ m); [| |exact H].
  - intros key. apply lookup_empty.
  - intros done a rest st st' _ Hst Hstep.
    rewrite (Hbuild _ _ _ Hstep). by apply holds_step.
Qed.

Lemma field_or_fieldOr data member fallback v :
  field_or data member fallback = Ok v -> v = fieldOr data member fallback.
Proof.
  unfold field_or, fieldOr. intros H. apply rbind_ok in H as (x & Hx & H).
  injection H as <-. by rewrite (field_get _ _ _ Hx).
Qed.

Ltac read_fields H :=
  repeat (let x := fresh "x" in let Hx := fresh "Hx" in
          apply rbind_ok in H as (x & Hx & H);
          first [apply field_or_fieldOr in Hx; subst x | idtac]).

Lemma buildRegion_make labels st e st' :
  buildRegion labels st e = Ok st' ->
  st' = <[keyOf e := regionOf labels e]> st.
Proof.
  destruct e as [idStr data]. unfold buildRegion. intros H.
  read_fields H. by injection H as <-.
Qed.

Lemma buildConstellation_make labels st e st' :
  buildConstellation labels st e = Ok st' ->
  st' = <[keyOf e := constellationOf labels e]> st.
Proof.
  destruct e as [idStr data]. unfold buildConstellation. intros H.
  read_fields H. by injection H as <-.
Qed.

Lemma buildSystem_make labels st e st' :
  buildSystem labels st e = Ok st' ->
  st' = <[keyOf e := systemOf labels e]> st.
Proof.
  destruct e as [idStr data]. unfold buildSystem. intros H.
  do 5 (let x := fresh "x" in let Hx := fresh "Hx" in
        apply rbind_ok in H as (x & Hx & H);
        apply field_or_fieldOr in Hx; subst x).
  apply rbind_ok in H as (star & Hstar & H).
  apply rbind_ok in H as (sid & Hsid & H).
  read_fields H. injection H as <-.
  unfold systemOf, keyOf. simpl. rewrite (field_get _ _ _ Hstar).
  destruct (truthy star).
  - by rewrite (field_get _ _ _ Hsid).
  - by injection Hsid as <-.
Qed.

Lemma buildAll_holds {A} starMapCache member
      (build : gmap string A -> string * jvalue -> result (gmap string A))
      (make : string * jvalue -> A) m :
  (forall st e st', build st e = Ok st' -> st' = <[keyOf e := make e]> st) ->
  buildAll starMapCache member build = Ok m ->
  holds make (recordsOf starMapCache member) m.
Proof.
  intros Hbuild H. unfold buildAll in H.
  apply rbind_ok in H as (table & Htable & H).
  unfold recordsOf. rewrite (field_get _ _ _ Htable).
  destruct (truthy table).
  - apply rbind_ok in H as (es & -> & H). by eapply rfold_holds.
  - injection H as <-. intros key. apply lookup_empty.
Qed.

Lemma buildStellarData_holds starMapCache labels data :
  buildStellarData starMapCache labels = Ok data ->
  holds (regionOf (regionLabels labels)) (recordsOf starMapCache "regions")
        (regions data)
  /\ holds (constellationOf (constellationLabels labels))
           (recordsOf starMapCache "constellations") (constellations data)
  /\ holds (systemOf (systemLabels labels))
           (recordsOf starMapCache "solarSystems") (systems data).
Proof.
  unfold buildStellarData. intros H.
  apply rbind_ok in H as (rs & Hrs & H).
  apply rbind_ok in H as (cs & Hcs & H).
  apply rbind_ok in H as (ss & Hss & H). injection H as <-. simpl.
  split; [|split].
  - eapply buildAll_holds; [|exact Hrs]. apply buildRegion_make.
  - eapply buildAll_holds; [|exact Hcs]. apply buildConstellation_make.
  - eapply buildAll_holds; [|exact Hss]. apply buildSystem_make.
Qed.

(** What is stored under a key was made from an entry with that key. *)
Lemma holds_origin {A} (make : string * jvalue -> A) es m key v :
  holds make es m -> m !! key = Some v ->
  exists e, e ∈ es /\ keyOf e = key /\ v = make e.
Proof.
  intros H Hv. rewrite H in Hv. unfold builtAt in Hv.
  apply last_Some in Hv as [l Hl].
  assert (Hin : v ∈ map make
                  (List.filter (fun e => String.eqb (keyOf e) key) es)).
  { rewrite Hl. in_last. }
  apply list_elem_of_In, in_map_iff in Hin as (e & <- & He).
  apply List.filter_In in He as [He Hk]. apply String.eqb_eq in Hk.
  exists e. split; [by apply list_elem_of_In|by split].
Qed.

Lemma nameOf_truthy labels kind id : truthy (nameOf labels kind id) = true.
Proof.
  unfold nameOf, or_else.
  destruct (truthy (default JUndef (labels !! id))) eqn:E; [exact E|].
  simpl. destruct kind; reflexivity.
Qed.



End StellarTablesFacts.

(** X17: when buildStellarData succeeds, each of the three maps it
    returns holds under a key what the last entry of the starmapcache
    with that ID makes: its ID, its label or the fallback name, and the
    members of the record or their defaults (empty lists, null, the
    origin for a missing centre); there is nothing under a key no entry
    has. So every record sits under the decimal text of its own ID and
    has a truthy name. *)
Theorem stellar_maps_hold_last_record
        (starMapCache : Js.jvalue) (labels : Stellar.Labels)
        (data : Stellar.StellarData) :
  Stellar.buildStellarData starMapCache labels = Ok data ->
  (forall key,
      Stellar.regions data !! key
      = StellarTables.builtAt
          (StellarTables.regionOf (Stellar.regionLabels labels))
          (StellarTables.recordsOf starMapCache "regions") key)
  /\ (forall key,
        Stellar.constellations data !! key
        = StellarTables.builtAt
            (StellarTables.constellationOf (Stellar.constellationLabels labels))
            (StellarTables.recordsOf starMapCache "constellations") key)
  /\ (forall key,
        Stellar.systems data !! key
        = StellarTables.builtAt
            (StellarTables.systemOf (Stellar.systemLabels labels))
            (StellarTables.recordsOf starMapCache "solarSystems") key)
  /\ (forall key r, Stellar.regions data !! key = Some r ->
        key = Js.num_to_string (Stellar.regionId r)
        /\ Js.truthy (Stellar.regionName r) = true)
  /\ (forall key c, Stellar.constellations data !! key = Some c ->
        key = Js.num_to_string (Stellar.constellationId c)
        /\ Js.truthy (Stellar.constellationName c) = true)
  /\ (forall key s, Stellar.systems data !! key = Some s ->
        key = Js.num_to_string (Stellar.systemId s)
        /\ Js.truthy (Stellar.systemName s) = true).
Proof.
  intros H.
  destruct (StellarTablesFacts.buildStellarData_holds _ _ _ H)
    as (Hr & Hc & Hs).
  split; [exact Hr|]. split; [exact Hc|]. split; [exact Hs|].
  split; [|split]; intros key v Hv.
  - destruct (StellarTablesFacts.holds_origin _ _ _ _ _ Hr Hv)
      as (e & _ & <- & ->).
    split; [reflexivity|apply StellarTablesFacts.nameOf_truthy].
  - destruct (StellarTablesFacts.holds_origin _ _ _ _ _ Hc Hv)
      as (e & _ & <- & ->).
    split; [reflexivity|apply StellarTablesFacts.nameOf_truthy].
  - destruct (StellarTablesFacts.holds_origin _ _ _ _ _ Hs Hv)
      as (e & _ & <- & ->).
    split; [reflexivity|apply StellarTablesFacts.nameOf_truthy].
Qed.

Lemma stellar_maps_hold_last_record_witness :
  exists labels data r,
    Stellar.stellarCartography Samples.starMapCache Samples.mainLocalization
      Samples.enUsLocalization = Ok (labels, data)
    /\ Stellar.regions data !! "10" = Some r
    /\ Stellar.regionName r = Js.JStr "Region_10"
    /\ Stellar.regionSolarSystemIds r
       = Js.JArr [Samples.num 30; Samples.num 32]
    /\ Stellar.regionDescription r = Js.JNull
    /\ Stellar.systems data !! "32" = None.
Proof.
  destruct (StellarTotal.stellarCartography_total Samples.starMapCache
              Samples.mainLocalization Samples.enUsLocalization
              StellarTotal.sample_cache_well_formed
              StellarTotal.sample_labels_well_formed) as [[labels data] Hrun].
  pose proof Hrun as Hrun'. unfold Stellar.stellarCartography in Hrun'.
  apply rbind_ok in Hrun' as (labels' & Hlabels & Hrun').
  apply rbind_ok in Hrun' as (data' & Hdata & Hrun').
  injection Hrun' as -> ->.
  destruct (stellar_maps_hold_last_record _ _ _ Hdata) as (Hr & _ & Hs & _).
  assert (Hten : exists r,
             Stellar.regions data !! "10" = Some r
             /\ Stellar.regionName r = Js.JStr "Region_10"
             /\ Stellar.regionSolarSystemIds r
                = Js.JArr [Samples.num 30; Samples.num 32]
             /\ Stellar.regionDescription r = Js.JNull).
  { rewrite Hr. vm_compute in Hlabels. injection Hlabels as <-.
    vm_compute. eexists. repeat split. }
  destruct Hten as (r & H10 & Hname & Hlist & Hdesc).
  exists labels, data, r. split; [exact Hrun|]. split; [exact H10|].
  split; [exact Hname|]. split; [exact Hlist|]. split; [exact Hdesc|].
  rewrite Hs. vm_compute. reflexivity.
Defined.



(** ** IDs as property keys and inside labels *)

Module IdFacts.
Import Js Regex Digits.







End IdFacts.

Module KeyFacts.
Import Js TypeNames TypeTables TypeTablesFacts.




End KeyFacts.

Module LabelFacts.
Import Js Regex Stellar Digits.




End LabelFacts.





(** ** Converting the cache table *)

Module CacheFacts.
Import Js Reading CacheConversion.

Section WithParser.
Context (json_parse : string -> result jvalue).

Lemma get_field item key :
  nullish item = false -> get item key = Ok (field item key).
Proof.
  intros Hobj. unfold field.
  destruct (get item key) as [x|message] eqn:E; [reflexivity|].
  exfalso. destruct item; try discriminate; simpl in E;
    repeat case_match; discriminate.
Qed.

Lemma get_nullish item key :
  nullish item = true -> exists message, get item key = Throw message.
Proof. destruct item; try discriminate; intros _; simpl; eauto. Qed.

(** One turn of the loop, in terms of the row alone. *)
Lemma convertItem_effect t item w :
  nullish item = false ->
  convertItem json_parse t item w
  = if converted json_parse item then
      (Ok (Tally (assign (to_string (field item "key"))
                    (match parsed json_parse item with
                     | Ok d => d | Throw _ => JUndef end)
                    (blueprintsData t))
                 (processedCount t + 1) (errorCount t)), w)
    else if rejected json_parse item then
      (Ok (Tally (blueprintsData t) (processedCount t) (errorCount t + 1)),
       World (fs w) (out w ++ [warning json_parse item]) (collector w))
    else (Ok t, w).
Proof.
  intros Hobj.
  unfold convertItem, converted, rejected, candidate, warning, parsed, bind,
    lift, log, ret, say.
  rewrite (get_field item "key" Hobj).
  destruct (truthy (field item "key")); simpl; [|reflexivity].
  rewrite (get_field item "value" Hobj).
  destruct (truthy (field item "value")); simpl; [|reflexivity].
  destruct (json_parse (to_string (field item "value"))); reflexivity.
Qed.

Lemma convertItem_throws t item w :
  nullish item = true ->
  exists message, convertItem json_parse t item w = (Throw message, w).
Proof.
  intros Hnull. destruct (get_nullish item "key" Hnull) as [message E].
  exists message. unfold convertItem, bind, lift. by rewrite E.
Qed.

Lemma foldM_snoc {A S} (f : S -> A -> M S) l a s w :
  foldM f (l ++ [a]) s w
  = match foldM f l s w with
    | (Ok s', w') => f s' a w'
    | (Throw e, w') => (Throw e, w')
    end.
Proof.
  revert s w. induction l as [|b l IH]; intros s w; simpl.
  - unfold bind, ret. by destruct (f s a w) as [[s'|e] w'].
  - unfold bind. destruct (f s b w) as [[s'|e] w']; [apply IH|done].
Qed.

Lemma converted_not_rejected item :
  converted json_parse item = true -> rejected json_parse item = false.
Proof.
  unfold converted, rejected.
  destruct (candidate item); [|done].
  by destruct (parsed json_parse item).
Qed.

Lemma lastFiled_snoc done item key :
  lastFiled json_parse (done ++ [item]) key
  = if filed json_parse key item
    then match parsed json_parse item with
         | Ok d => Some d | Throw _ => None end
    else lastFiled json_parse done key.
Proof.
  unfold lastFiled. rewrite TypeTablesFacts.filter_snoc.
  destruct (filed json_parse key item).
  - by rewrite last_snoc.
  - by rewrite app_nil_r.
Qed.

Lemma lastFiled_proto done : lastFiled json_parse done "__proto__" = None.
Proof.
  unfold lastFiled.
  replace (List.filter (filed json_parse "__proto__") done) with (@nil jvalue);
    [reflexivity|].
  induction done as [|a l IH]; [reflexivity|]. simpl.
  unfold filed at 1. simpl. by rewrite andb_false_r.
Qed.

Lemma conversion_step w done item t w1 :
  nullish item = false ->
  conversion json_parse w done t w1 ->
  exists t' w',
    convertItem json_parse t item w1 = (Ok t', w')
    /\ conversion json_parse w (done ++ [item]) t' w'.
Proof.
  intros Hobj (Hp & He & Hdata & Hsize & Hfs & Hcol & Hout).
  rewrite (convertItem_effect t item w1 Hobj).
  unfold conversion. rewrite !TypeCountsFacts.count_snoc.
  rewrite TypeTablesFacts.filter_snoc, map_app.
  destruct (converted json_parse item) eqn:Hc.
  - rewrite (converted_not_rejected item Hc). simpl. rewrite app_nil_r.
    eexists _, _. split; [reflexivity|]. simpl.
    assert (Hok : exists d, parsed json_parse item = Ok d).
    { unfold converted in Hc. destruct (parsed json_parse item); [eauto|].
      by rewrite andb_false_r in Hc. }
    destruct Hok as [d Hd]. rewrite Hd.
    split; [lia|]. split; [lia|]. split; [|split; [|done]].
    + intros key. rewrite lastFiled_snoc. unfold filed. rewrite Hc, Hd. simpl.
      unfold assign.
      destruct (String.eqb_spec (to_string (field item "key")) "__proto__")
        as [Ek|Ek].
      * rewrite Ek.
        destruct (String.eqb_spec "__proto__" key) as [<-|_]; simpl;
          apply Hdata.
      * destruct (String.eqb_spec (to_string (field item "key")) key)
          as [<-|Hne]; simpl.
        -- destruct (String.eqb_spec (to_string (field item "key")) "__proto__");
             [done|]. simpl. apply lookup_insert_eq.
        -- rewrite lookup_insert_ne by done. apply Hdata.
    + unfold assign.
      destruct (String.eqb (to_string (field item "key")) "__proto__");
        [lia|].
      rewrite map_size_insert. unfold id.
      destruct (blueprintsData t !! to_string (field item "key")); lia.
  - destruct (rejected json_parse item) eqn:Hr.
    + eexists _, _. split; [reflexivity|]. simpl.
      split; [lia|]. split; [lia|]. split; [|split; [lia|]].
      * intros key. rewrite lastFiled_snoc. unfold filed. rewrite Hc. simpl.
        apply Hdata.
      * split; [done|]. split; [done|]. by rewrite Hout, <- app_assoc.
    + eexists _, _. split; [reflexivity|]. simpl. rewrite app_nil_r.
      split; [lia|]. split; [lia|]. split; [|split; [lia|done]].
      intros key. rewrite lastFiled_snoc. unfold filed. rewrite Hc. simpl.
      apply Hdata.
Qed.

Lemma conversion_start w : conversion json_parse w [] (Tally ∅ 0 0) w.
Proof.
  unfold conversion, count. simpl. rewrite map_size_empty, app_nil_r.
  repeat split; try done; intros key; apply lookup_empty.
Qed.

Lemma loop_converts w items :
  Forall (fun item => nullish item = false) items ->
  exists t w',
    foldM (convertItem json_parse) items (Tally ∅ 0 0) w = (Ok t, w')
    /\ conversion json_parse w items t w'.
Proof.
  induction items as [|item items IH] using rev_ind; intros Hall.
  - exists (Tally ∅ 0 0), w. split; [reflexivity|apply conversion_start].
  - apply Forall_app in Hall as [Hall Hitem].
    apply Forall_cons in Hitem as [Hitem _].
    destruct (IH Hall) as (t & w1 & Hrun & Hconv).
    destruct (conversion_step w items item t w1 Hitem Hconv)
      as (t' & w' & Hstep & Hconv').
    exists t', w'. split; [|exact Hconv'].
    by rewrite foldM_snoc, Hrun.
Qed.

Lemma loop_stops items : forall t w t' w',
  foldM (convertItem json_parse) items t w = (Ok t', w') ->
  Forall (fun item => nullish item = false) items.
Proof.
  induction items as [|item items IH]; intros t w t' w' H; [constructor|].
  simpl in H. unfold bind in H.
  destruct (nullish item) eqn:Hn.
  - destruct (convertItem_throws t item w Hn) as [message E].
    rewrite E in H. discriminate.
  - constructor; [exact Hn|].
    destruct (convertItem json_parse t item w) as [[t1|e] w1]; [|discriminate].
    by apply (IH t1 w1 t' w').
Qed.

Lemma convertCache_unfold items w :
  convertCache json_parse (JArr items) w
  = match foldM (convertItem json_parse) items (Tally ∅ 0 0) w with
    | (Ok t, w') =>
        (Ok t,
         say Info ("Processed " +:+ Z_to_string (processedCount t)
                     +:+ " blueprints (" +:+ Z_to_string (errorCount t)
                     +:+ " errors)") w')
    | (Throw e, w') => (Throw e, w')
    end.
Proof.
  unfold convertCache, bind, lift, log, ret. simpl.
  by destruct (foldM (convertItem json_parse) items (Tally ∅ 0 0) w)
    as [[t|e] w'].
Qed.

Lemma convertCache_rows items w :
  Forall (fun item => nullish item = false) items ->
  exists t w',
    convertCache json_parse (JArr items) w = (Ok t, w')
    /\ processedCount t = count (converted json_parse) items
    /\ errorCount t = count (rejected json_parse) items
    /\ (forall key, blueprintsData t !! key = lastFiled json_parse items key)
    /\ Z.of_nat (size (blueprintsData t)) <= processedCount t
    /\ fs w' = fs w /\ collector w' = collector w
    /\ out w'
       = out w ++ map (warning json_parse)
                      (List.filter (rejected json_parse) items)
               ++ [report json_parse items].
Proof.
  intros Hall.
  destruct (loop_converts w items Hall)
    as (t & w1 & Hrun & Hp & He & Hdata & Hsize & Hfs & Hcol & Hout).
  exists t, (say Info ("Processed " +:+ Z_to_string (processedCount t)
                         +:+ " blueprints (" +:+ Z_to_string (errorCount t)
                         +:+ " errors)") w1).
  split; [by rewrite convertCache_unfold, Hrun|].
  split; [exact Hp|]. split; [exact He|]. split; [exact Hdata|].
  split; [lia|]. split; [exact Hfs|]. split; [exact Hcol|].
  simpl. rewrite Hout, <- app_assoc. unfold report. by rewrite Hp, He.
Qed.

Lemma convertCache_ok items w t w' :
  convertCache json_parse (JArr items) w = (Ok t, w') ->
  Forall (fun item => nullish item = false) items.
Proof.
  rewrite convertCache_unfold.
  destruct (foldM (convertItem json_parse) items (Tally ∅ 0 0) w)
    as [[t1|e] w1] eqn:E; [|discriminate].
  intros _. by apply (loop_stops items _ _ _ _ E).
Qed.

Lemma count_split items :
  count (converted json_parse) items + count (rejected json_parse) items
  = count candidate items.
Proof.
  unfold count. induction items as [|a l IH]; [reflexivity|]. simpl.
  unfold converted at 1, rejected at 1.
  destruct (candidate a); simpl; [|lia].
  destruct (parsed json_parse a); simpl; lia.
Qed.

End WithParser.
End CacheFacts.

(** X21: converting the rows of the cache table succeeds exactly when no
    row is null or undefined. It then counts as processed the rows with a
    key and a value whose value parses and as errors those whose value
    does not, logs one warning for each of the latter and one line with
    both counts, and touches neither the disk nor the counters. Under
    each key the result holds the data of the last converted row with
    that key, so it may hold fewer blueprints than were counted; the key
    __proto__ is never stored. A cache document that is an object cannot
    be iterated and makes the conversion throw. *)
Theorem cache_conversion_counts_rows
        (json_parse : string -> result Js.jvalue) (items : list Js.jvalue)
        (w : world) :
  let r := CacheConversion.convertCache json_parse (Js.JArr items) w in
  ((exists t, fst r = Ok t)
   <-> Forall (fun item => Js.nullish item = false) items)
  /\ (forall t, fst r = Ok t ->
      CacheConversion.processedCount t
      = Reading.count (CacheConversion.converted json_parse) items
      /\ CacheConversion.errorCount t
         = Reading.count (CacheConversion.rejected json_parse) items
      /\ CacheConversion.processedCount t + CacheConversion.errorCount t
         = Reading.count CacheConversion.candidate items
      /\ (forall key,
            CacheConversion.blueprintsData t !! key
            = CacheConversion.lastFiled json_parse items key)
      /\ CacheConversion.blueprintsData t !! "__proto__" = None
      /\ Z.of_nat (size (CacheConversion.blueprintsData t))
         <= CacheConversion.processedCount t
      /\ fs (snd r) = fs w /\ collector (snd r) = collector w
      /\ out (snd r)
         = out w
           ++ map (CacheConversion.warning json_parse)
                  (List.filter (CacheConversion.rejected json_parse) items)
           ++ [CacheConversion.report json_parse items])
  /\ (forall props, exists message,
        CacheConversion.convertCache json_parse (Js.JObj props) w
        = (Throw message, w)).
Proof.
  intros r. subst r. split; [|split].
  - split.
    + intros [t Ht].
      destruct (CacheConversion.convertCache json_parse (Js.JArr items) w)
        as [res w'] eqn:E.
      simpl in Ht. subst res.
      by apply (CacheFacts.convertCache_ok json_parse items w t w').
    + intros Hall.
      destruct (CacheFacts.convertCache_rows json_parse items w Hall)
        as (t & w' & E & _).
      exists t. by rewrite E.
  - intros t Ht.
    destruct (CacheConversion.convertCache json_parse (Js.JArr items) w)
      as [res w'] eqn:E.
    simpl in Ht. subst res.
    pose proof (CacheFacts.convertCache_ok json_parse items w t w' E) as Hall.
    destruct (CacheFacts.convertCache_rows json_parse items w Hall)
      as (t1 & w1 & E1 & Hp & He & Hdata & Hsize & Hfs & Hcol & Hout).
    rewrite E in E1. injection E1 as <- <-. simpl.
    split; [exact Hp|]. split; [exact He|].
    split; [rewrite Hp, He; apply CacheFacts.count_split|].
    split; [exact Hdata|].
    split; [rewrite Hdata; apply CacheFacts.lastFiled_proto|].
    split; [exact Hsize|]. split; [exact Hfs|]. split; [exact Hcol|exact Hout].
  - intros props. eexists. reflexivity.
Qed.

Lemma cache_conversion_counts_rows_example :
  let parse s := if String.eqb s "{" then Throw "Unexpected end of JSON input"
                 else Ok (Js.JStr s) in
  let row key value :=
    Js.JObj [("key", Js.JNum (Js.Num key)); ("value", Js.JStr value)] in
  let items := [row 7 "a"; row 8 "{"; row 7 "b"; row 0 "c"; Js.JObj []] in
  let w := World ∅ [] (StatsCollector.new 0) in
  exists t,
    fst (CacheConversion.convertCache parse (Js.JArr items) w) = Ok t
    /\ CacheConversion.processedCount t = 2
    /\ CacheConversion.errorCount t = 1
    /\ CacheConversion.blueprintsData t !! "7" = Some (Js.JStr "b")
    /\ size (CacheConversion.blueprintsData t) = 1%nat.
Proof.
  intros parse row items w.
  destruct (cache_conversion_counts_rows parse items w) as ([_ Hok] & Hrows & _).
  destruct Hok as [t Ht]; [repeat constructor|].
  exists t. split; [exact Ht|].
  destruct (Hrows t Ht) as (Hp & He & _ & Hdata & _).
  split; [by rewrite Hp|]. split; [by rewrite He|].
  split; [by rewrite Hdata|].
  clear Hrows Hp He Hdata. revert Ht. vm_compute. by intros [= <-].
Defined.

(** ** Counters along a trace *)

Module TraceFacts.
Import StatsCollector Traces.






End TraceFacts.


